(** * The FITS decoder of package [fits], embedded in Rocq

    The development follows the Go source function by function and keeps
    its names: [Reader] and its typed reads, [processString], [NewHeader],
    [verifyPrimary], [verifyExtension], [loadData], [accessorBin],
    [accessorText], [loadTable], [Open], [index], [Field], [Format] and
    [Stats].

    Conventions.
    - A Go [string] and a Go [[]byte] are sequences of bytes; a byte is an
      [ascii].  Where the source reads a string as runes ([range] over a
      string, [strings.TrimSpace]) the UTF-8 decoding is modelled; the
      other functions of package [strings] that it calls work on bytes.
    - A Go [int] is a [Z] kept in the 64-bit range by [wrap64] wherever
      the source does arithmetic on it.
    - [interface{}] is the tagged union [Value]; [nil] is [VNil].  A key
      of a Go map bound to [nil] is present ([Some VNil]); an unbound key
      is [None].
    - A [float64] or [float32] is a [spec_float] in canonical form for
      its precision.
    - A run-time panic is the result [Panic]; [OutOfFuel] only marks the
      end of the recursion budget of a loop and is shown unreachable
      where a result is claimed.
    - Closures ([FieldFunc], the pixel accessors) are records of the
      variables they capture, together with a function that calls them. *)

From Stdlib Require Import ZArith List String Ascii Bool Lia.
From Stdlib Require Import DecimalString DecimalZ.
From Stdlib Require Import Floats.SpecFloat.
From stdpp Require Import base option list gmap strings.

#[local] Open Scope Z_scope.

(** ** Results of code that may panic *)

Inductive Res (A : Type) : Type :=
| Ok (a : A)
| Panic (msg : string)
| OutOfFuel.
Arguments Ok {A} a.
Arguments Panic {A} msg.
Arguments OutOfFuel {A}.

#[global] Instance Res_ret : MRet Res := fun _ a => Ok a.
#[global] Instance Res_bind : MBind Res := fun _ _ k r =>
  match r with
  | Ok a => k a
  | Panic msg => Panic msg
  | OutOfFuel => OutOfFuel
  end.

(** Unfolds the monad of [Res] in the goal and in the hypotheses. *)
Ltac res_unfold := unfold mbind, mret, Res_bind, Res_ret in *; cbn beta iota in *.

(** [error] values: [io.EOF] and the errors built by [fmt.Errorf]. *)
Inductive error : Type :=
| EOF
| Errorf (msg : string).

(** ** Machine integers *)

Definition MaxInt64 : Z := 2 ^ 63 - 1.
Definition MinInt64 : Z := - 2 ^ 63.

(** Two's complement value of the low [w] bits of [z]. *)
Definition to_signed (w : Z) (z : Z) : Z :=
  let m := z mod 2 ^ w in
  if m <? 2 ^ (w - 1) then m else m - 2 ^ w.

Definition wrap64 (z : Z) : Z := to_signed 64 z.

(** ** Bytes and strings *)

Definition byte_val (c : ascii) : Z := Z.of_N (N_of_ascii c).
Definition byte_of (z : Z) : ascii := ascii_of_N (Z.to_N (z mod 256)).

Definition bytes (s : string) : list ascii := list_ascii_of_string s.
Definition str (l : list ascii) : string := string_of_list_ascii l.

Definition len (s : string) : Z := Z.of_nat (String.length s).

(** [s[a:b]] on bytes, for [0 <= a <= b <= len]. *)
Definition slice {A} (l : list A) (a b : nat) : list A := take (b - a) (drop a l).

(** The white space that [fmt.Sscanf] skips, in the ASCII range. *)
Definition isSpace (c : ascii) : bool :=
  let n := byte_val c in (n =? 32) || ((9 <=? n) && (n <=? 13)).

Fixpoint trimLeft (f : ascii -> bool) (l : list ascii) : list ascii :=
  match l with
  | [] => []
  | c :: l' => if f c then trimLeft f l' else l
  end.

Definition trimRight (f : ascii -> bool) (l : list ascii) : list ascii :=
  rev (trimLeft f (rev l)).

(** [strings.TrimRight(s, " ")]: the cutset is one ASCII byte, and the
    bytes equal to it are cut. *)
Definition TrimRight_space (s : string) : string :=
  str (trimRight (fun c => Ascii.eqb c " ") (bytes s)).

(** ** UTF-8

    The source reads a string as runes in two places: the loop
    [for _, char := range s] of [processString], and [strings.TrimSpace].
    [DecodeRune] is [utf8.DecodeRuneInString], which is also what [range]
    yields at each position: the rune and the number of bytes it takes;
    a byte that starts no well-formed sequence is read as [RuneError],
    one byte wide.  A rune is a [Z]. *)

Definition RuneError : Z := 0xFFFD.

(** [s[i]], for [i] below the length. *)
Definition byte_at (s : list ascii) (i : nat) : Z := byte_val (nth i s zero).

(** The table [first] of package [utf8] for a byte that starts a
    sequence of two bytes or more: the size of the sequence and the
    bounds accepted for its second byte. *)
Definition first (s0 : Z) : option (nat * Z * Z) :=
  if (0xC2 <=? s0) && (s0 <=? 0xDF) then Some (2%nat, 0x80, 0xBF)
  else if s0 =? 0xE0 then Some (3%nat, 0xA0, 0xBF)
  else if s0 =? 0xED then Some (3%nat, 0x80, 0x9F)
  else if (0xE1 <=? s0) && (s0 <=? 0xEF) then Some (3%nat, 0x80, 0xBF)
  else if s0 =? 0xF0 then Some (4%nat, 0x90, 0xBF)
  else if (0xF1 <=? s0) && (s0 <=? 0xF3) then Some (4%nat, 0x80, 0xBF)
  else if s0 =? 0xF4 then Some (4%nat, 0x80, 0x8F)
  else None.

(** A continuation byte: from [locb] to [hicb]. *)
Definition continuation (c : Z) : bool := (0x80 <=? c) && (c <=? 0xBF).

Definition DecodeRune (s : list ascii) : Z * nat :=
  match s with
  | [] => (RuneError, 0%nat)
  | _ =>
      let s0 := byte_at s 0 in
      match first s0 with
      | None => (if s0 <? 0x80 then s0 else RuneError, 1%nat)
      | Some (sz, lo, hi) =>
          let s1 := byte_at s 1 in
          let s2 := byte_at s 2 in
          let s3 := byte_at s 3 in
          if (length s <? sz)%nat then (RuneError, 1%nat)
          else if (s1 <? lo) || (hi <? s1) then (RuneError, 1%nat)
          else if (sz <=? 2)%nat then
            (Z.lor (Z.shiftl (Z.land s0 0x1F) 6) (Z.land s1 0x3F), 2%nat)
          else if negb (continuation s2) then (RuneError, 1%nat)
          else if (sz <=? 3)%nat then
            (Z.lor (Z.lor (Z.shiftl (Z.land s0 0x0F) 12) (Z.shiftl (Z.land s1 0x3F) 6))
                   (Z.land s2 0x3F), 3%nat)
          else if negb (continuation s3) then (RuneError, 1%nat)
          else
            (Z.lor (Z.lor (Z.lor (Z.shiftl (Z.land s0 0x07) 18)
                                 (Z.shiftl (Z.land s1 0x3F) 12))
                          (Z.shiftl (Z.land s2 0x3F) 6))
                   (Z.land s3 0x3F), 4%nat)
      end
  end.

(** [utf8.RuneStart]: the byte is not a continuation byte. *)
Definition RuneStart (c : Z) : bool := negb (Z.land c 0xC0 =? 0x80).

(** The loop [for start--; start >= lim; start--] of
    [utf8.DecodeLastRuneInString], which stops on a byte that may start
    a rune; it has [n] turns left. *)
Fixpoint lastStart (s : list ascii) (lim : Z) (n : nat) (start : Z) : Z :=
  match n with
  | O => start
  | S n' =>
      if start <? lim then start
      else if RuneStart (byte_at s (Z.to_nat start)) then start
      else lastStart s lim n' (start - 1)
  end.

(** [utf8.DecodeLastRuneInString]: the last rune and its width. *)
Definition DecodeLastRune (s : list ascii) : Z * nat :=
  let end_ := Z.of_nat (length s) in
  if end_ =? 0 then (RuneError, 0%nat)
  else
    let start := end_ - 1 in
    let r := byte_at s (Z.to_nat start) in
    if r <? 0x80 then (r, 1%nat)
    else
      let lim := Z.max 0 (end_ - 4) in
      let start := lastStart s lim 4 (start - 1) in
      let start := Z.max 0 start in
      let '(r, size) := DecodeRune (drop (Z.to_nat start) s) in
      if start + Z.of_nat size =? end_ then (r, size) else (RuneError, 1%nat).

(** [utf8.AppendRune], as [bytes.Buffer.WriteRune] uses it. *)
Definition EncodeRune (r : Z) : list ascii :=
  if r <? 0x80 then [byte_of r]
  else if r <=? 0x7FF then
    [byte_of (Z.lor 0xC0 (Z.shiftr r 6)); byte_of (Z.lor 0x80 (Z.land r 0x3F))]
  else
    let r := if (0x10FFFF <? r) || ((0xD800 <=? r) && (r <=? 0xDFFF)) then RuneError
             else r in
    if r <=? 0xFFFF then
      [byte_of (Z.lor 0xE0 (Z.shiftr r 12));
       byte_of (Z.lor 0x80 (Z.land (Z.shiftr r 6) 0x3F));
       byte_of (Z.lor 0x80 (Z.land r 0x3F))]
    else
      [byte_of (Z.lor 0xF0 (Z.shiftr r 18));
       byte_of (Z.lor 0x80 (Z.land (Z.shiftr r 12) 0x3F));
       byte_of (Z.lor 0x80 (Z.land (Z.shiftr r 6) 0x3F));
       byte_of (Z.lor 0x80 (Z.land r 0x3F))].

(** [unicode.IsSpace]. *)
Definition IsSpace (r : Z) : bool :=
  ((9 <=? r) && (r <=? 13)) || (r =? 0x20) || (r =? 0x85) || (r =? 0xA0)
  || (r =? 0x1680) || ((0x2000 <=? r) && (r <=? 0x200A))
  || (r =? 0x2028) || (r =? 0x2029) || (r =? 0x202F) || (r =? 0x205F) || (r =? 0x3000).

(** [strings.TrimLeftFunc(s, f)]: the string from its first rune that
    does not satisfy [f]; [skip] counts the bytes left of a rune that
    was already read. *)
Fixpoint TrimLeftFunc (f : Z -> bool) (skip : nat) (s : list ascii) : list ascii :=
  match s with
  | [] => []
  | _ :: s' =>
      match skip with
      | S k => TrimLeftFunc f k s'
      | O => let '(r, w) := DecodeRune s in
             if f r then TrimLeftFunc f (w - 1) s' else s
      end
  end.

(** [lastIndexFunc(s, f, false)] of package [strings], from the index
    [i] down: where the last rune that does not satisfy [f] starts,
    [None] for -1. *)
Fixpoint lastIndexFunc (f : Z -> bool) (fuel : nat) (s : list ascii) (i : nat)
  : option nat :=
  match fuel with
  | O => None
  | S fuel' =>
      if (0 <? i)%nat then
        let '(r, size) := DecodeLastRune (take i s) in
        let i' := (i - size)%nat in
        if f r then lastIndexFunc f fuel' s i' else Some i'
      else None
  end.

(** [strings.TrimRightFunc(s, f)]. *)
Definition TrimRightFunc (f : Z -> bool) (s : list ascii) : list ascii :=
  match lastIndexFunc f (length s) s (length s) with
  | Some i =>
      if 0x80 <=? byte_at s i then take (i + (DecodeRune (drop i s)).2) s
      else take (i + 1) s
  | None => []
  end.

(** [strings.TrimSpace(s)]: [TrimFunc(s, unicode.IsSpace)]. *)
Definition TrimSpace (s : string) : string :=
  str (TrimRightFunc IsSpace (TrimLeftFunc IsSpace 0 (bytes s))).

(** [strings.Index(s, c)] for a one-byte [c], and [strings.IndexAny]:
    the first position, [None] for -1. *)
Fixpoint indexWhere (f : ascii -> bool) (l : list ascii) : option nat :=
  match l with
  | [] => None
  | c :: l' => if f c then Some O else S <$> indexWhere f l'
  end.

Definition memb (c : ascii) (cs : string) : bool :=
  existsb (Ascii.eqb c) (bytes cs).

Definition Index_byte (s : string) (c : ascii) : option nat :=
  indexWhere (Ascii.eqb c) (bytes s).

Definition IndexAny (s chars : string) : option nat :=
  indexWhere (fun c => memb c chars) (bytes s).

Definition ContainsAny (s chars : string) : bool :=
  match IndexAny s chars with Some _ => true | None => false end.

(** [strings.Replace(s, "D", "E", 1)]. *)
Fixpoint replaceFirst (old new : ascii) (l : list ascii) : list ascii :=
  match l with
  | [] => []
  | c :: l' => if Ascii.eqb c old then new :: l' else c :: replaceFirst old new l'
  end.

Definition Replace_D_E (s : string) : string := str (replaceFirst "D" "E" (bytes s)).

(** ** [strconv.ParseInt(s, 10, bitSize)], with the error dropped

    Every caller writes [x, _ := strconv.ParseInt(...)], so only the value
    is modelled: 0 on a syntax error, the nearest bound on a range error. *)

Definition isDigit (c : ascii) : bool :=
  let n := byte_val c in (48 <=? n) && (n <=? 57).

(** [ParseUint]: [None] is the syntax error; on overflow the scan stops
    at once with [maxVal]. *)
Fixpoint parseUint (maxVal : Z) (l : list ascii) (n : Z) : option Z :=
  match l with
  | [] => Some n
  | c :: l' =>
      if isDigit c then
        let n1 := n * 10 + (byte_val c - 48) in
        if maxVal <? n1 then Some maxVal else parseUint maxVal l' n1
      else None
  end.

Definition ParseUint (l : list ascii) (bitSize : Z) : option Z :=
  match l with
  | [] => None
  | _ => parseUint (2 ^ bitSize - 1) l 0
  end.

(** The value and whether an error came with it. *)
Definition ParseInt_err (s : string) (bitSize : Z) : Z * bool :=
  match bytes s with
  | [] => (0, true)
  | c :: l' =>
      let neg := Ascii.eqb c "-" in
      let digits := if Ascii.eqb c "+" || neg then l' else c :: l' in
      match ParseUint digits bitSize with
      | None => (0, true)
      | Some un =>
          let cutoff := 2 ^ (bitSize - 1) in
          if negb neg && (cutoff <=? un) then (cutoff - 1, true)
          else if neg && (cutoff <? un) then (- cutoff, true)
          else (if neg then - un else un, false)
      end
  end.

Definition ParseInt (s : string) (bitSize : Z) : Z := fst (ParseInt_err s bitSize).

(** ** [Nth]: [fmt.Sprintf("%s%d", prefix, n)] *)

Definition itoa (n : Z) : string := NilZero.string_of_int (Z.to_int n).

Definition Nth (prefix : string) (n : Z) : string := prefix +:+ itoa n.

(** ** Floating-point values *)

Definition float64 : Type := spec_float.
Definition float32 : Type := spec_float.

(** [math.Float64frombits] and [math.Float32frombits]. *)
Definition frombits (mant_bits exp_bits : Z) (x : Z) : spec_float :=
  let s := Z.testbit x (mant_bits + exp_bits) in
  let e := Z.land (Z.shiftr x mant_bits) (2 ^ exp_bits - 1) in
  let m := Z.land x (2 ^ mant_bits - 1) in
  let bias := 2 ^ (exp_bits - 1) - 1 in
  if e =? 0 then
    match m with
    | Zpos p => S754_finite s p (1 - bias - mant_bits)
    | _ => S754_zero s
    end
  else if e =? 2 ^ exp_bits - 1 then
    if m =? 0 then S754_infinity s else S754_nan
  else
    match m + 2 ^ mant_bits with
    | Zpos p => S754_finite s p (e - bias - mant_bits)
    | _ => S754_nan
    end.

Definition Float64frombits : Z -> float64 := frombits 52 11.
Definition Float32frombits : Z -> float32 := frombits 23 8.

(** The conversions [float64(x)] of an integer and of a [float32]. *)
Definition float64_of_int (z : Z) : float64 := binary_normalize 53 1024 z 0 false.

Definition float64_of_float32 (x : float32) : float64 :=
  match x with
  | S754_finite s m e => binary_normalize 53 1024 (if s then Zneg m else Zpos m) e s
  | _ => x
  end.

(** [int64(x)] of a float: truncation toward zero; outside the range of
    [int64] Go leaves the result to the implementation, and the value
    here is the one of amd64. *)
Definition int64_of_float (x : spec_float) : Z :=
  match x with
  | S754_zero _ => 0
  | S754_finite s m e =>
      let a := if 0 <=? e then Zpos m * 2 ^ e else Zpos m / 2 ^ (- e) in
      let v := if s then - a else a in
      if (MinInt64 <=? v) && (v <=? MaxInt64) then v else MinInt64
  | _ => MinInt64
  end.

Definition IsNaN (x : spec_float) : bool :=
  match x with S754_nan => true | _ => false end.

Definition float_zero : float64 := S754_zero false.
Definition MaxFloat64 : float64 := S754_finite false (2 ^ 53 - 1) 971.
Definition neg_MaxFloat64 : float64 := S754_finite true (2 ^ 53 - 1) 971.

(** ** Dynamic values: Go's [interface{}] *)

Inductive Value : Type :=
| VNil
| VInt (n : Z)
| VFloat64 (x : float64)
| VBool (b : bool)
| VString (s : string)
| VComplex128 (re im : float64)
| VUint8 (n : Z)
| VInt16 (n : Z)
| VInt32 (n : Z)
| VInt64 (n : Z)
| VFloat32 (x : float32)
| VComplex64 (re im : float32)
| VUint8s (l : list Z)
| VBools (l : list bool)
| VInt16s (l : list Z)
| VInt32s (l : list Z)
| VInt64s (l : list Z)
| VFloat32s (l : list float32)
| VFloat64s (l : list float64)
| VComplex64s (l : list (float32 * float32))
| VComplex128s (l : list (float64 * float64)).

(** ** The block reader *)

(** [reader] is the underlying [io.Reader]: the bytes it has not yet
    delivered; [None] is the nil interface of the readers that the table
    accessors build over the table's bytes. *)
Record Reader : Type := mkReader {
  buf : list ascii;
  elem : list ascii;
  left : Z;
  right : Z;
  reader : option (list ascii);
  eof : bool
}.

Definition zeros (n : nat) : list ascii := replicate n zero.

Definition NewReader (src : list ascii) : Reader :=
  {| buf := zeros 2880; elem := zeros 8; left := 0; right := 0;
     reader := Some src; eof := false |}.

(** [io.Reader.Read(p)] of a source that holds [src]: as a file or a
    [bytes.Reader] does, it fills [p] as far as the source goes and
    returns [io.EOF] with no bytes once the source is empty.  The result
    is the rest of the source, the new content of [p], the count and the
    error. *)
Definition src_Read (src p : list ascii) : list ascii * list ascii * Z * option error :=
  match src with
  | [] => (src, p, 0, Some EOF)
  | _ =>
      let k := Nat.min (length p) (length src) in
      (drop k src, take k src ++ drop k p, Z.of_nat k, None)
  end.

Definition set_left (b : Reader) (l : Z) : Reader :=
  {| buf := buf b; elem := elem b; left := l; right := right b;
     reader := reader b; eof := eof b |}.

Definition set_elem (b : Reader) (e : list ascii) : Reader :=
  {| buf := buf b; elem := e; left := left b; right := right b;
     reader := reader b; eof := eof b |}.

(** One turn of the loop of [Reader.Read]: [p] is the destination and
    [n] the bytes already stored in it. *)
Fixpoint Read_loop (fuel : nat) (b : Reader) (p : list ascii) (n : nat)
  : Res (Reader * list ascii) :=
  if (left b <? 0) || (right b <? left b) || (Z.of_nat (length (buf b)) <? right b)
  then Panic "slice bounds out of range"
  else
    let avail := slice (buf b) (Z.to_nat (left b)) (Z.to_nat (right b)) in
    let k := Nat.min (length p - n) (length avail) in
    let p1 := take n p ++ take k avail ++ drop (n + k) p in
    let b1 := set_left b (left b + Z.of_nat k) in
    if (n + k =? length p)%nat then Ok (b1, p1)
    else
      match reader b1 with
      | None => Panic "nil pointer dereference"
      | Some src =>
          let '(src', buf', r, err) := src_Read src (buf b1) in
          match err with
          | Some _ =>
              (* io.EOF is the only error of this source *)
              Ok ({| buf := buf'; elem := elem b1; left := 0; right := r;
                     reader := Some src'; eof := true |}, p1)
          | None =>
              match fuel with
              | O => OutOfFuel
              | S fuel' =>
                  Read_loop fuel'
                    {| buf := buf'; elem := elem b1; left := 0; right := r;
                       reader := Some src'; eof := eof b1 |} p1 (n + k)
              end
          end
      end.

Definition remaining (b : Reader) : nat :=
  match reader b with Some src => length src | None => O end.

Definition Read (b : Reader) (p : list ascii) : Res (Reader * list ascii) :=
  Read_loop (remaining b) b p 0.

Definition IsEOF (b : Reader) : bool := eof b.

(** [NextPage] returns [b.buf] and the error of the underlying read. *)
Definition NextPage (b : Reader) : Res (Reader * list ascii * option error) :=
  match reader b with
  | None => Panic "nil pointer dereference"
  | Some src =>
      let '(src', buf', r, err) := src_Read src (buf b) in
      Ok ({| buf := buf'; elem := elem b; left := r; right := r;
             reader := Some src'; eof := eof b |}, buf', err)
  end.

(** [b.Read(b.elem[0:n])]: the first [n] bytes of [elem] after the read. *)
Definition ReadElem (b : Reader) (n : nat) : Res (Reader * list ascii) :=
  '(b1, p) ← Read b (take n (elem b));
  mret (set_elem b1 (p ++ drop n (elem b1)), p).

(** The big-endian value of a sequence of bytes. *)
Definition be_uint (l : list ascii) : Z :=
  fold_left (fun acc x => acc * 256 + byte_val x) l 0.

Definition ReadByte (b : Reader) : Res (Reader * ascii) :=
  '(b1, p) ← ReadElem b 1; mret (b1, byte_of (be_uint p)).

Definition ReadBool (b : Reader) : Res (Reader * bool) :=
  '(b1, p) ← ReadElem b 1; mret (b1, negb (be_uint p =? 0)).

Definition ReadString (b : Reader) (n : Z) : Res (Reader * string) :=
  if n <? 0 then Panic "makeslice: len out of range"
  else '(b1, p) ← Read b (zeros (Z.to_nat n)); mret (b1, str p).

Definition ReadInt16 (b : Reader) : Res (Reader * Z) :=
  '(b1, p) ← ReadElem b 2; mret (b1, to_signed 16 (be_uint p)).

Definition ReadInt32 (b : Reader) : Res (Reader * Z) :=
  '(b1, p) ← ReadElem b 4; mret (b1, to_signed 32 (be_uint p)).

Definition ReadInt64 (b : Reader) : Res (Reader * Z) :=
  '(b1, p) ← ReadElem b 8; mret (b1, to_signed 64 (be_uint p)).

Definition ReadFloat32 (b : Reader) : Res (Reader * float32) :=
  '(b1, p) ← ReadElem b 4; mret (b1, Float32frombits (be_uint p)).

Definition ReadFloat64 (b : Reader) : Res (Reader * float64) :=
  '(b1, p) ← ReadElem b 8; mret (b1, Float64frombits (be_uint p)).

(** A loop [for i := 0; i < n; i++ { p[i] = read() }]. *)
Fixpoint read_n {T} (rd : Reader -> Res (Reader * T)) (n : nat) (b : Reader)
  : Res (Reader * list T) :=
  match n with
  | O => Ok (b, [])
  | S n' =>
      '(b1, x) ← rd b;
      '(b2, xs) ← read_n rd n' b1;
      mret (b2, x :: xs)
  end.

(** ** The Unit (HDU) *)

(** [Unit.Data]: nil before a loader ran, and afterwards a slice whose
    element type follows BITPIX ([[]byte] for tables). *)
Inductive DataBuf : Type :=
| DNil
| DInt (l : list Z)
| DByte (l : list ascii)
| DInt16 (l : list Z)
| DInt32 (l : list Z)
| DInt64 (l : list Z)
| DFloat32 (l : list float32)
| DFloat64 (l : list float64).

(** A [FieldFunc].  [accessorBin] and [accessorText] return a closure
    over the code, the repeat count and the column offset [c] read from
    [*col] when the closure was built; [FnNull] is the closure that
    [Field] returns for an unknown column and [FnNil] the nil function
    value. *)
Inductive FieldFunc : Type :=
| FnNil
| FnNull
| FnBin (code : ascii) (repeat : Z) (c : Z)
| FnText (code : ascii) (repeat : Z) (c : Z).

(** The pixel accessors that [loadData] binds, always together: none
    ([At], [IntAt] and [FloatAt] are nil), those of an empty [Naxis]
    ([IntAt] and [FloatAt] return 0 and [At] stays nil), or the three
    closures over the data buffer. *)
Inductive PixFn : Type := PixNil | PixZero | PixData.

(** The closure bound to [Unit.Blank]. *)
Inductive BlankFn : Type := BlankNil | BlankEq | BlankNaN | BlankFalse.

Record Unit : Type := mkUnit {
  Keys : gmap string Value;
  Naxis : list Z;
  Data : DataBuf;
  flist : list FieldFunc;
  fields : gmap string FieldFunc;
  class : string;
  blank : Z;
  pix : PixFn;
  pBlank : BlankFn
}.

(** [&Unit{Keys: Keys}]: every other field has its zero value. *)
Definition newUnit (K : gmap string Value) : Unit :=
  {| Keys := K; Naxis := []; Data := DNil; flist := []; fields := ∅;
     class := ""; blank := 0;
     pix := PixNil; pBlank := BlankNil |}.

Definition set_Keys (h : Unit) (K : gmap string Value) : Unit :=
  {| Keys := K; Naxis := Naxis h; Data := Data h; flist := flist h;
     fields := fields h; class := class h; blank := blank h;
     pix := pix h; pBlank := pBlank h |}.

Definition set_Naxis (h : Unit) (n : list Z) : Unit :=
  {| Keys := Keys h; Naxis := n; Data := Data h; flist := flist h;
     fields := fields h; class := class h; blank := blank h;
     pix := pix h; pBlank := pBlank h |}.

Definition set_class (h : Unit) (c : string) : Unit :=
  {| Keys := Keys h; Naxis := Naxis h; Data := Data h; flist := flist h;
     fields := fields h; class := c; blank := blank h;
     pix := pix h; pBlank := pBlank h |}.

(** The assignments of [loadData] to [Data] and the three accessors. *)
Definition set_pixels (h : Unit) (d : DataBuf) (f : PixFn) : Unit :=
  {| Keys := Keys h; Naxis := Naxis h; Data := d; flist := flist h;
     fields := fields h; class := class h; blank := blank h;
     pix := f; pBlank := pBlank h |}.

Definition set_blank (h : Unit) (bl : Z) (f : BlankFn) : Unit :=
  {| Keys := Keys h; Naxis := Naxis h; Data := Data h; flist := flist h;
     fields := fields h; class := class h; blank := bl;
     pix := pix h; pBlank := f |}.

(** The state of the field loop of [loadTable]. *)
Definition set_table (h : Unit) (d : DataBuf) (l : list FieldFunc)
    (f : gmap string FieldFunc) (K : gmap string Value) : Unit :=
  {| Keys := K; Naxis := Naxis h; Data := d; flist := l;
     fields := f; class := class h; blank := blank h;
     pix := pix h; pBlank := pBlank h |}.

(** [x.(int)] and [x.(string)] in their one-result form, which panics. *)
Definition assert_int (v : option Value) : Res Z :=
  match v with
  | Some (VInt n) => Ok n
  | _ => Panic "interface conversion: interface {} is not int"
  end.

Definition assert_string (v : option Value) : Res string :=
  match v with
  | Some (VString s) => Ok s
  | _ => Panic "interface conversion: interface {} is not string"
  end.

(** ** [processString]: the quoted-string scanner *)

(** The loop [for _, char := range s]: [skip] counts the bytes left of
    a rune that was already read, and [buf.WriteRune] appends the
    encoding of the rune. *)
Fixpoint scanString (state : nat) (buf : list ascii) (skip : nat) (s : list ascii)
  : string * option error :=
  match s with
  | [] => (""%string, Some (Errorf "String ends prematurely"))
  | _ :: s' =>
      match skip with
      | S k => scanString state buf k s'
      | O =>
          let '(char, w) := DecodeRune s in
          let quote := char =? 39 in
          match state with
          | 0%nat =>
              if negb quote then (""%string, Some (Errorf "String does not start with a quote"))
              else scanString 1 buf (w - 1) s'
          | 1%nat =>
              if quote then scanString 2 buf (w - 1) s'
              else scanString 1 (buf ++ EncodeRune char) (w - 1) s'
          | 2%nat =>
              if quote then scanString 1 (buf ++ EncodeRune char) (w - 1) s'
              else (TrimRight_space (str buf), None)
          | _ => scanString state buf (w - 1) s'
          end
      end
  end.

Definition processString (s : string) : string * option error :=
  scanString 0 [] 0 (bytes s).

(** ** [index] and the pixel accessors *)

(** The loop [for i := len(h.Naxis) - 1; i >= 0; i--] of [index], with
    [i] iterations left to run. *)
Fixpoint index_loop (naxis a : list Z) (i : nat) (idx : Z) : Res Z :=
  match i with
  | O => Ok idx
  | S i' =>
      match naxis !! i', a !! i' with
      | Some n, Some c => index_loop naxis a i' (wrap64 (wrap64 (idx * n) + c))
      | _, _ => Panic "index out of range"
      end
  end.

Definition index (h : Unit) (a : list Z) : Res Z :=
  index_loop (Naxis h) a (length (Naxis h)) 0.

(** [data[i]]. *)
Definition elem_at {A} (l : list A) (i : Z) : Res A :=
  if i <? 0 then Panic "index out of range"
  else match l !! Z.to_nat i with
       | Some x => Ok x
       | None => Panic "index out of range"
       end.

Definition At (h : Unit) (a : list Z) : Res Value :=
  match pix h with
  | PixData =>
      i ← index h a;
      match Data h with
      | DByte d => x ← elem_at d i; mret (VUint8 (byte_val x))
      | DInt16 d => x ← elem_at d i; mret (VInt16 x)
      | DInt32 d => x ← elem_at d i; mret (VInt32 x)
      | DInt64 d => x ← elem_at d i; mret (VInt64 x)
      | DFloat32 d => x ← elem_at d i; mret (VFloat32 x)
      | DFloat64 d => x ← elem_at d i; mret (VFloat64 x)
      | _ => Panic "no pixel buffer"
      end
  | _ => Panic "nil pointer dereference"
  end.

Definition IntAt (h : Unit) (a : list Z) : Res Z :=
  match pix h with
  | PixNil => Panic "nil pointer dereference"
  | PixZero => Ok 0
  | PixData =>
      i ← index h a;
      match Data h with
      | DByte d => x ← elem_at d i; mret (byte_val x)
      | DInt16 d | DInt32 d | DInt64 d => elem_at d i
      | DFloat32 d | DFloat64 d => x ← elem_at d i; mret (int64_of_float x)
      | _ => Panic "no pixel buffer"
      end
  end.

Definition FloatAt (h : Unit) (a : list Z) : Res float64 :=
  match pix h with
  | PixNil => Panic "nil pointer dereference"
  | PixZero => Ok float_zero
  | PixData =>
      i ← index h a;
      match Data h with
      | DByte d => x ← elem_at d i; mret (float64_of_int (byte_val x))
      | DInt16 d | DInt32 d | DInt64 d => x ← elem_at d i; mret (float64_of_int x)
      | DFloat32 d => x ← elem_at d i; mret (float64_of_float32 x)
      | DFloat64 d => elem_at d i
      | _ => Panic "no pixel buffer"
      end
  end.

Definition Blank (h : Unit) (a : list Z) : Res bool :=
  match pBlank h with
  | BlankNil => Panic "nil pointer dereference"
  | BlankEq => x ← IntAt h a; mret (x =? blank h)
  | BlankNaN => x ← FloatAt h a; mret (IsNaN x)
  | BlankFalse => Ok false
  end.

(** ** [loadData] *)

(** [prod := 1; for _, x := range h.Naxis { prod *= x }]. *)
Definition prodNaxis (naxis : list Z) : Z :=
  fold_left (fun p x => wrap64 (p * x)) naxis 1.

(** [make([]T, prod)] followed by the loop that fills it. *)
Definition read_pixels {T} (rd : Reader -> Res (Reader * T)) (prod : Z) (b : Reader)
  : Res (Reader * list T) :=
  if prod <? 0 then Panic "makeslice: len out of range"
  else read_n rd (Z.to_nat prod) b.

Definition loadData (h : Unit) (b : Reader) : Res (Unit * Reader * option error) :=
  match Naxis h with
  | [] => Ok (set_pixels h (DInt []) PixZero, b, None)
  | _ =>
      let prod := prodNaxis (Naxis h) in
      bitpix ← assert_int (Keys h !! "BITPIX"%string);
      '(h1, b1) ←
        match bitpix with
        | 8 => '(b1, d) ← read_pixels ReadByte prod b;
               mret (set_pixels h (DByte d) PixData, b1)
        | 16 => '(b1, d) ← read_pixels ReadInt16 prod b;
                mret (set_pixels h (DInt16 d) PixData, b1)
        | 32 => '(b1, d) ← read_pixels ReadInt32 prod b;
                mret (set_pixels h (DInt32 d) PixData, b1)
        | 64 => '(b1, d) ← read_pixels ReadInt64 prod b;
                mret (set_pixels h (DInt64 d) PixData, b1)
        | -32 => '(b1, d) ← read_pixels ReadFloat32 prod b;
                 mret (set_pixels h (DFloat32 d) PixData, b1)
        | -64 => '(b1, d) ← read_pixels ReadFloat64 prod b;
                 mret (set_pixels h (DFloat64 d) PixData, b1)
        | _ => mret (h, b)
        end;
      let blank_key := Keys h1 !! "BLANK"%string in
      if bool_decide (is_Some blank_key) && (0 <? bitpix) then
        (* Integer pixel type with defined BLANK *)
        bl ← assert_int blank_key;
        mret (set_blank h1 bl BlankEq, b1, None)
      else if bitpix <? 0 then
        (* Float pixel type *)
        mret (set_blank h1 (blank h1) BlankNaN, b1, None)
      else
        (* Integer pixel type with undefined BLANK *)
        mret (set_blank h1 (blank h1) BlankFalse, b1, None)
  end.

(** ** [Stats] *)

Definition Bitpix (h : Unit) : Res Z := assert_int (Keys h !! "BITPIX"%string).

(** The body of the loops over integral pixels: [x] is [int(data[i])]. *)
Definition stats_int (bl : Z) (mm : float64 * float64) (x : Z) : float64 * float64 :=
  let '(min, max) := mm in
  let fx := float64_of_int x in
  let min1 := if negb (x =? bl) && SFltb fx min then fx else min in
  let max1 := if negb (x =? bl) && SFltb max fx then fx else max in
  (min1, max1).

(** The body of the loops over floating pixels: [x] is the element as a
    [float64]. *)
Definition stats_float (mm : float64 * float64) (x : float64) : float64 * float64 :=
  let '(min, max) := mm in
  let min1 := if negb (IsNaN x) && SFltb x min then x else min in
  let max1 := if negb (IsNaN x) && SFltb max x then x else max in
  (min1, max1).

(** [for i := 0; i < prod; i++] over [data]: the index panics when the
    buffer is shorter than [prod]. *)
Definition for_prod {T} (prod : Z) (data : list T)
    (step : float64 * float64 -> T -> float64 * float64) : Res (float64 * float64) :=
  if Z.of_nat (length data) <? prod then Panic "index out of range"
  else Ok (fold_left step (take (Z.to_nat prod) data) (MaxFloat64, neg_MaxFloat64)).

Definition Stats (h : Unit) : Res (float64 * float64) :=
  let prod := prodNaxis (Naxis h) in
  if prod =? 1 then Ok (float_zero, float_zero)
  else
    bitpix ← Bitpix h;
    match bitpix, Data h with
    | 8, DByte d => for_prod prod d (fun mm x => stats_int (blank h) mm (byte_val x))
    | 16, DInt16 d => for_prod prod d (stats_int (blank h))
    | 32, DInt32 d => for_prod prod d (stats_int (blank h))
    | 64, DInt64 d => for_prod prod d (stats_int (blank h))
    | -32, DFloat32 d => for_prod prod d (fun mm x => stats_float mm (float64_of_float32 x))
    | -64, DFloat64 d => for_prod prod d stats_float
    | 8, _ | 16, _ | 32, _ | 64, _ | -32, _ | -64, _ =>
        (* the type assertion is in the body of the loop *)
        if 0 <? prod then Panic "interface conversion: Data has another type"
        else Ok (MaxFloat64, neg_MaxFloat64)
    | _, _ => Ok (MaxFloat64, neg_MaxFloat64)
    end.

(** ** Mandatory keywords *)

Definition is_int (v : option Value) : bool :=
  match v with Some (VInt _) => true | _ => false end.

Definition valid_bitpix (n : Z) : bool :=
  (n =? 8) || (n =? 16) || (n =? 32) || (n =? 64) || (n =? -32) || (n =? -64).

(** [for i := 1; i <= n; i++] over the keys NAXISi, run for [count]
    more turns from [i]: the first key that is not an integer. *)
Fixpoint missing_naxis (K : gmap string Value) (i : Z) (count : nat) : option string :=
  match count with
  | O => None
  | S count' =>
      let s := Nth "NAXIS" i in
      if is_int (K !! s) then missing_naxis K (i + 1) count' else Some s
  end.

Definition verifyPrimary (h : Unit) : option error :=
  match Keys h !! "SIMPLE"%string with
  | None => Some (Errorf "No SIMPLE in the primary header")
  | Some _ =>
      match Keys h !! "BITPIX"%string with
      | Some (VInt n) =>
          if negb (valid_bitpix n) then Some (Errorf "Invalid BITPIX value")
          else
            match Keys h !! "NAXIS"%string with
            | Some (VInt n) =>
                match missing_naxis (Keys h) 1 (Z.to_nat n) with
                | Some s => Some (Errorf ("No " +:+ s +:+ " in the primary header"))
                | None => None
                end
            | _ => Some (Errorf "No NAXIS in the primary header")
            end
      | _ => Some (Errorf "No BITPIX in the primary header")
      end
  end.

Definition verifyExtension (h : Unit) : option error :=
  match Keys h !! "XTENSION"%string with
  | Some (VString xten) =>
      match Keys h !! "BITPIX"%string with
      | Some (VInt n) =>
          if negb (valid_bitpix n) then Some (Errorf "Invalid BITPIX value")
          else
            match Keys h !! "NAXIS"%string with
            | Some (VInt naxis) =>
                match missing_naxis (Keys h) 1 (Z.to_nat naxis) with
                | Some s => Some (Errorf ("No " +:+ s +:+ " in the extended header"))
                | None =>
                    match Keys h !! "PCOUNT"%string with
                    | Some (VInt pcount) =>
                        if negb (is_int (Keys h !! "GCOUNT"%string))
                        then Some (Errorf "No GCOUNT in the extended header")
                        else if String.eqb xten "IMAGE" then
                          if negb (pcount =? 0)
                          then Some (Errorf "PCOUNT should be 0 in IMAGE header")
                          else None
                        else if String.eqb xten "TABLE" || String.eqb xten "BINTABLE" then
                          if negb (n =? 8)
                          then Some (Errorf "BITPIX should be 8 in TABLE/BINTABLE headers")
                          else if negb (naxis =? 2)
                          then Some (Errorf "NAXIS should be 2 in TABLE/BINTABLE headers")
                          else None
                        else None
                    | _ => Some (Errorf "No PCOUNT in the extended header")
                    end
                end
            | _ => Some (Errorf "No NAXIS in the extended header")
            end
      | _ => Some (Errorf "No BITPIX in the extended header")
      end
  | _ => Some (Errorf "No XTENSION in the extended header")
  end.

(** ** Table fields *)

(** The reader that [accessorBin] and [accessorText] build over the
    table's bytes: [b.buf = h.Data.([]byte)], [b.right = len(b.buf)] and
    no underlying reader. *)
Definition fieldReader (h : Unit) : Res Reader :=
  match Data h with
  | DByte d =>
      Ok {| buf := d; elem := zeros 8; left := 0; right := Z.of_nat (length d);
            reader := None; eof := false |}
  | _ => Panic "interface conversion: Data is not []byte"
  end.

(** The row size in bytes [l] and the default TDISP of a binary form;
    [X], [P] and [Q] panic, and any other code leaves [l = 0] and an
    empty [disp]. *)
Definition binLayout (code : ascii) (repeat : Z) : Res (Z * string) :=
  match code with
  | "A"%char => Ok (1, "A" +:+ itoa repeat)
  | "B"%char => Ok (1, "I3"%string)
  | "L"%char => Ok (1, "B1"%string)
  | "I"%char => Ok (2, "I6"%string)
  | "J"%char => Ok (4, "I11"%string)
  | "K"%char => Ok (8, "I20"%string)
  | "D"%char => Ok (8, "F14.7"%string)
  | "E"%char => Ok (4, "F14.7"%string)
  | "M"%char => Ok (16, "F14.7"%string)
  | "C"%char => Ok (8, "F14.7"%string)
  | "X"%char | "P"%char | "Q"%char =>
      Panic "Binary table forms X, P and Q are not supported"
  | _ => Ok (0, ""%string)
  end.

(** [accessorBin(code, repeat, &col)]: the accessor, the default TDISP
    and the new value of [col]. *)
Definition accessorBin (h : Unit) (code : ascii) (repeat : Z) (col : Z)
  : Res (FieldFunc * string * Z) :=
  _ ← fieldReader h;
  '(l, disp) ← binLayout code repeat;
  mret (FnBin code repeat col, disp, wrap64 (col + wrap64 (l * repeat))).

(** [accessorText(code, repeat, &col)]; [col] is left as it is. *)
Definition accessorText (h : Unit) (code : ascii) (repeat : Z) (col : Z)
  : Res (FieldFunc * string) :=
  let c := wrap64 (col - 1) in
  _ ← fieldReader h;
  match code with
  | "A"%char => Ok (FnText code repeat c, "A" +:+ itoa repeat)
  | "I"%char => Ok (FnText code repeat c, "I" +:+ itoa repeat)
  | "D"%char | "E"%char | "F"%char => Ok (FnText code repeat c, "F14.7"%string)
  | _ => Panic "Unsupported TFORM in an Ascii table"
  end.

(** [p := make([]T, repeat)] filled by [repeat] reads. *)
Definition read_array {T} (rd : Reader -> Res (Reader * T)) (repeat : Z) (b : Reader)
  : Res (list T) :=
  if repeat <? 0 then Panic "makeslice: len out of range"
  else '(_, p) ← read_n rd (Z.to_nat repeat) b; mret p.

Definition read_pair {T} (rd : Reader -> Res (Reader * T)) (b : Reader)
  : Res (Reader * (T * T)) :=
  '(b1, x) ← rd b; '(b2, y) ← rd b1; mret (b2, (x, y)).

(** ** Formatting: the pieces of package [fmt] that [Format] uses *)

(** [%d] of [fmt.Sscanf] into an [int]: blanks are skipped (a newline is
    an error), then an optional sign and a run of the digits
    [0123456789] (the verb [%d] takes no underscore), handed to
    [strconv.ParseInt(tok, 10, 64)].  The result is the number and the
    rest of the input; [None] is a scan error. *)
Definition scan_space (c : ascii) : bool := isSpace c && negb (byte_val c =? 10).

Fixpoint span (f : ascii -> bool) (l : list ascii) : list ascii * list ascii :=
  match l with
  | c :: l' => if f c then let '(a, r) := span f l' in (c :: a, r) else ([], l)
  | [] => ([], [])
  end.

Definition scan_int (l : list ascii) : option (Z * list ascii) :=
  let l1 := trimLeft scan_space l in
  let '(sign, l2) :=
    match l1 with
    | c :: l' => if Ascii.eqb c "+" || Ascii.eqb c "-" then ([c], l') else ([], l1)
    | [] => ([], l1)
    end in
  let '(digits, rest) := span isDigit l2 in
  match digits with
  | [] => None
  | _ =>
      let '(n, err) := ParseInt_err (str (sign ++ digits)) 64 in
      if err then None else Some (n, rest)
  end.

(** [fmt.Sscanf(d, "%c%d.%d", &code, &w, &m)]: the three variables
    afterwards, from their values [code0], [w0] and [m0] before; a
    variable is set only if the scan got that far. *)
Definition Sscanf_cdd (d : string) (code0 : ascii) (w0 m0 : Z) : ascii * Z * Z :=
  match bytes d with
  | [] => (code0, w0, m0)
  | code :: l1 =>
      match scan_int l1 with
      | None => (code, w0, m0)
      | Some (w, l2) =>
          match l2 with
          | "."%char :: l3 =>
              match scan_int l3 with
              | Some (m, _) => (code, w, m)
              | None => (code, w, m0)
              end
          | _ => (code, w, m0)
          end
      end
  end.

(** The format strings that [Format] builds with [fmt.Sprintf]:
    [%%%d.%d] followed by a verb, and [%%%d] followed by a verb. *)
Definition fmt_wd (w m : Z) (verb : string) : string :=
  "%" +:+ itoa w +:+ "." +:+ itoa m +:+ verb.

Definition fmt_w (w : Z) (verb : string) : string := "%" +:+ itoa w +:+ verb.

(** [strconv.FormatFloat(x, 'f', prec, bits)]: the exact value rounded
    to [prec] decimals, ties to even. *)
Definition round_half_even (num den : Z) : Z :=
  let q := num / den in
  let r := num mod den in
  if (den <? 2 * r) || ((2 * r =? den) && Z.odd q) then q + 1 else q.

Definition pad_left (c : ascii) (n : nat) (s : string) : string :=
  str (replicate (n - String.length s) c) +:+ s.

Definition pad_right (c : ascii) (n : nat) (s : string) : string :=
  s +:+ str (replicate (n - String.length s) c).

Definition fixed_digits (N : Z) (prec : nat) : string :=
  let p := 10 ^ Z.of_nat prec in
  let int_part := itoa (N / p) in
  match prec with
  | O => int_part
  | _ => int_part +:+ "." +:+ pad_left "0" prec (itoa (N mod p))
  end.

Definition FormatFloat_f (x : spec_float) (prec : nat) : string :=
  match x with
  | S754_nan => "NaN"
  | S754_infinity s => if s then "-Inf" else "+Inf"
  | S754_zero s => (if s then "-" else "") +:+ fixed_digits 0 prec
  | S754_finite s m e =>
      let scaled := Zpos m * 10 ^ Z.of_nat prec in
      let N := if 0 <=? e then scaled * 2 ^ e else round_half_even scaled (2 ^ (- e)) in
      (if s then "-" else "") +:+ fixed_digits N prec
  end.

(** A directive [%[-]width[.prec]f] as [Format] builds it: the minus
    flag, the width and the precision.  A width written [0] is the zero
    flag with no width; a width with other leading zeros, and a number
    of more than seven digits (package [fmt] gives up on numbers above
    a million), are not of this form. *)
Definition canonical (digits : list ascii) : bool :=
  match digits with
  | [] => true
  | c :: l => negb (Ascii.eqb c "0") || bool_decide (l = [])
  end.

Definition short (digits : list ascii) : bool := (length digits <=? 7)%nat.

Definition parse_fixed (format : string) : option (bool * nat * option nat) :=
  match bytes format with
  | "%"%char :: l0 =>
      let '(minus, l1) :=
        match l0 with
        | "-"%char :: l' => (true, l')
        | _ => (false, l0)
        end in
      let '(wd, l2) := span isDigit l1 in
      if negb (canonical wd && short wd) then None
      else
        let width := Z.to_nat (ParseInt (str wd) 64) in
        match l2 with
        | ["f"%char] => Some (minus, width, None)
        | "."%char :: l3 =>
            let '(pd, l4) := span isDigit l3 in
            match l4 with
            | ["f"%char] =>
                if short pd then Some (minus, width, Some (Z.to_nat (ParseInt (str pd) 64)))
                else None
            | _ => None
            end
        | _ => None
        end
  | _ => None
  end.

(** [%f] of a float: precision 6 when none is given, a sign only when
    negative (and on an infinity), blanks up to the width on the left,
    or on the right under the minus flag. *)
Definition fmtFloat_f (minus : bool) (width : nat) (prec : option nat) (x : spec_float)
  : string :=
  let num := FormatFloat_f x (default 6%nat prec) in
  if minus then pad_right " " width num else pad_left " " width num.

(** The type codes that [loadTable] looks for in a binary TFORM. *)
Definition type_codes : string := "ABCDEIJKLMPQX".

Section Decoder.

(** Two functions of Go's library are parameters of the decoder:
    [ParseFloat s] is the value [x] of [x, _ := strconv.ParseFloat(s, 64)],
    and [Sscanf_complex s] the pair [(x, y)] that
    [fmt.Sscanf(s, "(%f,%f)", &x, &y)] leaves in two variables that
    were 0. *)
Variable ParseFloat : string -> float64.
Variable Sscanf_complex : string -> float64 * float64.

(** The helper [f] of [accessorBin], run on the reader [b] whose
    [left] is at the field. *)
Definition binField (code : ascii) (repeat : Z) (b : Reader) : Res Value :=
  let scalar := repeat =? 1 in
  match code with
  | "A"%char => '(_, s) ← ReadString b repeat; mret (VString s)
  | "B"%char =>
      if scalar then '(_, x) ← ReadByte b; mret (VUint8 (byte_val x))
      else p ← read_array ReadByte repeat b; mret (VUint8s (byte_val <$> p))
  | "L"%char =>
      if scalar then '(_, x) ← ReadBool b; mret (VBool x)
      else p ← read_array ReadBool repeat b; mret (VBools p)
  | "I"%char =>
      if scalar then '(_, x) ← ReadInt16 b; mret (VInt16 x)
      else p ← read_array ReadInt16 repeat b; mret (VInt16s p)
  | "J"%char =>
      if scalar then '(_, x) ← ReadInt32 b; mret (VInt32 x)
      else p ← read_array ReadInt32 repeat b; mret (VInt32s p)
  | "K"%char =>
      if scalar then '(_, x) ← ReadInt64 b; mret (VInt64 x)
      else p ← read_array ReadInt64 repeat b; mret (VInt64s p)
  | "D"%char =>
      if scalar then '(_, x) ← ReadFloat64 b; mret (VFloat64 x)
      else p ← read_array ReadFloat64 repeat b; mret (VFloat64s p)
  | "E"%char =>
      if scalar then '(_, x) ← ReadFloat32 b; mret (VFloat32 x)
      else p ← read_array ReadFloat32 repeat b; mret (VFloat32s p)
  | "M"%char =>
      if scalar then '(_, z) ← read_pair ReadFloat64 b; mret (VComplex128 z.1 z.2)
      else p ← read_array (read_pair ReadFloat64) repeat b; mret (VComplex128s p)
  | "C"%char =>
      if scalar then '(_, z) ← read_pair ReadFloat32 b; mret (VComplex64 z.1 z.2)
      else p ← read_array (read_pair ReadFloat32) repeat b; mret (VComplex64s p)
  | _ => Panic "nil pointer dereference"
  end.

(** The helper [f] of [accessorText]. *)
Definition textField (code : ascii) (repeat : Z) (b : Reader) : Res Value :=
  '(_, s) ← ReadString b repeat;
  match code with
  | "A"%char => mret (VString s)
  | "I"%char => mret (VInt (ParseInt (TrimSpace s) 32))
  | "D"%char | "E"%char | "F"%char =>
      mret (VFloat64 (ParseFloat (Replace_D_E (TrimSpace s))))
  | _ => Panic "nil pointer dereference"
  end.

(** The closure [fn] of both accessors: the row test, then [b.left]
    set to the field of that row, then [f]. *)
Definition call_row (h : Unit) (c : Z) (f : Reader -> Res Value) (row : Z) : Res Value :=
  if row <? 0 then Ok VNil
  else
    match Naxis h !! 1%nat with
    | None => Panic "index out of range"
    | Some rows =>
        if rows <=? row then Ok VNil
        else
          match Naxis h !! 0%nat with
          | None => Panic "index out of range"
          | Some width =>
              b ← fieldReader h;
              f (set_left b (wrap64 (wrap64 (row * width) + c)))
          end
    end.

(** Calling a [FieldFunc] of the Unit [h] on a row. *)
Definition call (h : Unit) (fn : FieldFunc) (row : Z) : Res Value :=
  match fn with
  | FnNil => Panic "nil pointer dereference"
  | FnNull => Ok VNil
  | FnBin code repeat c => call_row h c (binField code repeat) row
  | FnText code repeat c => call_row h c (textField code repeat) row
  end.

(** ** [NewHeader] *)

(** The body of the loop over the 36 cards of a block: [card] is the
    80-byte line [buf[i*80 : (i+1)*80]]. *)
Definition processCard (K : gmap string Value) (card : list ascii) : gmap string Value :=
  let key := TrimSpace (str (take 8 card)) in
  if negb (String.eqb (str (slice card 8 10)) "= ") then <[key := VNil]> K
  else
    let s := TrimSpace (str (drop 10 card)) in
    match bytes s with
    | [] => <[key := VNil]> K
    | first :: _ =>
        if Ascii.eqb first "'" then
          (* processes string type values *)
          match processString s with
          | (v, None) => <[key := VString v]> K
          | (_, Some _) => K
          end
        else
          let s1 := match Index_byte s "/" with
                    | Some j => str (take j (bytes s))
                    | None => s
                    end in
          let value := TrimSpace s1 in
          if String.eqb value "" then <[key := VNil]> K
          else if isDigit first || Ascii.eqb first "+" || Ascii.eqb first "-" then
            if ContainsAny value ".DE"
            then <[key := VFloat64 (ParseFloat (Replace_D_E value))]> K
            else <[key := VInt (ParseInt value 32)]> K
          else if Ascii.eqb first "T" then <[key := VBool true]> K
          else if Ascii.eqb first "F" then <[key := VBool false]> K
          else if Ascii.eqb first "(" then
            let '(x, y) := Sscanf_complex value in <[key := VComplex128 x y]> K
          else K
    end.

(** The 36 cards of a block. *)
Definition cards (block : list ascii) : list (list ascii) :=
  (fun i => slice block (i * 80) ((i + 1) * 80)) <$> seq 0 36.

(** [h.Naxis[i] = Keys[Nth("NAXIS", i+1)].(int)] for [count] axes from
    the key of number [i]. *)
Fixpoint collect_naxis (K : gmap string Value) (i : Z) (count : nat) : Res (list Z) :=
  match count with
  | O => Ok []
  | S count' =>
      x ← assert_int (K !! Nth "NAXIS" i);
      xs ← collect_naxis K (i + 1) count';
      mret (x :: xs)
  end.

(** The steps that follow the sight of END in [Keys]. *)
Definition header_end (K : gmap string Value) : Res Unit :=
  match K !! "NAXIS"%string with
  | Some item =>
      n ← assert_int (Some item);
      if n <? 0 then Panic "makeslice: len out of range"
      else naxis ← collect_naxis K 1 (Z.to_nat n);
           mret (set_Naxis (newUnit K) naxis)
  | None => Ok (newUnit K)
  end.

(** The loop over blocks.  The error of [NextPage] is printed and
    returned with the Unit as it is. *)
Fixpoint NewHeader_loop (fuel : nat) (b : Reader) (K : gmap string Value)
  : Res (Reader * Unit * option error) :=
  '(b1, block, err) ← NextPage b;
  match err with
  | Some e => Ok (b1, newUnit K, Some e)
  | None =>
      if (length block <? 2880)%nat then Panic "slice bounds out of range"
      else
        let K1 := foldl processCard K (cards block) in
        match K1 !! "END"%string with
        | Some _ => h ← header_end K1; mret (b1, h, None)
        | None =>
            match fuel with
            | O => OutOfFuel
            | S fuel' => NewHeader_loop fuel' b1 K1
            end
        end
  end.

Definition NewHeader (b : Reader) : Res (Reader * Unit * option error) :=
  NewHeader_loop (remaining b) b ∅.

(** ** [loadTable] *)

(** The repeat count of a binary TFORM whose type code is at [j]. *)
Definition binRepeat (form : string) (j : nat) : Z :=
  match j with
  | O => 1
  | _ => ParseInt (str (take j (bytes form))) 32
  end.

(** The end of the body of the field loop, from [h.list[i] = fn] on:
    the accessor lists, the name and the default TDISP. *)
Definition register (h : Unit) (i : Z) (fn : FieldFunc) (disp : string) : Res Unit :=
  let l := <[Z.to_nat i := fn]> (flist h) in
  '(f, K) ←
    match Keys h !! Nth "TTYPE" (i + 1) with
    | Some name =>
        name ← assert_string (Some name);
        mret (<[name := fn]> (fields h), <["#" +:+ name := VInt (i + 1)]> (Keys h))
    | None =>
        (* default name given to fields without a corresponding TTYPE *)
        mret (fields h, <[Nth "TTYPE" (i + 1) := VString (Nth "COL" (i + 1))]> (Keys h))
    end;
  let K1 := match K !! Nth "TDISP" (i + 1) with
            | Some _ => K
            | None => <[Nth "TDISP" (i + 1) := VString disp]> K
            end in
  mret (set_table h (Data h) l f K1).

(** The loop [for i := 0; i < tfields; i++], with [count] fields left
    from the field [i]; [col] is the byte cursor. *)
Fixpoint loadTable_loop (binary : bool) (count : nat) (i : Z) (col : Z) (h : Unit)
  : Res (Unit * option error) :=
  match count with
  | O => Ok (h, None)
  | S count' =>
      form ← assert_string (Keys h !! Nth "TFORM" (i + 1));
      if binary then
        (* BINTABLE *)
        match IndexAny form type_codes with
        | None => Ok (h, Some (Errorf "TFROM has invalid format (binary)"))
        | Some j =>
            let repeat := binRepeat form j in
            if 0 <? repeat then
              code ← elem_at (bytes form) (Z.of_nat j);
              '(fn, disp, col1) ← accessorBin h code repeat col;
              h1 ← register h i fn disp;
              loadTable_loop binary count' (i + 1) col1 h1
            else loadTable_loop binary count' (i + 1) col h
        end
      else
        (* TABLE *)
        let j := match Index_byte form "." with
                 | Some j => j
                 | None => String.length form
                 end in
        if (j <? 1)%nat then Panic "slice bounds out of range"
        else
          let r := ParseInt (str (slice (bytes form) 1 j)) 32 in
          col1 ← assert_int (Keys h !! Nth "TBCOL" (i + 1));
          code ← elem_at (bytes form) 0;
          '(fn, disp) ← accessorText h code r col1;
          h1 ← register h i fn disp;
          loadTable_loop binary count' (i + 1) col1 h1
  end.

Definition loadTable (h : Unit) (b : Reader) (binary : bool)
  : Res (Unit * Reader * option error) :=
  tfields ← assert_int (Keys h !! "TFIELDS"%string);
  if tfields <? 0 then Panic "makeslice: len out of range"
  else
    match Naxis h with
    | width :: rows :: _ =>
        let size := wrap64 (width * rows) in
        if size <? 0 then Panic "makeslice: len out of range"
        else
          '(b1, data) ← Read b (zeros (Z.to_nat size));
          let h1 := set_table h (DByte data) (replicate (Z.to_nat tfields) FnNil) ∅ (Keys h) in
          '(h2, err) ← loadTable_loop binary (Z.to_nat tfields) 0 0 h1;
          mret (h2, b1, err)
    | _ => Panic "index out of range"
    end.

(** ** [Open] *)

(** The loop of [Open].  [fits] holds the Units of the turns that are
    over; the slice holds pointers, so what a turn does to its Unit
    after [fits = append(fits, h)] shows in the result, and every exit
    leaves with [fits ++ [h]] for the Unit [h] as it is then. *)
Fixpoint Open_loop (fuel : nat) (b : Reader) (fits : list Unit) : Res (list Unit) :=
  if IsEOF b then Ok fits
  else
    match fuel with
    | O => OutOfFuel
    | S fuel' =>
        '(b1, h, err) ← NewHeader b;
        match err with
        | Some _ => Ok fits (* EOF, not an error? *)
        | None =>
            match Keys h !! "SIMPLE"%string with
            | Some _ =>
                match verifyPrimary h with
                | Some _ => Ok (fits ++ [h])
                | None =>
                    let h1 := set_class h "SIMPLE" in
                    match Naxis h1 with
                    | [] => Open_loop fuel' b1 (fits ++ [h1])
                    | n0 :: _ =>
                        if n0 =? 0 then
                          (* Random Group Headers are not supported *)
                          Ok (fits ++ [h1])
                        else
                          '(h2, b2, err) ← loadData h1 b1;
                          match err with
                          | Some _ => Ok (fits ++ [h2])
                          | None => Open_loop fuel' b2 (fits ++ [h2])
                          end
                    end
                end
            | None =>
                match Keys h !! "XTENSION"%string with
                | Some (VString xten) =>
                    match verifyExtension h with
                    | Some _ => Ok (fits ++ [h])
                    | None =>
                        let h1 := set_class h xten in
                        (* inside the switch a break leaves the switch,
                           and the loop goes on whatever the loader
                           returned *)
                        if String.eqb xten "IMAGE" then
                          match Naxis h1 with
                          | [] => Open_loop fuel' b1 (fits ++ [h1])
                          | _ =>
                              '(h2, b2, _) ← loadData h1 b1;
                              Open_loop fuel' b2 (fits ++ [h2])
                          end
                        else if String.eqb xten "TABLE" then
                          '(h2, b2, _) ← loadTable h1 b1 false;
                          Open_loop fuel' b2 (fits ++ [h2])
                        else if String.eqb xten "BINTABLE" then
                          '(h2, b2, _) ← loadTable h1 b1 true;
                          Open_loop fuel' b2 (fits ++ [h2])
                        else Open_loop fuel' b1 (fits ++ [h1])
                    end
                | _ =>
                    (* unknown header *)
                    Ok (fits ++ [h])
                end
            end
        end
    end.

(** [Open] returns its named results [fits] and [err].  The loop
    declares an [err] of its own with [h, err := b.NewHeader()], and
    every later [err = ...] in the loop assigns that one: the result
    [err] keeps the nil it starts with. *)
Definition Open (src : list ascii) : Res (list Unit * option error) :=
  let err : option error := None in
  fits ← Open_loop (S (length src)) (NewReader src) [];
  mret (fits, err).

(** ** [Field] and [Format] *)

(** The argument [col interface{}] of [Field] and [Format]. *)
Inductive Col : Type :=
| ColInt (n : Z)
| ColString (name : string)
| ColOther.

Definition Field (h : Unit) (col : Col) : FieldFunc :=
  match col with
  | ColInt n =>
      if (0 <=? n) && (n <? Z.of_nat (length (flist h)))
      then default FnNil (flist h !! Z.to_nat n)
      else FnNull
  | ColString name => default FnNull (fields h !! name)
  | ColOther => FnNull
  end.

(** [fmt.Sprintf(format, v)] with one operand.  The rendering of a
    float under [%[-]w[.d]f] is defined above; every other pair of a
    format and an operand is left to the parameter [Sprintf_other]. *)
Variable Sprintf_other : string -> Value -> string.

Definition Sprintf (format : string) (v : Value) : string :=
  match parse_fixed format, v with
  | Some (minus, width, prec), VFloat64 x
  | Some (minus, width, prec), VFloat32 x => fmtFloat_f minus width prec x
  | _, _ => Sprintf_other format v
  end.

(** The format string that [Format] derives from a TDISP value [d]. *)
Definition display_format (d : string) : string :=
  let d1 :=
    match bytes d with
    | c0 :: c1 :: rest =>
        (* accounts for ENw.d and ESw.d formats *)
        if Ascii.eqb c1 "N" || Ascii.eqb c1 "S" then str (c0 :: rest) else d
    | _ => d
    end in
  let '(code, w, m) := Sscanf_cdd d1 zero 14 (-1) in
  match code with
  | "A"%char => fmt_wd w w "s"
  | "I"%char => fmt_w w "d"
  | "B"%char => fmt_w w "b"
  | "O"%char => fmt_w w "o"
  | "Z"%char => fmt_w w "X"
  | "F"%char | "D"%char => if negb (m =? -1) then fmt_wd w m "f" else fmt_w w "f"
  | "E"%char => if negb (m =? -1) then fmt_wd w m "e" else fmt_w w "e"
  | "G"%char => if negb (m =? -1) then fmt_wd w m "g" else fmt_w w "g"
  | _ => "%v"%string
  end.

(** The [switch col.(type)] that opens [Format]: the accessor [fn] and
    the TDISP value [disp] of the column, both nil when the column is
    not found.  In the string case [n.(int)] is applied to the value
    of the key ["#"+name], whatever the lookup of [name] gave. *)
Definition column (h : Unit) (col : Col) : Res (FieldFunc * option Value) :=
  match col with
  | ColInt n =>
      if (0 <=? n) && (n <? Z.of_nat (length (flist h)))
      then Ok (default FnNil (flist h !! Z.to_nat n), Keys h !! Nth "TDISP" (n + 1))
      else Ok (FnNil, None)
  | ColString name =>
      let fn := default FnNil (fields h !! name) in
      n ← assert_int (Keys h !! ("#" +:+ name));
      mret (fn, Keys h !! Nth "TDISP" n)
  | ColOther => Ok (FnNil, None)
  end.

Definition Format (h : Unit) (col : Col) (row : Z) : Res string :=
  '(fn, disp) ← column h col;
  match fn with
  | FnNil => Ok ""%string
  | _ =>
      format ←
        match disp with
        | None | Some VNil => Ok "%v"%string (* default format *)
        | Some d => d ← assert_string (Some d); mret (display_format d)
        end;
      v ← call h fn row;
      mret (Sprintf format v)
  end.

End Decoder.

(** ** [HasImage] and [HasTable] *)

Definition HasImage (h : Unit) : bool :=
  (String.eqb (class h) "SIMPLE" || String.eqb (class h) "IMAGE") &&
  match Naxis h with
  | n0 :: _ => 0 <? n0
  | [] => false
  end.

Definition HasTable (h : Unit) : bool :=
  String.eqb (class h) "TABLE" || String.eqb (class h) "BINTABLE".

(** ** The demo: the planes of [writeImage]

    [l := i; for k := 2; k < n; k++ { maxis[k] = l % h.Naxis[k];
    l = l / h.Naxis[k] }], on the extents [naxis] of the axes from 2 on:
    the coordinates of the plane number [i] on these axes. *)
Fixpoint plane_coords (naxis : list Z) (l : Z) : Res (list Z) :=
  match naxis with
  | [] => Ok []
  | n :: naxis' =>
      if n =? 0 then Panic "integer divide by zero"
      else cs ← plane_coords naxis' (wrap64 (Z.quot l n)); mret (Z.rem l n :: cs)
  end.

(** ** The demo: what [main] writes for a Unit

    [if h.HasImage() { writeImage } else if h.HasTable() { if
    len(h.Naxis) == 1 { writeArray } else { writeTable } } else
    { "Unsupported Header Data Unit" }]. *)
Inductive Output : Type := OutImage | OutArray | OutTable | OutUnsupported.

Definition extract (h : Unit) : Output :=
  if HasImage h then OutImage
  else if HasTable h then
    if (length (Naxis h) =? 1)%nat then OutArray else OutTable
  else OutUnsupported.

(** * What the specification says, in terms of the embedding

    The definitions of this part follow the words of the specification
    or name a property of the code; none of them is part of the
    decoder. *)

(** The literal of a string value: the text with every quote doubled
    (the quotes around it are added where it is used). *)
Fixpoint doubled (s : list ascii) : list ascii :=
  match s with
  | [] => []
  | c :: s' => if Ascii.eqb c "'" then c :: c :: doubled s' else c :: doubled s'
  end.

(** A card that carries a value ([= ] in columns 9 and 10) whose trimmed
    literal starts with a quote and on which the scanner fails. *)
Definition bad_string_card (c : list ascii) : Prop :=
  str (slice c 8 10) = "= "%string ∧
  (∃ rest, bytes (TrimSpace (str (drop 10 c))) = "'"%char :: rest) ∧
  (∃ v e, processString (TrimSpace (str (drop 10 c))) = (v, Some e)).

(** The XTENSION key of a header names an extension when its value is a
    string. *)
Definition has_xtension (h : Unit) : bool :=
  match Keys h !! "XTENSION"%string with Some (VString _) => true | _ => false end.

(** The offset as the specification writes it: a right fold over the
    coordinates paired with the extents, [acc * n + c] at each axis, on
    unbounded integers. *)
Definition pixel_offset (a naxis : list Z) : Z :=
  fold_right (fun cn acc => acc * cn.2 + cn.1) 0 (zip a naxis).

(** The number of elements, on unbounded integers. *)
Definition product (naxis : list Z) : Z := fold_right Z.mul 1 naxis.

(** A byte of 7-bit text. *)
Definition is_ascii (c : ascii) : Prop := byte_val c < 128.

(** Coordinates in range: one for each axis, each from 0 to the extent
    of its axis, excluded. *)
Definition in_range (a naxis : list Z) : Prop :=
  Forall2 (fun c n => 0 ≤ c < n) a naxis.

(** The type code and the repeat count that [loadTable] reads from the
    key TFORM of the field [i] (from 0) of a binary table. *)
Definition binForm (K : gmap string Value) (i : Z) : option (ascii * Z) :=
  match K !! Nth "TFORM" (i + 1) with
  | Some (VString form) =>
      match IndexAny form type_codes with
      | Some j =>
          match bytes form !! j with
          | Some code => Some (code, binRepeat form j)
          | None => None
          end
      | None => None
      end
  | _ => None
  end.

(** The size in bytes of one element of a type code, from the widths
    that the specification gives: a character (A), a boolean (L) and an
    unsigned 8-bit integer (B) take 1 byte, a 16-bit integer (I) 2, a
    32-bit integer (J) 4, a 64-bit integer (K) 8, a 32-bit float (E) 4,
    a 64-bit float (D) 8, a pair of 32-bit floats (C) 8 and a pair of
    64-bit floats (M) 16.  The codes that are not supported have no
    size. *)
Definition element_size (code : ascii) : Z :=
  match code with
  | "A" | "L" | "B" => 1
  | "I" => 2
  | "J" | "E" => 4
  | "K" | "D" | "C" => 8
  | "M" => 16
  | _ => 0
  end%char.

(** The bytes of the field [i] in a row: repeat times element size. *)
Definition field_bytes (K : gmap string Value) (i : Z) : Z :=
  match binForm K i with
  | Some (code, repeat) => repeat * element_size code
  | None => 0
  end.

(** The row offset as the specification writes it: the sum of repeat
    times element size over the fields declared before the field [i]. *)
Fixpoint row_offset (K : gmap string Value) (i : nat) : Z :=
  match i with
  | O => 0
  | S i' => row_offset K i' + field_bytes K (Z.of_nat i')
  end.

(** The bytes that the loader gives the field [i] in a row: repeat
    times element size when the repeat count is positive, none when it
    is not (the loop skips the field). *)
Definition laid_bytes (K : gmap string Value) (i : Z) : Z :=
  match binForm K i with
  | Some (code, repeat) => if 0 <? repeat then repeat * element_size code else 0
  | None => 0
  end.

(** The sum of repeat times element size over the fields declared before
    the field [i] whose repeat count is positive. *)
Fixpoint laid_offset (K : gmap string Value) (i : nat) : Z :=
  match i with
  | O => 0
  | S i' => laid_offset K i' + laid_bytes K (Z.of_nat i')
  end.

(** The entry of the field [k] in the list of accessors: the accessor
    of its code and repeat count at the offset [laid_offset] when the
    repeat count is positive, nil when it is not. *)
Definition laid_entry (K : gmap string Value) (k : nat) : FieldFunc :=
  match binForm K (Z.of_nat k) with
  | Some (code, repeat) =>
      if 0 <? repeat then FnBin code repeat (laid_offset K k) else FnNil
  | None => FnNil
  end.

(** What the loop keeps on a table of header keys [K0] that declares
    [top] fields: the keys TFORM are those of the header, the cursor is
    the offset of the next field, every field before the field [i] has
    a type code, and the list holds the entries of the fields before
    [i], followed by nil for the fields still to come. *)
Definition layout_inv (K0 : gmap string Value) (top : Z) (i col : Z) (h : Unit) : Prop :=
  (∀ k, Keys h !! Nth "TFORM" k = K0 !! Nth "TFORM" k) ∧
  col = laid_offset K0 (Z.to_nat i) ∧
  (∀ k, 0 ≤ k < i → is_Some (binForm K0 k)) ∧
  flist h = (laid_entry K0 <$> seq 0 (Z.to_nat i))
              ++ replicate (Z.to_nat top - Z.to_nat i) FnNil.

(** The field [k] is laid out: its repeat count is positive. *)
Definition laid_out (K0 : gmap string Value) (k : Z) : Prop :=
  ∃ code r, binForm K0 k = Some (code, r) ∧ 0 < r.

(** What the loop keeps for the names: the keys TFORM, and the keys
    TTYPE of the fields still to come, are those of the header; a name
    in the map is the TTYPE of a field that was laid out; an entry of
    the list, which has [n] of them, is nil or belongs to a field that
    was laid out. *)
Definition names_inv (K0 : gmap string Value) (n : nat) (i col : Z) (h : Unit) : Prop :=
  (∀ k, Keys h !! Nth "TFORM" k = K0 !! Nth "TFORM" k) ∧
  (∀ k, i ≤ k → Keys h !! Nth "TTYPE" (k + 1) = K0 !! Nth "TTYPE" (k + 1)) ∧
  (∀ nm fn, fields h !! nm = Some fn →
     ∃ k, 0 ≤ k < i ∧ K0 !! Nth "TTYPE" (k + 1) = Some (VString nm) ∧ laid_out K0 k) ∧
  (∀ k fn, flist h !! k = Some fn → fn = FnNil ∨ laid_out K0 (Z.of_nat k)) ∧
  length (flist h) = n.

(** A result that is not the end of the budget and, when it is a value,
    has the property [Q]. *)
Definition returns {A} (r : Res A) (Q : A → Prop) : Prop :=
  match r with
  | Ok a => Q a
  | Panic _ => True
  | OutOfFuel => False
  end.

(** The buffer of the reader has room, and [b1] has no more of the
    source left than [b]. *)
Definition paged (b : Reader) : Prop := (0 < length (buf b))%nat.

Definition after (b b1 : Reader) : Prop :=
  paged b1 ∧ (remaining b1 ≤ remaining b)%nat.

(** A typed read keeps the reader in this state. *)
Definition steady {T} (rd : Reader → Res (Reader * T)) : Prop :=
  ∀ b, paged b → returns (rd b) (λ r, after b r.1).

(** The bytes that a reader has still to deliver: the unread rest of
    the current block, then what the source holds. *)
Definition pending (b : Reader) : list ascii :=
  slice (buf b) (Z.to_nat (left b)) (Z.to_nat (right b)) ++ default [] (reader b).

(** A reader in working order: the window of unread bytes lies in the
    buffer, the buffer has room, and there is a source. *)
Definition ready (b : Reader) : Prop :=
  0 ≤ left b ≤ right b ∧ right b ≤ Z.of_nat (length (buf b)) ∧
  (0 < length (buf b))%nat ∧ is_Some (reader b).

(** The [w] bytes of the two's complement of [z], most significant first. *)
Fixpoint be_bytes (w : nat) (z : Z) : list ascii :=
  match w with
  | O => []
  | S w' => be_bytes w' (z / 256) ++ [byte_of z]
  end.


(** The readers of signed integers with the number of bytes they take. *)
Definition int_readers : list (nat * (Reader -> Res (Reader * Z))) :=
  [(2%nat, ReadInt16); (4%nat, ReadInt32); (8%nat, ReadInt64)].

(** [x] is a two's complement integer of [w] bytes. *)
Definition fits_bytes (w : nat) (x : Z) : Prop :=
  - 2 ^ (8 * Z.of_nat w - 1) ≤ x < 2 ^ (8 * Z.of_nat w - 1).

(** The number of elements of a buffer, and the BITPIX of its element
    type. *)
Definition buffer_len (d : DataBuf) : nat :=
  match d with
  | DNil => 0
  | DInt l | DInt16 l | DInt32 l | DInt64 l => length l
  | DByte l => length l
  | DFloat32 l => length l
  | DFloat64 l => length l
  end.

Definition buffer_bitpix (d : DataBuf) : option Z :=
  match d with
  | DByte _ => Some 8
  | DInt16 _ => Some 16
  | DInt32 _ => Some 32
  | DInt64 _ => Some 64
  | DFloat32 _ => Some (-32)
  | DFloat64 _ => Some (-64)
  | DNil | DInt _ => None
  end.

(** The FITS encoding of a buffer of integers: the elements in order,
    each in big-endian two's complement; [None] for the other buffers
    and for an element out of the range of its type. *)
Definition encode_ints (w : nat) (l : list Z) : option (list ascii) :=
  if forallb (fun x => (- 2 ^ (8 * Z.of_nat w - 1) <=? x) && (x <? 2 ^ (8 * Z.of_nat w - 1))) l
  then Some (flat_map (be_bytes w) l) else None.

Definition encode_pixels (d : DataBuf) : option (list ascii) :=
  match d with
  | DByte l => Some l
  | DInt16 l => encode_ints 2 l
  | DInt32 l => encode_ints 4 l
  | DInt64 l => encode_ints 8 l
  | _ => None
  end.

(** What a typed read does on a stream that starts with the encoding
    [enc x] of a value. *)
Definition decodes {T} (rd : Reader -> Res (Reader * T)) (enc : T -> list ascii)
    (good : T -> Prop) : Prop :=
  ∀ b x rest, ready b → length (elem b) = 8%nat → pending b = enc x ++ rest → good x →
    ∃ b1, rd b = Ok (b1, x) ∧ pending b1 = rest ∧ ready b1 ∧
          length (elem b1) = 8%nat ∧ eof b1 = eof b.


(** The integer and the floating value of a pixel that [At] returned,
    by the conversions [int64(x)] and [float64(x)] of Go. *)
Definition pixel_int (v : Value) : Z :=
  match v with
  | VUint8 n | VInt16 n | VInt32 n | VInt64 n => n
  | VFloat32 x | VFloat64 x => int64_of_float x
  | _ => 0
  end.

Definition pixel_float (v : Value) : float64 :=
  match v with
  | VUint8 n | VInt16 n | VInt32 n | VInt64 n => float64_of_int n
  | VFloat32 x => float64_of_float32 x
  | VFloat64 x => x
  | _ => float_zero
  end.

(** The range of a 32-bit integer, and a table of keys whose integers
    all lie in it. *)
Definition int32 (n : Z) : Prop := - 2 ^ 31 ≤ n < 2 ^ 31.

Definition int32_keys (K : gmap string Value) : Prop :=
  ∀ key n, K !! key = Some (VInt n) → int32 n.

(** The mandatory keywords that both verifiers ask for: BITPIX is one of
    the six valid integers, NAXIS is an integer, and every key from
    NAXIS1 to NAXISn is an integer. *)
Definition mandatory (K : gmap string Value) (bitpix naxis : Z) : Prop :=
  K !! "BITPIX"%string = Some (VInt bitpix) ∧ valid_bitpix bitpix = true ∧
  K !! "NAXIS"%string = Some (VInt naxis) ∧
  ∀ i, 1 ≤ i ≤ naxis → is_int (K !! Nth "NAXIS" i) = true.

(** The default TDISP of [register]: the key TDISPn is written only when
    the header has none. *)
Definition with_tdisp (K : gmap string Value) (n : Z) (disp : string) : gmap string Value :=
  match K !! Nth "TDISP" n with
  | Some _ => K
  | None => <[Nth "TDISP" n := VString disp]> K
  end.

(** What the field loop keeps for the names, on a table of header keys
    [K0] and [top] fields: the keys TTYPE of the fields still to come
    are those of the header; a name in the map is the TTYPE of a field
    [k] already seen, the key ["#" + name] holds [k + 1], and the entry
    [k] of the list is the accessor of that name. *)
Definition agree_inv (K0 : gmap string Value) (top : Z) (i : Z) (h : Unit) : Prop :=
  Z.of_nat (length (flist h)) = top ∧
  (∀ k, i ≤ k → Keys h !! Nth "TTYPE" (k + 1) = K0 !! Nth "TTYPE" (k + 1)) ∧
  (∀ nm fn, fields h !! nm = Some fn →
     ∃ k, 0 ≤ k < i ∧ K0 !! Nth "TTYPE" (k + 1) = Some (VString nm) ∧
          Keys h !! ("#" +:+ nm) = Some (VInt (k + 1)) ∧
          flist h !! Z.to_nat k = Some fn ∧ fn ≠ FnNil).

(** What the field loop leaves alone. *)
Definition shape_inv (h0 : Unit) (h : Unit) : Prop :=
  Data h = Data h0 ∧ Naxis h = Naxis h0 ∧ class h = class h0 ∧
  length (flist h) = length (flist h0) ∧ pix h = pix h0 ∧ pBlank h = pBlank h0.

(** The type codes of the signed integers of a binary table, with the
    size in bytes and the Go type of a value. *)
Definition int_codes : list (ascii * nat * (Z → Value)) :=
  [("I"%char, 2%nat, VInt16); ("J"%char, 4%nat, VInt32); ("K"%char, 8%nat, VInt64)].

(** The type code, the width and the column (from 1) that [loadTable]
    reads from the keys TFORM and TBCOL of the field [i] (from 0) of an
    ASCII table: the code is the first byte of the form and the width
    the number between it and the period, or the end. *)
Definition textForm (K : gmap string Value) (i : Z) : option (ascii * Z * Z) :=
  match K !! Nth "TFORM" (i + 1), K !! Nth "TBCOL" (i + 1) with
  | Some (VString form), Some (VInt col) =>
      let j := match Index_byte form "." with
               | Some j => j
               | None => String.length form
               end in
      match bytes form with
      | code :: _ => Some (code, ParseInt (str (slice (bytes form) 1 j)) 32, col)
      | [] => None
      end
  | _, _ => None
  end.

(** The value of a cell of an ASCII table whose text is [s]. *)
Definition text_value (pf : string → float64) (code : ascii) (s : string) : option Value :=
  match code with
  | "A"%char => Some (VString s)
  | "I"%char => Some (VInt (ParseInt (TrimSpace s) 32))
  | "D"%char | "E"%char | "F"%char => Some (VFloat64 (pf (Replace_D_E (TrimSpace s))))
  | _ => None
  end.

(** What the field loop keeps on an ASCII table of header keys [K0]:
    the keys TFORM and TBCOL are those of the header, every field
    before [i] has its accessor in the list, set at TBCOL - 1, and has a
    string under its key TTYPE and a value under its key TDISP. *)
Definition text_inv (K0 : gmap string Value) (i : Z) (h : Unit) : Prop :=
  (∀ k, Keys h !! Nth "TFORM" k = K0 !! Nth "TFORM" k) ∧
  (∀ k, Keys h !! Nth "TBCOL" k = K0 !! Nth "TBCOL" k) ∧
  (∀ k, 0 ≤ k < i →
     ∃ code r col, textForm K0 k = Some (code, r, col) ∧ memb code "AIDEF" = true ∧
                   flist h !! Z.to_nat k = Some (FnText code r (wrap64 (col - 1)))) ∧
  (∀ k, 0 ≤ k < i →
     (∃ name, Keys h !! Nth "TTYPE" (k + 1) = Some (VString name)) ∧
     is_Some (Keys h !! Nth "TDISP" (k + 1))).

(** The Units that one turn of the loop of [Open] can add to its
    result, on a header [h] that [NewHeader] returned with the reader
    [b1]: the header as it is (verification failed, or the header is
    neither primary nor an extension), the header with its class and no
    data, the Unit that [loadData] returned, or the Unit that
    [loadTable] returned. *)
Inductive turn (h : Unit) (b1 : Reader) : Unit → Prop :=
| turn_header : turn h b1 h
| turn_primary_bare :
    is_Some (Keys h !! "SIMPLE"%string) → verifyPrimary h = None →
    (Naxis h = [] ∨ ∃ rest, Naxis h = 0 :: rest) →
    turn h b1 (set_class h "SIMPLE")
| turn_primary_image n0 rest u b2 e :
    is_Some (Keys h !! "SIMPLE"%string) → verifyPrimary h = None →
    Naxis h = n0 :: rest → n0 ≠ 0 →
    loadData (set_class h "SIMPLE") b1 = Ok (u, b2, e) →
    turn h b1 u
| turn_extension_bare xten :
    Keys h !! "SIMPLE"%string = None →
    Keys h !! "XTENSION"%string = Some (VString xten) → verifyExtension h = None →
    (xten = "IMAGE"%string → Naxis h = []) →
    xten ≠ "TABLE"%string → xten ≠ "BINTABLE"%string →
    turn h b1 (set_class h xten)
| turn_extension_image u b2 e :
    Keys h !! "SIMPLE"%string = None →
    Keys h !! "XTENSION"%string = Some (VString "IMAGE") → verifyExtension h = None →
    Naxis h ≠ [] →
    loadData (set_class h "IMAGE") b1 = Ok (u, b2, e) →
    turn h b1 u
| turn_table (binary : bool) u b2 e :
    Keys h !! "SIMPLE"%string = None →
    Keys h !! "XTENSION"%string
      = Some (VString (if binary then "BINTABLE" else "TABLE")) →
    verifyExtension h = None →
    loadTable (set_class h (if binary then "BINTABLE" else "TABLE")) b1 binary
      = Ok (u, b2, e) →
    turn h b1 u.

(** A Unit as [NewHeader] builds it: no class, no data and no accessors
    yet, integers of 32 bits in its keys, and in [Naxis] the values of
    the keys NAXIS1 to NAXISn. *)
Definition fresh (h : Unit) : Prop :=
  class h = ""%string ∧ Data h = DNil ∧ pix h = PixNil ∧ flist h = [] ∧
  int32_keys (Keys h) ∧ Forall int32 (Naxis h) ∧
  ∀ n, Keys h !! "NAXIS"%string = Some (VInt n) → Z.of_nat (length (Naxis h)) = n.

(** An image Unit with its pixels: the accessors are bound and the
    buffer has the element type of BITPIX and one element for each
    pixel, as many as the product of the extents on unbounded
    integers. *)
Definition loaded (u : Unit) : Prop :=
  pix u = PixData ∧
  ∃ bitpix, Keys u !! "BITPIX"%string = Some (VInt bitpix) ∧
            buffer_bitpix (Data u) = Some bitpix ∧
            Z.of_nat (buffer_len (Data u)) = product (Naxis u).

(** The pixel values that [Stats] takes into account, as [float64]: the
    elements different from [blank] of an integer buffer, and the
    elements that are not NaN of a floating buffer. *)
Definition counted_int (bl : Z) (l : list Z) : list float64 :=
  float64_of_int <$> filter (λ x, x ≠ bl) l.

Definition counted_float (l : list float64) : list float64 :=
  filter (λ x, IsNaN x = false) l.

Definition counted (d : DataBuf) (bl : Z) : list float64 :=
  match d with
  | DByte l => counted_int bl (byte_val <$> l)
  | DInt16 l | DInt32 l | DInt64 l => counted_int bl l
  | DFloat32 l => counted_float (float64_of_float32 <$> l)
  | DFloat64 l => counted_float l
  | DNil | DInt _ => []
  end.

(** [mm] bounds the values [l]: none is below the minimum or above the
    maximum, and each of the two is its starting value or one of [l]. *)
Definition bounds (mm : float64 * float64) (l : list float64) : Prop :=
  (∀ x, x ∈ l → SFltb x mm.1 = false ∧ SFltb mm.2 x = false) ∧
  (mm.1 = MaxFloat64 ∨ mm.1 ∈ l) ∧ (mm.2 = neg_MaxFloat64 ∨ mm.2 ∈ l).

(** * Example streams

    [card s] is the 80-byte card that starts with [s], and [block cs]
    the 2880-byte block of the cards [cs], both filled with blanks. *)

Definition card (s : string) : list ascii := take 80 (bytes s ++ replicate 80 " "%char).

Definition block (cs : list string) : list ascii :=
  take 2880 (concat (card <$> cs) ++ replicate 2880 " "%char).

(** Closed examples run the decoder with these stand-ins for the three
    library parameters; the streams they decode hold no floating or
    complex literal and ask for no rendering outside [%w.df] of a
    float, so that none of them is ever called. *)
Definition ParseFloat_unused : string -> float64 := fun _ => S754_nan.
Definition Sscanf_complex_unused : string -> float64 * float64 :=
  fun _ => (S754_nan, S754_nan).
Definition Sprintf_unused : string -> Value -> string := fun _ _ => ""%string.

(** A primary header without BITPIX: [verifyPrimary] fails on it. *)
Definition stream_no_bitpix : list ascii :=
  block ["SIMPLE  =                    T"; "NAXIS   = 0"; "END"].

(** A primary HDU with no data. *)
Definition primary_block : list ascii :=
  block ["SIMPLE  =                    T"; "BITPIX  = 8"; "NAXIS   = 0"; "END"].

(** A binary table whose TFORM1 has no type code, so that [loadTable]
    fails, and an image extension to follow it. *)
Definition bad_table_block : list ascii :=
  block ["XTENSION= 'BINTABLE' /"; "BITPIX  = 8"; "NAXIS   = 2"; "NAXIS1  = 0";
         "NAXIS2  = 0"; "PCOUNT  = 0"; "GCOUNT  = 1"; "TFIELDS = 1";
         "TFORM1  = '9' /"; "END"].

Definition image_block : list ascii :=
  block ["XTENSION= 'IMAGE' /"; "BITPIX  = 8"; "NAXIS   = 0";
         "PCOUNT  = 0"; "GCOUNT  = 1"; "END"].

Definition stream_bad_table : list ascii :=
  primary_block ++ bad_table_block ++ image_block.

(** A header with neither SIMPLE nor XTENSION. *)
Definition unknown_block : list ascii := block ["FOO     = 1"; "END"].

Definition stream_unknown_second : list ascii := primary_block ++ unknown_block.

(** An 8-bit image of two pixels, 0 and 5, with no BLANK key, and one of
    a single pixel 7. *)
Definition stream_zero_pixel : list ascii :=
  block ["SIMPLE  =                    T"; "BITPIX  = 8"; "NAXIS   = 1";
         "NAXIS1  = 2"; "END"] ++ [byte_of 0; byte_of 5].

Definition stream_one_pixel : list ascii :=
  block ["SIMPLE  =                    T"; "BITPIX  = 8"; "NAXIS   = 1";
         "NAXIS1  = 1"; "END"] ++ [byte_of 7].

(** A header block with a string left open. *)
Definition open_string_block : list ascii :=
  block ["SIMPLE  =                    T"; "OBJECT  = 'M31"; "END"].

(** A binary table of one row and two fields, [3I] named FLUX and [1J]
    named ID; in the streams below the row holds 1, 2, -1 and 256. *)
Definition table_block : list ascii :=
  block ["XTENSION= 'BINTABLE' /"; "BITPIX  = 8"; "NAXIS   = 2"; "NAXIS1  = 10";
         "NAXIS2  = 1"; "PCOUNT  = 0"; "GCOUNT  = 1"; "TFIELDS = 2";
         "TFORM1  = '3I' /"; "TTYPE1  = 'FLUX' /";
         "TFORM2  = '1J' /"; "TTYPE2  = 'ID' /"; "END"].

Definition stream_table : list ascii :=
  primary_block ++ table_block
    ++ (byte_of <$> [0; 1; 0; 2; 255; 255; 0; 0; 1; 0]).

(** The Unit number [i] of what [Open] returns on a stream. *)
Definition unit_of (src : list ascii) (i : nat) : Unit :=
  match Open ParseFloat_unused Sscanf_complex_unused src with
  | Ok (l, _) => default (newUnit ∅) (l !! i)
  | _ => newUnit ∅
  end.

(** The [float64] and the [float32] nearest to 987.654321. *)
Definition f987 : float64 := S754_finite false 8687499281301680 (-43).
Definition f987_32 : float32 := S754_finite false 16181728 (-14).

(** A binary table of one field [D] with TDISP1 = F10.4, whose only
    cell holds the [float64] of 987.654321. *)
Definition flux_block : list ascii :=
  block ["XTENSION= 'BINTABLE' /"; "BITPIX  = 8"; "NAXIS   = 2"; "NAXIS1  = 8";
         "NAXIS2  = 1"; "PCOUNT  = 0"; "GCOUNT  = 1"; "TFIELDS = 1";
         "TFORM1  = 'D' /"; "TTYPE1  = 'FLUX' /"; "TDISP1  = 'F10.4' /"; "END"].

Definition stream_flux : list ascii :=
  primary_block ++ flux_block ++ (byte_of <$> [64; 142; 221; 60; 12; 166; 0; 176]).

(** An 8-bit image with NAXIS1 = 3 and NAXIS2 = 2 whose pixels are, in
    the order of the stream, 1 to 6. *)
Definition stream_image_3x2 : list ascii :=
  block ["SIMPLE  =                    T"; "BITPIX  = 8"; "NAXIS   = 2";
         "NAXIS1  = 3"; "NAXIS2  = 2"; "END"]
    ++ (byte_of <$> [1; 2; 3; 4; 5; 6]).

(** The header and the reader after [NewHeader] on a stream. *)
Definition header_of (src : list ascii) : Reader * Unit :=
  match NewHeader ParseFloat_unused Sscanf_complex_unused (NewReader src) with
  | Ok (b, h, _) => (b, h)
  | _ => (NewReader [], newUnit ∅)
  end.

Definition table_src : list ascii :=
  table_block ++ (byte_of <$> [0; 1; 0; 2; 255; 255; 0; 0; 1; 0]).

(** A binary table whose second field, named GONE, has the form [0B]. *)
Definition vanishing_block : list ascii :=
  block ["XTENSION= 'BINTABLE' /"; "BITPIX  = 8"; "NAXIS   = 2"; "NAXIS1  = 10";
         "NAXIS2  = 1"; "PCOUNT  = 0"; "GCOUNT  = 1"; "TFIELDS = 3";
         "TFORM1  = '3I' /"; "TTYPE1  = 'FLUX' /";
         "TFORM2  = '0B' /"; "TTYPE2  = 'GONE' /";
         "TFORM3  = '1J' /"; "TTYPE3  = 'ID' /"; "END"].

Definition vanishing_src : list ascii :=
  vanishing_block ++ (byte_of <$> [0; 1; 0; 2; 255; 255; 0; 0; 1; 0]).

(** A binary table of one row whose first field declares the repeat
    count -2, [-2I], and whose second field is [1J]; the row holds
    256. *)
Definition negative_block : list ascii :=
  block ["XTENSION= 'BINTABLE' /"; "BITPIX  = 8"; "NAXIS   = 2"; "NAXIS1  = 4";
         "NAXIS2  = 1"; "PCOUNT  = 0"; "GCOUNT  = 1"; "TFIELDS = 2";
         "TFORM1  = '-2I' /"; "TTYPE1  = 'FLUX' /";
         "TFORM2  = '1J' /"; "TTYPE2  = 'ID' /"; "END"].

Definition stream_negative : list ascii :=
  primary_block ++ negative_block ++ (byte_of <$> [0; 0; 1; 0]).

(** A binary table of one row whose two fields, [0B] and [1J], are both
    named X; the row holds 256. *)
Definition twin_block : list ascii :=
  block ["XTENSION= 'BINTABLE' /"; "BITPIX  = 8"; "NAXIS   = 2"; "NAXIS1  = 4";
         "NAXIS2  = 1"; "PCOUNT  = 0"; "GCOUNT  = 1"; "TFIELDS = 2";
         "TFORM1  = '0B' /"; "TTYPE1  = 'X' /";
         "TFORM2  = '1J' /"; "TTYPE2  = 'X' /"; "END"].

Definition stream_twin : list ascii :=
  primary_block ++ twin_block ++ (byte_of <$> [0; 0; 1; 0]).

(** An 8-bit image whose three extents multiply to 4 * 2^64 + 2, which
    is 2 in an [int]; the stream holds the two bytes 7 and 9 that
    [loadData] reads. *)
Definition stream_huge : list ascii :=
  block ["SIMPLE  =                    T"; "BITPIX  = 8"; "NAXIS   = 3";
         "NAXIS1  = 1997448962"; "NAXIS2  = 1119412321"; "NAXIS3  = 33"; "END"]
    ++ [byte_of 7; byte_of 9].

(** An ASCII table of one row and two fields, [I3] at column 1 and [A5]
    at column 4; the row is [ 42hello]. *)
Definition text_block : list ascii :=
  block ["XTENSION= 'TABLE' /"; "BITPIX  = 8"; "NAXIS   = 2"; "NAXIS1  = 8";
         "NAXIS2  = 1"; "PCOUNT  = 0"; "GCOUNT  = 1"; "TFIELDS = 2";
         "TFORM1  = 'I3' /"; "TBCOL1  = 1"; "TTYPE1  = 'COUNT' /";
         "TFORM2  = 'A5' /"; "TBCOL2  = 4"; "END"].

Definition text_src : list ascii := text_block ++ bytes " 42hello".

Definition stream_text : list ascii := primary_block ++ text_src.

(** The cards of a header that sets the key OBJECT twice. *)
Definition cards_twice : list (list ascii) :=
  [card "OBJECT  = 'M31' /"; card "OBJECT  = 'M32' /"; card "BITPIX  = 8"].

(** The Unit that [loadData] returns on the header of a stream. *)
Definition loaded_of (src : list ascii) : Unit :=
  match loadData (header_of src).2 (header_of src).1 with
  | Ok (h, _, _) => h
  | _ => newUnit ∅
  end.

(** The Unit that [loadTable] returns on the header of a stream. *)
Definition table_of (src : list ascii) (binary : bool) : Unit :=
  match loadTable (header_of src).2 (header_of src).1 binary with
  | Ok (h, _, _) => h
  | _ => newUnit ∅
  end.

(** A cube of four planes of 3 by 2 pixels, with the axes 3 and 4 of
    extent 2. *)
Definition cube : Unit := set_Naxis (newUnit ∅) [3; 2; 2; 2].

(** A table Unit of one row of 4 bytes whose data stops after 3. *)
Definition short_table : Unit :=
  set_table (set_Naxis (newUnit ∅) [4; 1]) (DByte (bytes "abc")) [] ∅ ∅.

(** * Properties *)

(** ** The error result of [Open] *)

Lemma Open_err_nil pf sc src fits err :
  Open pf sc src = Ok (fits, err) → err = None.
Proof.
  unfold Open. destruct (Open_loop _ _ _ _ _) as [l| |]; res_unfold; congruence.
Qed.

(** C1, evaluated where the code departs from it.  On a primary header
    that fails [verifyPrimary], [Open] returns the Unit with a nil error;
    and after a binary table on which [loadTable] returns an error, the
    loop goes on to the next HDU and the error is lost as well. *)
Theorem Open_loses_the_error :
  ∀ pf sc,
    (∃ h, Open pf sc stream_no_bitpix = Ok ([h], None) ∧
          verifyPrimary h = Some (Errorf "No BITPIX in the primary header")) ∧
    (∃ h1 hdr b h2 b' h3,
        NewHeader pf sc (NewReader bad_table_block) = Ok (b, hdr, None) ∧
        loadTable (set_class hdr "BINTABLE") b true
          = Ok (h2, b', Some (Errorf "TFROM has invalid format (binary)")) ∧
        Open pf sc stream_bad_table = Ok ([h1; h2; h3], None)).
Proof.
  intros pf sc. split.
  - eexists. split; vm_compute; reflexivity.
  - do 6 eexists. split; [vm_compute; reflexivity|].
    split; vm_compute; reflexivity.
Qed.

(** ** The string scanner *)

(** A byte of 7-bit text is a rune of one byte, which the buffer gets
    back as it is. *)
Lemma DecodeRune_ascii c t : is_ascii c → DecodeRune (c :: t) = (byte_val c, 1%nat).
Proof.
  unfold is_ascii. intros Hc.
  destruct c as [[] [] [] [] [] [] [] []]; try reflexivity; vm_compute in Hc; discriminate.
Qed.

Lemma EncodeRune_ascii c : is_ascii c → EncodeRune (byte_val c) = [c].
Proof.
  unfold is_ascii. intros Hc.
  destruct c as [[] [] [] [] [] [] [] []]; try reflexivity; vm_compute in Hc; discriminate.
Qed.

Lemma byte_val_quote c : (byte_val c =? 39) = Ascii.eqb c "'".
Proof. destruct c as [[] [] [] [] [] [] [] []]; reflexivity. Qed.

(** A turn of the scanner on a byte of 7-bit text. *)
Lemma scanString_ascii state buf c t :
  is_ascii c →
  scanString state buf 0 (c :: t)
  = match state with
    | 0%nat =>
        if negb (Ascii.eqb c "'")
        then (""%string, Some (Errorf "String does not start with a quote"))
        else scanString 1 buf 0 t
    | 1%nat =>
        if Ascii.eqb c "'" then scanString 2 buf 0 t else scanString 1 (buf ++ [c]) 0 t
    | 2%nat =>
        if Ascii.eqb c "'" then scanString 1 (buf ++ [c]) 0 t
        else (TrimRight_space (str buf), None)
    | _ => scanString state buf 0 t
    end.
Proof.
  intros Hc. cbn [scanString].
  rewrite (DecodeRune_ascii c t Hc), (EncodeRune_ascii c Hc), byte_val_quote.
  reflexivity.
Qed.

Lemma is_ascii_quote : is_ascii "'".
Proof. reflexivity. Qed.

(** In state 1 the scanner reads a doubled quote as one quote, and a
    quote followed by another character ends the string. *)
Lemma scanString_doubled buf s c rest :
  Forall is_ascii s → is_ascii c → c ≠ "'"%char →
  scanString 1 buf 0 (doubled s ++ "'"%char :: c :: rest)
    = (TrimRight_space (str (buf ++ s)), None).
Proof.
  intros Hs Hc Hq. revert buf. induction Hs as [|a s Ha Hs IH]; intros buf.
  - cbn [doubled app]. rewrite (scanString_ascii 1 _ _ _ is_ascii_quote). cbn [Ascii.eqb Bool.eqb].
    rewrite (scanString_ascii 2 _ _ _ Hc).
    destruct (Ascii.eqb_spec c "'"); [done|]. by rewrite app_nil_r.
  - cbn [doubled]. destruct (Ascii.eqb_spec a "'") as [->|Hne].
    + cbn [app]. rewrite (scanString_ascii 1 _ _ _ is_ascii_quote). cbn [Ascii.eqb Bool.eqb].
      rewrite (scanString_ascii 2 _ _ _ is_ascii_quote). cbn [Ascii.eqb Bool.eqb].
      rewrite IH. by rewrite <- app_assoc.
    + cbn [app]. rewrite (scanString_ascii 1 _ _ _ Ha).
      destruct (Ascii.eqb_spec a "'"); [done|]. rewrite IH. by rewrite <- app_assoc.
Qed.

(** The scanner and [strings.TrimSpace] read runes: a byte that is not
    UTF-8 comes out of the scanner as the encoding of U+FFFD, and the
    no-break space U+00A0 is white space. *)
Lemma processString_reencodes :
  processString (str ("'"%char :: byte_of 0xFF :: bytes "' "))
    = (str (byte_of <$> [0xEF; 0xBF; 0xBD]), None).
Proof. vm_compute. reflexivity. Qed.

Lemma TrimSpace_no_break_space :
  TrimSpace (str (bytes " AB" ++ (byte_of <$> [0xC2; 0xA0]))) = "AB"%string.
Proof. vm_compute. reflexivity. Qed.

(** X1.  What the scanner does right: a quoted literal of 7-bit text followed
    by at least one more character of 7-bit text that is not a quote
    decodes to its text, doubled quotes read as one and trailing blanks
    trimmed. *)
Lemma processString_quoted s c rest :
  Forall is_ascii s → is_ascii c → c ≠ "'"%char →
  processString (str ("'"%char :: doubled s ++ "'"%char :: c :: rest))
    = (TrimRight_space (str s), None).
Proof.
  intros Hs Hc Hq. unfold processString, bytes, str.
  rewrite list_ascii_of_string_of_list_ascii.
  rewrite (scanString_ascii 0 _ _ _ is_ascii_quote). cbn [Ascii.eqb Bool.eqb negb].
  by rewrite (scanString_doubled [] s c rest Hs Hc Hq).
Qed.

Lemma processString_quoted_witness :
  processString "'O''Brien ' /" = ("O'Brien"%string, None).
Proof.
  apply (processString_quoted (bytes "O'Brien ") " "%char (bytes "/")).
  - repeat constructor.
  - reflexivity.
  - discriminate.
Defined.

(** C9, evaluated where the code departs from it.  The scanner accepts a
    closing quote only when another character follows it: on the literal
    ['O''Brien'] it runs off the end in state 2 and returns an error.
    [NewHeader] trims the literal before the scan, so the card whose
    literal is ['O''Brien'] and blanks loses its key; with a comment
    after the closing quote the same literal decodes to [O'Brien]. *)
Theorem processString_closing_quote_at_end :
  ∀ pf sc K,
    processString "'O''Brien'" = (""%string, Some (Errorf "String ends prematurely")) ∧
    processString "'O''Brien'  " = ("O'Brien"%string, None) ∧
    processCard pf sc K (card "NAME    = 'O''Brien'") = K ∧
    processCard pf sc K (card "NAME    = 'O''Brien' / who")
      = <["NAME"%string := VString "O'Brien"]> K.
Proof.
  intros pf sc K. repeat split; vm_compute; reflexivity.
Qed.

(** ** [Stats] and the blank predicate *)

(** C6, evaluated where the code departs from it.  [Stats] compares each
    integral pixel with the field [blank], which is 0 when the header has
    no BLANK key: in an image of the pixels 0 and 5 no pixel is blank,
    yet the minimum returned is 5.  And an image of one pixel has
    [prod = 1], on which [Stats] returns 0 and 0 without a look at the
    pixel. *)
Theorem Stats_skips_zero_pixels :
  ∀ pf sc,
    (∃ h, Open pf sc stream_zero_pixel = Ok ([h], None) ∧
          Keys h !! "BLANK"%string = None ∧
          IntAt h [0] = Ok 0 ∧ Blank h [0] = Ok false ∧
          IntAt h [1] = Ok 5 ∧ Blank h [1] = Ok false ∧
          Stats h = Ok (float64_of_int 5, float64_of_int 5)) ∧
    (∃ h, Open pf sc stream_one_pixel = Ok ([h], None) ∧
          IntAt h [0] = Ok 7 ∧ Blank h [0] = Ok false ∧
          Stats h = Ok (float_zero, float_zero)).
Proof.
  intros pf sc. split.
  - eexists. split; [vm_compute; reflexivity|]. repeat split; vm_compute; reflexivity.
  - eexists. split; [vm_compute; reflexivity|]. repeat split; vm_compute; reflexivity.
Qed.

(** ** Header cards with a bad string *)

Lemma processCard_bad_string pf sc K c :
  bad_string_card c → processCard pf sc K c = K.
Proof.
  intros (Hind & [rest Hq] & (v & e & Hs)). unfold processCard.
  rewrite Hind. cbn. rewrite Hq. cbn. rewrite Hs. reflexivity.
Qed.

(** C3 as stated fails: the literal ['M31] is left open, the scanner
    reports it, and [NewHeader] returns the Unit with a nil error and
    without the key OBJECT. *)
Lemma NewHeader_survives_open_string :
  processString "'M31" = (""%string, Some (Errorf "String ends prematurely")) ∧
  ∃ b h,
    NewHeader ParseFloat_unused Sscanf_complex_unused (NewReader open_string_block)
      = Ok (b, h, None) ∧
    Keys h !! "OBJECT"%string = None ∧
    Keys h !! "SIMPLE"%string = Some (VBool true).
Proof.
  split; [vm_compute; reflexivity|].
  do 2 eexists. split; [vm_compute; reflexivity|]. split; vm_compute; reflexivity.
Qed.

(** C3, amended.  A card whose string literal the scanner rejects is
    skipped: the keys are as if the card were not in the sequence (its
    key is not recorded and an earlier value of the key stays), and the
    cards after it are processed as usual. *)
Theorem bad_string_card_is_skipped pf sc K cs1 c cs2 :
  bad_string_card c →
  foldl (processCard pf sc) K (cs1 ++ c :: cs2)
    = foldl (processCard pf sc) K (cs1 ++ cs2).
Proof.
  intros Hbad. rewrite !foldl_app. cbn.
  rewrite (processCard_bad_string _ _ _ _ Hbad). reflexivity.
Qed.

Lemma bad_string_card_is_skipped_witness :
  foldl (processCard ParseFloat_unused Sscanf_complex_unused) ∅
      ([card "SIMPLE  =                    T"] ++ card "OBJECT  = 'M31" :: [card "END"])
    = foldl (processCard ParseFloat_unused Sscanf_complex_unused) ∅
        ([card "SIMPLE  =                    T"] ++ [card "END"]).
Proof.
  apply (bad_string_card_is_skipped ParseFloat_unused Sscanf_complex_unused ∅
           [card "SIMPLE  =                    T"] (card "OBJECT  = 'M31") [card "END"]).
  split; [vm_compute; reflexivity|].
  split; [eexists; vm_compute; reflexivity|].
  do 2 eexists; vm_compute; reflexivity.
Defined.

(** ** A header with neither SIMPLE nor XTENSION *)

(** C4 as stated fails: the unknown header is the last Unit of the
    result. *)
Lemma Open_keeps_unknown_header :
  ∃ h1 h2,
    Open ParseFloat_unused Sscanf_complex_unused stream_unknown_second
      = Ok ([h1; h2], None) ∧
    Keys h2 !! "SIMPLE"%string = None ∧
    Keys h2 !! "XTENSION"%string = None ∧
    Keys h2 !! "FOO"%string = Some (VInt 1).
Proof.
  do 2 eexists. split; [vm_compute; reflexivity|]. repeat split; vm_compute; reflexivity.
Qed.

(** C4, amended.  When the loop of [Open] parses a header that has
    neither a SIMPLE key nor an XTENSION string, it stops there and
    returns the Units decoded before it followed by the Unit of that
    header; the error of [Open] is nil. *)
Theorem Open_loop_unknown_header pf sc fuel b fits b1 h :
  IsEOF b = false →
  NewHeader pf sc b = Ok (b1, h, None) →
  Keys h !! "SIMPLE"%string = None →
  has_xtension h = false →
  Open_loop pf sc (S fuel) b fits = Ok (fits ++ [h]).
Proof.
  intros Heof Hhdr Hsimple Hxt. cbn [Open_loop]. rewrite Heof, Hhdr. res_unfold.
  rewrite Hsimple. unfold has_xtension in Hxt.
  destruct (Keys h !! "XTENSION"%string) as [[]|]; congruence.
Qed.

Lemma Open_loop_unknown_header_witness :
  ∃ b1 h,
    Open_loop ParseFloat_unused Sscanf_complex_unused 1 (NewReader unknown_block) []
      = Ok ([] ++ [h]) ∧
    NewHeader ParseFloat_unused Sscanf_complex_unused (NewReader unknown_block)
      = Ok (b1, h, None).
Proof.
  do 2 eexists. split.
  - eapply (Open_loop_unknown_header ParseFloat_unused Sscanf_complex_unused 0
              (NewReader unknown_block) []).
    + reflexivity.
    + vm_compute; reflexivity.
    + vm_compute; reflexivity.
    + vm_compute; reflexivity.
  - vm_compute; reflexivity.
Defined.

(** ** [Format] on a column that is not there *)

(** An index outside the list of fields gives the empty string. *)
Lemma Format_index_out_of_range pf so h n row :
  ¬ (0 ≤ n < Z.of_nat (length (flist h))) →
  Format pf so h (ColInt n) row = Ok ""%string.
Proof.
  intros Hn. unfold Format, column.
  destruct ((0 <=? n) && (n <? Z.of_nat (length (flist h)))) eqn:E; [|reflexivity].
  apply andb_true_iff in E as [?%Z.leb_le ?%Z.ltb_lt]. lia.
Qed.

(** C2, evaluated where the code departs from it.  For a name, [Format]
    asserts that the value of the key ["#"+name] is an int before it
    looks at the accessor: when that key is unbound, as it is for every
    name that [loadTable] did not register, the assertion panics. *)
Theorem Format_unknown_name_panics pf so h name row :
  Keys h !! ("#" +:+ name) = None →
  Format pf so h (ColString name) row
    = Panic "interface conversion: interface {} is not int".
Proof.
  intros Hkey. unfold Format, column. rewrite Hkey. reflexivity.
Qed.

Lemma Format_unknown_name_panics_witness :
  fields (unit_of stream_table 1) !! "NOPE"%string = None ∧
  Field (unit_of stream_table 1) (ColString "NOPE") = FnNull ∧
  Format ParseFloat_unused Sprintf_unused (unit_of stream_table 1) (ColString "NOPE") 0
    = Panic "interface conversion: interface {} is not int".
Proof.
  split; [vm_compute; reflexivity|]. split; [vm_compute; reflexivity|].
  apply (Format_unknown_name_panics ParseFloat_unused Sprintf_unused
           (unit_of stream_table 1) "NOPE" 0).
  vm_compute; reflexivity.
Defined.

(** ** [Format] under TDISP F10.4 *)

(** Both are within half a unit in the last place of 987.654321, that is
    of 987654321 / 10^6. *)
Lemma f987_nearest :
  2 * Z.abs (8687499281301680 * 10 ^ 6 - 987654321 * 2 ^ 43) ≤ 10 ^ 6 ∧
  2 * Z.abs (16181728 * 10 ^ 6 - 987654321 * 2 ^ 14) ≤ 10 ^ 6.
Proof. split; vm_compute; discriminate. Qed.

(** C5 as stated fails: the result has the width 10 of the directive,
    so two blanks come before the digits. *)
Lemma Format_F10_4_is_padded :
  Keys (unit_of stream_flux 1) !! "TDISP1"%string = Some (VString "F10.4") ∧
  call ParseFloat_unused (unit_of stream_flux 1)
       (Field (unit_of stream_flux 1) (ColString "FLUX")) 0 = Ok (VFloat64 f987) ∧
  Format ParseFloat_unused Sprintf_unused (unit_of stream_flux 1) (ColString "FLUX") 0
    = Ok "  987.6543"%string ∧
  Format ParseFloat_unused Sprintf_unused (unit_of stream_flux 1) (ColInt 0) 0
    = Ok "  987.6543"%string ∧
  "  987.6543"%string ≠ "987.6543"%string.
Proof.
  repeat split; try (vm_compute; reflexivity). discriminate.
Qed.

(** C5, amended.  For a cell whose value is the float (of either size)
    of 987.654321 and a field whose TDISP is F10.4, [Format] returns the
    digits 987.6543 right-justified in ten columns. *)
Theorem Format_F10_4 pf so h col row fn v :
  column h col = Ok (fn, Some (VString "F10.4")) →
  fn ≠ FnNil →
  call pf h fn row = Ok v →
  v = VFloat64 f987 ∨ v = VFloat32 f987_32 →
  Format pf so h col row = Ok "  987.6543"%string.
Proof.
  intros Hcol Hfn Hcall Hv. unfold Format. rewrite Hcol. res_unfold.
  destruct fn; [congruence| | |]; rewrite Hcall; destruct Hv as [-> | ->];
    vm_compute; reflexivity.
Qed.

Lemma Format_F10_4_witness :
  Format ParseFloat_unused Sprintf_unused (unit_of stream_flux 1) (ColInt 0) 0
    = Ok "  987.6543"%string.
Proof.
  eapply (Format_F10_4 ParseFloat_unused Sprintf_unused (unit_of stream_flux 1)
            (ColInt 0) 0).
  - vm_compute; reflexivity.
  - discriminate.
  - vm_compute; reflexivity.
  - left; reflexivity.
Defined.

(** ** [index]: the axis-0-fastest offset *)

Lemma wrap64_id z : MinInt64 ≤ z ≤ MaxInt64 → wrap64 z = z.
Proof.
  unfold MinInt64, MaxInt64, wrap64, to_signed. intros Hz.
  destruct (Z_lt_le_dec z 0) as [Hneg|Hpos].
  - replace (z mod 2 ^ 64) with (z + 2 ^ 64).
    + destruct (z + 2 ^ 64 <? 2 ^ (64 - 1)) eqn:E; [apply Z.ltb_lt in E|]; lia.
    + apply Z.mod_unique with (q := -1); lia.
  - rewrite Z.mod_small by lia.
    destruct (z <? 2 ^ (64 - 1)) eqn:E; [|apply Z.ltb_ge in E]; lia.
Qed.

Lemma pixel_offset_bounds a naxis :
  in_range a naxis → 0 ≤ pixel_offset a naxis < product naxis.
Proof.
  induction 1 as [|c n a naxis Hc _ IH]; cbn; [lia|].
  fold (pixel_offset a naxis). fold (product naxis). nia.
Qed.

Lemma product_pos a naxis : in_range a naxis → 1 ≤ product naxis.
Proof. intros H. pose proof (pixel_offset_bounds _ _ H). lia. Qed.

Lemma in_range_drop a naxis i : in_range a naxis → in_range (drop i a) (drop i naxis).
Proof. unfold in_range. apply Forall2_drop. Qed.

Lemma product_drop_le a naxis i :
  in_range a naxis → product (drop i naxis) ≤ product naxis.
Proof.
  intros H. revert i. induction H as [|c n a naxis Hc Hr IH]; intros [|i]; cbn; try lia.
  specialize (IH i). fold (product naxis).
  pose proof (product_pos _ _ Hr). unfold product in *. nia.
Qed.

(** The loop of [index] run from the axis [i] down, started on the
    offset of the axes above [i], never wraps and ends on the offset. *)
Lemma index_loop_offset a naxis i :
  in_range a naxis → product naxis ≤ MaxInt64 → (i ≤ length naxis)%nat →
  index_loop naxis a i (pixel_offset (drop i a) (drop i naxis))
    = Ok (pixel_offset a naxis).
Proof.
  intros Hr Hfit. induction i as [|i IH]; intros Hi; [rewrite !drop_0; reflexivity|].
  cbn [index_loop].
  pose proof (Forall2_length _ _ _ Hr) as Hlen.
  destruct (lookup_lt_is_Some_2 naxis i ltac:(lia)) as [n Hn].
  destruct (lookup_lt_is_Some_2 a i ltac:(lia)) as [c Hc].
  rewrite Hn, Hc.
  pose proof (pixel_offset_bounds _ _ (in_range_drop _ _ i Hr)) as Hi_bounds.
  pose proof (pixel_offset_bounds _ _ (in_range_drop _ _ (S i) Hr)) as HS_bounds.
  pose proof (product_drop_le _ _ i Hr) as Hle.
  rewrite (drop_S _ _ _ Hn) in Hi_bounds, Hle.
  rewrite (drop_S _ _ _ Hc) in Hi_bounds.
  assert (Hcn : 0 ≤ c < n).
  { pose proof (in_range_drop _ _ i Hr) as Hd.
    rewrite (drop_S _ _ _ Hn), (drop_S _ _ _ Hc) in Hd. by inversion Hd. }
  cbn in Hi_bounds, Hle.
  fold (pixel_offset (drop (S i) a) (drop (S i) naxis)) in Hi_bounds.
  fold (product (drop (S i) naxis)) in Hle.
  set (off := pixel_offset (drop (S i) a) (drop (S i) naxis)) in *.
  unfold MaxInt64 in *.
  rewrite (wrap64_id (off * n)) by (unfold MinInt64, MaxInt64; nia).
  rewrite (wrap64_id (off * n + c)) by (unfold MinInt64, MaxInt64; nia).
  rewrite <- IH by lia.
  rewrite (drop_S _ _ _ Hn), (drop_S _ _ _ Hc). reflexivity.
Qed.

(** C7, amended.  For coordinates in range, on a Unit whose number of
    elements (the product of its extents) fits an [int], [index] is the
    fold of the specification; and the image of extents 3 and 2 with
    the flat values 1 to 6 has 1 at (0,0), 3 at (2,0), 4 at (0,1) and 6
    at (2,1). *)
Theorem index_axis0_fastest pf sc h a :
  in_range a (Naxis h) →
  product (Naxis h) ≤ MaxInt64 →
  index h a = Ok (pixel_offset a (Naxis h)) ∧
  ∃ u, Open pf sc stream_image_3x2 = Ok ([u], None) ∧
       Naxis u = [3; 2] ∧
       At u [0; 0] = Ok (VUint8 1) ∧ At u [2; 0] = Ok (VUint8 3) ∧
       At u [0; 1] = Ok (VUint8 4) ∧ At u [2; 1] = Ok (VUint8 6).
Proof.
  intros Hr Hfit. split.
  - unfold index.
    pose proof (index_loop_offset a (Naxis h) (length (Naxis h)) Hr Hfit (le_n _)) as H.
    rewrite (drop_all (Naxis h)) in H.
    rewrite drop_ge in H by (rewrite (Forall2_length _ _ _ Hr); lia).
    exact H.
  - eexists. split; [vm_compute; reflexivity|]. repeat split; vm_compute; reflexivity.
Qed.

Lemma index_axis0_fastest_witness :
  index (unit_of stream_image_3x2 0) [2; 1]
    = Ok (pixel_offset [2; 1] (Naxis (unit_of stream_image_3x2 0))) ∧
  pixel_offset [2; 1] (Naxis (unit_of stream_image_3x2 0)) = 5.
Proof.
  split; [|vm_compute; reflexivity].
  apply (index_axis0_fastest ParseFloat_unused Sscanf_complex_unused
           (unit_of stream_image_3x2 0) [2; 1]).
  - replace (Naxis (unit_of stream_image_3x2 0)) with [3; 2] by (vm_compute; reflexivity).
    repeat constructor; lia.
  - vm_compute; discriminate.
Defined.

(** C7 as stated fails where the product of the extents does not fit an
    [int]: the extents 1997448962, 1119412321 and 33 multiply to
    4 * 2^64 + 2, [loadData] reads a buffer of 2 pixels, and for the
    last pixel, which is in range, [index] is 1 where the fold of the
    specification is 4 * 2^64 + 1. *)
Lemma index_wraps_on_huge_axes :
  ∃ u, Open ParseFloat_unused Sscanf_complex_unused stream_huge = Ok ([u], None) ∧
       HasImage u = true ∧
       Naxis u = [1997448962; 1119412321; 33] ∧
       Data u = DByte [byte_of 7; byte_of 9] ∧
       in_range [1997448961; 1119412320; 32] (Naxis u) ∧
       index u [1997448961; 1119412320; 32] = Ok 1 ∧
       pixel_offset [1997448961; 1119412320; 32] (Naxis u) = 73786976294838206465 ∧
       At u [1997448961; 1119412320; 32] = Ok (VUint8 9).
Proof.
  exists (unit_of stream_huge 0).
  assert (HN : Naxis (unit_of stream_huge 0) = [1997448962; 1119412321; 33])
    by (vm_compute; reflexivity).
  split; [vm_compute; reflexivity|]. split; [vm_compute; reflexivity|].
  split; [exact HN|]. split; [vm_compute; reflexivity|].
  split; [rewrite HN; repeat constructor; lia|].
  split; [vm_compute; reflexivity|]. split; vm_compute; reflexivity.
Qed.

(** ** The field loop of [loadTable] on a binary table *)

Lemma append_inj_r (p x y : string) : p +:+ x = p +:+ y → x = y.
Proof. induction p as [|c p IH]; cbn; [done|]. intros [= H]. auto. Qed.

Lemma itoa_inj a b : itoa a = itoa b → a = b.
Proof.
  unfold itoa. intros H.
  assert (Hn : ∀ z, Z.to_int z ≠ Decimal.Pos Decimal.Nil ∧ Z.to_int z ≠ Decimal.Neg Decimal.Nil).
  { intros [|p|p]; cbn; split; try discriminate;
      intros [= E]; by apply DecimalPos.Unsigned.to_uint_nonnil in E. }
  apply (f_equal NilZero.int_of_string) in H.
  rewrite !NilZero.isi in H by apply Hn.
  injection H as H. apply (f_equal Z.of_int) in H.
  by rewrite !DecimalZ.of_to in H.
Qed.

Lemma Nth_inj p a b : Nth p a = Nth p b → a = b.
Proof. unfold Nth. intros H. by apply itoa_inj, (append_inj_r p). Qed.

(** The keys that the loop writes are none of the keys TFORMn, and the
    keys TTYPEn are written for the field [n] only. *)
Lemma TFORM_not_hash k s : Nth "TFORM" k ≠ "#" +:+ s.
Proof. cbv [Nth String.append]; congruence. Qed.

Lemma TFORM_not_TTYPE k j : Nth "TFORM" k ≠ Nth "TTYPE" j.
Proof. cbv [Nth String.append]; congruence. Qed.

Lemma TFORM_not_TDISP k j : Nth "TFORM" k ≠ Nth "TDISP" j.
Proof. cbv [Nth String.append]; congruence. Qed.

Lemma TTYPE_not_hash k s : Nth "TTYPE" k ≠ "#" +:+ s.
Proof. cbv [Nth String.append]; congruence. Qed.

Lemma TTYPE_not_TDISP k j : Nth "TTYPE" k ≠ Nth "TDISP" j.
Proof. cbv [Nth String.append]; congruence. Qed.

(** What [register] does to the Unit. *)
Lemma register_spec h i fn disp h1 :
  register h i fn disp = Ok h1 →
  flist h1 = <[Z.to_nat i := fn]> (flist h) ∧
  Data h1 = Data h ∧ Naxis h1 = Naxis h ∧
  (∀ k, (∀ s, k ≠ "#" +:+ s) → k ≠ Nth "TTYPE" (i + 1) → k ≠ Nth "TDISP" (i + 1) →
        Keys h1 !! k = Keys h !! k) ∧
  ((∃ name, Keys h !! Nth "TTYPE" (i + 1) = Some (VString name) ∧
            fields h1 = <[name := fn]> (fields h))
   ∨ (Keys h !! Nth "TTYPE" (i + 1) = None ∧ fields h1 = fields h)).
Proof.
  unfold register. intros H.
  destruct (Keys h !! Nth "TTYPE" (i + 1)) as [v|] eqn:Ht.
  - destruct v; try discriminate. res_unfold.
    injection H as <-. cbn. repeat split.
    + intros k Hh Ht' Hd.
      destruct (_ !! Nth "TDISP" (i + 1));
        rewrite ?lookup_insert_ne; auto; apply not_eq_sym, Hh.
    + left. eauto.
  - res_unfold. injection H as <-. cbn. repeat split.
    + intros k Hh Ht' Hd.
      destruct (_ !! Nth "TDISP" (i + 1)); rewrite ?lookup_insert_ne; auto.
    + right. auto.
Qed.

Lemma elem_at_nat {A} (l : list A) (j : nat) :
  elem_at l (Z.of_nat j)
    = match l !! j with Some x => Ok x | None => Panic "index out of range" end.
Proof.
  unfold elem_at. destruct (Z.of_nat j <? 0) eqn:E; [apply Z.ltb_lt in E; lia|].
  by rewrite Nat2Z.id.
Qed.

(** An induction principle for the loop on a binary table: a property
    of the field number, the byte cursor and the Unit that holds at the
    start and is kept by a turn that skips the field (repeat not
    positive) and by a turn that lays it out, holds at the end, which is
    the last field when the loop reports no error. *)
Lemma loadTable_loop_bin_ind (P : Z → Z → Unit → Prop) (top : Z) :
  (∀ i col h form j,
      0 ≤ i < top → P i col h →
      Keys h !! Nth "TFORM" (i + 1) = Some (VString form) →
      IndexAny form type_codes = Some j →
      binRepeat form j ≤ 0 →
      P (i + 1) col h) →
  (∀ i col h form j code l disp h1,
      0 ≤ i < top → P i col h →
      Keys h !! Nth "TFORM" (i + 1) = Some (VString form) →
      IndexAny form type_codes = Some j →
      0 < binRepeat form j →
      bytes form !! j = Some code →
      binLayout code (binRepeat form j) = Ok (l, disp) →
      register h i (FnBin code (binRepeat form j) col) disp = Ok h1 →
      P (i + 1) (wrap64 (col + wrap64 (l * binRepeat form j))) h1) →
  ∀ count i col h h' err,
    0 ≤ i → i + Z.of_nat count = top → P i col h →
    loadTable_loop true count i col h = Ok (h', err) →
    ∃ i' col', i ≤ i' ≤ top ∧ P i' col' h' ∧ (err = None → i' = top).
Proof.
  intros Hskip Hlay. induction count as [|count IH]; intros i col h h' err Hi Htop HP Hrun.
  - cbn in Hrun. inversion Hrun; subst. exists i, col. split; [lia|]. split; [done|lia].
  - cbn [loadTable_loop] in Hrun.
    destruct (Keys h !! Nth "TFORM" (i + 1)) as [[]|] eqn:Hform; try discriminate.
    res_unfold. cbn [assert_string] in Hrun. fold type_codes in Hrun.
    destruct (IndexAny s type_codes) as [j|] eqn:Hj.
    + destruct (0 <? binRepeat s j) eqn:Hrep.
      * apply Z.ltb_lt in Hrep.
        rewrite elem_at_nat in Hrun.
        destruct (bytes s !! j) as [code|] eqn:Hcode; [|discriminate].
        unfold accessorBin in Hrun. res_unfold.
        destruct (fieldReader h); try discriminate.
        destruct (binLayout code (binRepeat s j)) as [[l disp]| |] eqn:Hlayout;
          try discriminate.
        destruct (register h i _ disp) as [h1| |] eqn:Hreg; try discriminate.
        destruct (IH (i + 1) _ _ _ _ ltac:(lia) ltac:(lia)
                    (Hlay i col h s j code l disp h1 ltac:(lia) HP Hform Hj Hrep Hcode Hlayout Hreg)
                    Hrun)
          as (i' & col' & Hi' & HP').
        exists i', col'. split; [lia|done].
      * apply Z.ltb_ge in Hrep.
        destruct (IH (i + 1) _ _ _ _ ltac:(lia) ltac:(lia)
                    (Hskip i col h s j ltac:(lia) HP Hform Hj Hrep) Hrun)
          as (i' & col' & Hi' & HP').
        exists i', col'. split; [lia|done].
    + inversion Hrun; subst. exists i, col. split; [lia|]. split; [done|discriminate].
Qed.

(** The start of the loop in [loadTable]. *)
Lemma loadTable_start h b binary h' b' err :
  loadTable h b binary = Ok (h', b', err) →
  ∃ tfields data,
    Keys h !! "TFIELDS"%string = Some (VInt tfields) ∧ 0 ≤ tfields ∧
    loadTable_loop binary (Z.to_nat tfields) 0 0
      (set_table h (DByte data) (replicate (Z.to_nat tfields) FnNil) ∅ (Keys h))
      = Ok (h', err).
Proof.
  unfold loadTable. intros H.
  destruct (Keys h !! "TFIELDS"%string) as [[]|] eqn:Hn; try discriminate.
  res_unfold. cbn [assert_int] in H.
  destruct (n <? 0) eqn:Hneg; [discriminate|]. apply Z.ltb_ge in Hneg.
  destruct (Naxis h) as [|width [|rows ?]]; try discriminate.
  destruct (wrap64 (width * rows) <? 0); [discriminate|].
  destruct (Read b _) as [[b1 data]| |]; try discriminate.
  destruct (loadTable_loop _ _ _ _ _) as [[h2 e]| |] eqn:Hloop; try discriminate.
  inversion H; subst. exists n, data. auto.
Qed.

(** ** The row offsets of a binary table *)

Lemma binLayout_size code r l disp :
  binLayout code r = Ok (l, disp) → l = element_size code ∧ 0 ≤ l.
Proof.
  destruct code as [[] [] [] [] [] [] [] []]; cbn; intros [= <- _]; split; lia.
Qed.

Lemma element_size_nonneg code : 0 ≤ element_size code.
Proof. destruct code as [[] [] [] [] [] [] [] []]; cbn; lia. Qed.

Lemma indexWhere_lookup f l j :
  indexWhere f l = Some j → ∃ c, l !! j = Some c.
Proof.
  revert j. induction l as [|c l IH]; intros j; cbn; [discriminate|].
  destruct (f c).
  - intros [= <-]. eauto.
  - destruct (indexWhere f l) as [j'|]; cbn; [|discriminate].
    intros [= <-]. cbn. eauto.
Qed.

Lemma binForm_of_form K i form j :
  K !! Nth "TFORM" (i + 1) = Some (VString form) →
  IndexAny form type_codes = Some j →
  ∃ code, bytes form !! j = Some code ∧ binForm K i = Some (code, binRepeat form j).
Proof.
  intros Hform Hj. unfold binForm. rewrite Hform, Hj.
  destruct (indexWhere_lookup _ _ _ Hj) as [code Hcode].
  exists code. by rewrite Hcode.
Qed.

Lemma laid_bytes_nonneg K k : 0 ≤ laid_bytes K k.
Proof.
  unfold laid_bytes. destruct (binForm K k) as [[code r]|]; [|lia].
  destruct (0 <? r) eqn:E; [|lia]. apply Z.ltb_lt in E.
  pose proof (element_size_nonneg code). nia.
Qed.

Lemma laid_offset_nonneg K i : 0 ≤ laid_offset K i.
Proof.
  induction i as [|i IH]; cbn [laid_offset]; [lia|].
  pose proof (laid_bytes_nonneg K (Z.of_nat i)). lia.
Qed.

Lemma laid_offset_mono K i k : (i ≤ k)%nat → laid_offset K i ≤ laid_offset K k.
Proof.
  induction 1 as [|k Hle IH]; [lia|]. cbn [laid_offset].
  pose proof (laid_bytes_nonneg K (Z.of_nat k)). lia.
Qed.

(** Where no field before the field [i] declares a negative repeat
    count, the offset is the sum that the specification writes. *)
Lemma laid_offset_row_offset K i :
  (∀ k code r, (k < i)%nat → binForm K (Z.of_nat k) = Some (code, r) → 0 ≤ r) →
  laid_offset K i = row_offset K i.
Proof.
  induction i as [|i IH]; intros Hnn; [reflexivity|].
  cbn [laid_offset row_offset]. rewrite IH by (intros k code r Hk; apply Hnn; lia).
  f_equal. unfold laid_bytes, field_bytes.
  destruct (binForm K (Z.of_nat i)) as [[code r]|] eqn:E; [|reflexivity].
  pose proof (Hnn i code r ltac:(lia) E).
  destruct (0 <? r) eqn:Hr; [reflexivity|]. apply Z.ltb_ge in Hr.
  assert (r = 0) as -> by lia. lia.
Qed.

Section Layout.

Variable K0 : gmap string Value.
Variable top : Z.

(** The bytes of the fields together fit an [int]. *)
Hypothesis row_fits : laid_offset K0 (Z.to_nat top) ≤ MaxInt64.

Lemma layout_inv_skip i col h form j :
  0 ≤ i < top → layout_inv K0 top i col h →
  Keys h !! Nth "TFORM" (i + 1) = Some (VString form) →
  IndexAny form type_codes = Some j →
  binRepeat form j ≤ 0 →
  layout_inv K0 top (i + 1) col h.
Proof.
  intros Hi (Htf & Hcol & Hcodes & Hfl) Hform Hj Hrep. rewrite Htf in Hform.
  destruct (binForm_of_form _ _ _ _ Hform Hj) as (code & Hcode & Hbf).
  unfold layout_inv. replace (Z.to_nat (i + 1)) with (S (Z.to_nat i)) by lia.
  split; [done|]. split; [|split].
  - cbn [laid_offset]. rewrite Z2Nat.id by lia. unfold laid_bytes. rewrite Hbf.
    destruct (0 <? binRepeat form j) eqn:E; [apply Z.ltb_lt in E|]; lia.
  - intros k Hk. destruct (decide (k = i)) as [->|Hne]; [by rewrite Hbf|].
    apply Hcodes. lia.
  - rewrite Hfl, seq_S, fmap_app, <- app_assoc. f_equal. cbn.
    replace (Z.to_nat top - Z.to_nat i)%nat with (S (Z.to_nat top - S (Z.to_nat i))) by lia.
    cbn. f_equal. unfold laid_entry. rewrite Z2Nat.id by lia. rewrite Hbf.
    destruct (0 <? binRepeat form j) eqn:E; [apply Z.ltb_lt in E; lia|done].
Qed.

Lemma layout_inv_lay i col h form j code l disp h1 :
  0 ≤ i < top → layout_inv K0 top i col h →
  Keys h !! Nth "TFORM" (i + 1) = Some (VString form) →
  IndexAny form type_codes = Some j →
  0 < binRepeat form j →
  bytes form !! j = Some code →
  binLayout code (binRepeat form j) = Ok (l, disp) →
  register h i (FnBin code (binRepeat form j) col) disp = Ok h1 →
  layout_inv K0 top (i + 1) (wrap64 (col + wrap64 (l * binRepeat form j))) h1.
Proof.
  intros Hi (Htf & Hcol & Hcodes & Hfl) Hform Hj Hrep Hcode Hlay Hreg. rewrite Htf in Hform.
  destruct (binForm_of_form _ _ _ _ Hform Hj) as (code' & Hcode' & Hbf).
  assert (code' = code) as -> by congruence.
  destruct (binLayout_size _ _ _ _ Hlay) as [-> Hl].
  destruct (register_spec _ _ _ _ _ Hreg) as (Hlist & _ & _ & Hkeys & _).
  assert (Hpos : (0 <? binRepeat form j) = true) by (apply Z.ltb_lt; lia).
  assert (Hnext : laid_offset K0 (S (Z.to_nat i))
                  = col + element_size code * binRepeat form j).
  { cbn [laid_offset]. rewrite Z2Nat.id by lia. unfold laid_bytes.
    rewrite Hbf, Hpos. subst col. lia. }
  pose proof (laid_offset_mono K0 (S (Z.to_nat i)) (Z.to_nat top) ltac:(lia)).
  pose proof (laid_offset_nonneg K0 (Z.to_nat i)).
  unfold layout_inv. replace (Z.to_nat (i + 1)) with (S (Z.to_nat i)) by lia.
  split; [|split; [|split]].
  - intros k. rewrite Hkeys; [apply Htf|..].
    + intros s. apply TFORM_not_hash.
    + apply TFORM_not_TTYPE.
    + apply TFORM_not_TDISP.
  - rewrite Hnext.
    rewrite (wrap64_id (element_size code * binRepeat form j))
      by (unfold MinInt64, MaxInt64 in *; nia).
    apply wrap64_id. unfold MinInt64, MaxInt64 in *. nia.
  - intros k Hk. destruct (decide (k = i)) as [->|Hne]; [by rewrite Hbf|].
    apply Hcodes. lia.
  - rewrite Hlist, Hfl, seq_S, fmap_app, <- app_assoc.
    rewrite insert_app_r_alt by (rewrite length_fmap, length_seq; lia).
    f_equal. rewrite length_fmap, length_seq, Nat.sub_diag.
    replace (Z.to_nat top - Z.to_nat i)%nat with (S (Z.to_nat top - S (Z.to_nat i))) by lia.
    cbn. f_equal. unfold laid_entry. rewrite Z2Nat.id by lia.
    rewrite Hbf, Hpos. by subst col.
Qed.

Lemma layout_inv_end count h h' err :
  Z.of_nat count = top →
  Keys h = K0 →
  flist h = replicate count FnNil →
  loadTable_loop true count 0 0 h = Ok (h', err) →
  ∃ n, (n ≤ count)%nat ∧ (err = None → n = count) ∧
       (∀ k, (k < n)%nat → is_Some (binForm K0 (Z.of_nat k))) ∧
       flist h' = (laid_entry K0 <$> seq 0 n) ++ replicate (count - n) FnNil.
Proof.
  intros Hcount HK Hnil Hrun.
  destruct (loadTable_loop_bin_ind (layout_inv K0 top) top layout_inv_skip layout_inv_lay
              count 0 0 h h' err ltac:(lia) ltac:(lia))
    as (i' & col' & Hi' & (_ & _ & Hcodes & Hfl) & Herr); [|done|].
  - split; [by rewrite HK|]. split; [done|]. split; [intros k Hk; lia|].
    rewrite Hnil. replace (Z.to_nat top - Z.to_nat 0)%nat with count by lia. reflexivity.
  - exists (Z.to_nat i'). split; [lia|]. split; [intros E; rewrite (Herr E); lia|].
    split; [intros k Hk; apply Hcodes; lia|].
    rewrite Hfl. do 2 f_equal. lia.
Qed.

End Layout.

(** C8, amended.  In a binary table whose fields together fit an [int],
    the loader lays out the declared fields in order, up to the last
    one when it reports no error: the list of accessors holds, for each
    field with a positive repeat count, the accessor of its code and
    repeat count at the offset that is the sum of repeat times element
    size over the fields declared before it with a positive repeat
    count, and nil for a field whose repeat count is zero or negative,
    which takes no bytes.  That sum is the sum over all the fields
    declared before it where none of them declares a negative repeat
    count; and the fields [3I] and [1J] give the second one the
    offset 6. *)
Theorem binary_field_offsets pf sc h b h' b' err tfields :
  loadTable h b true = Ok (h', b', err) →
  Keys h !! "TFIELDS"%string = Some (VInt tfields) →
  laid_offset (Keys h) (Z.to_nat tfields) ≤ MaxInt64 →
  (∃ n, (n ≤ Z.to_nat tfields)%nat ∧ (err = None → n = Z.to_nat tfields) ∧
        (∀ k, (k < n)%nat → is_Some (binForm (Keys h) (Z.of_nat k))) ∧
        flist h' = (laid_entry (Keys h) <$> seq 0 n)
                     ++ replicate (Z.to_nat tfields - n) FnNil) ∧
  (∀ i, (∀ k code r, (k < i)%nat → binForm (Keys h) (Z.of_nat k) = Some (code, r) → 0 ≤ r) →
        laid_offset (Keys h) i = row_offset (Keys h) i) ∧
  ∃ u1 u2, Open pf sc stream_table = Ok ([u1; u2], None) ∧
           flist u2 = [FnBin "I" 3 0; FnBin "J" 1 6].
Proof.
  intros Hload Htf Hfit. split; [|split].
  - destruct (loadTable_start _ _ _ _ _ _ Hload) as (n & data & Hn & Hn0 & Hloop).
    assert (n = tfields) as -> by congruence.
    eapply (layout_inv_end (Keys h) tfields Hfit (Z.to_nat tfields)); [lia|..|exact Hloop].
    + reflexivity.
    + reflexivity.
  - apply laid_offset_row_offset.
  - do 2 eexists. split; vm_compute; reflexivity.
Qed.

Lemma binary_field_offsets_witness :
  flist (table_of table_src true) = [FnBin "I" 3 0; FnBin "J" 1 6] ∧
  row_offset (Keys (header_of table_src).2) 1 = 6.
Proof.
  assert (Hrun : ∃ b', loadTable (header_of table_src).2 (header_of table_src).1 true
                       = Ok (table_of table_src true, b', None))
    by (eexists; vm_compute; reflexivity).
  destruct Hrun as [b' Hrun].
  assert (Hk : laid_entry (Keys (header_of table_src).2) <$> seq 0 2
               = [FnBin "I" 3 0; FnBin "J" 1 6]) by (vm_compute; reflexivity).
  rewrite <- Hk.
  destruct (binary_field_offsets ParseFloat_unused Sscanf_complex_unused
              (header_of table_src).2 (header_of table_src).1 _ _ None 2 Hrun)
    as ((n & _ & Hn & _ & Hl) & _ & _).
  - vm_compute; reflexivity.
  - vm_compute; discriminate.
  - rewrite (Hn eq_refl) in Hl. split; [|vm_compute; reflexivity].
    etransitivity; [exact Hl|]. apply app_nil_r.
Defined.

(** C8 as stated fails on a negative repeat count: the field [-2I] is
    skipped and takes no bytes, so that the accessor of the field [1J]
    after it has the offset 0 and reads the first four bytes of the
    row, where repeat times element size of the field before it is
    -4. *)
Lemma negative_repeat_takes_no_bytes :
  ∃ u1 u2,
    Open ParseFloat_unused Sscanf_complex_unused stream_negative = Ok ([u1; u2], None) ∧
    binForm (Keys u2) 0 = Some ("I"%char, -2) ∧
    binForm (Keys u2) 1 = Some ("J"%char, 1) ∧
    flist u2 = [FnNil; FnBin "J" 1 0] ∧
    call ParseFloat_unused u2 (Field u2 (ColInt 1)) 0 = Ok (VInt32 256) ∧
    row_offset (Keys u2) 1 = -4.
Proof.
  exists (unit_of stream_negative 0), (unit_of stream_negative 1).
  vm_compute. repeat split.
Qed.

(** ** A binary column of repeat 0 *)

Section Names.

Variable K0 : gmap string Value.
Variable top : Z.
Variable n : nat.

Lemma names_inv_skip i col h form j :
  0 ≤ i < top → names_inv K0 n i col h →
  Keys h !! Nth "TFORM" (i + 1) = Some (VString form) →
  IndexAny form type_codes = Some j →
  binRepeat form j ≤ 0 →
  names_inv K0 n (i + 1) col h.
Proof.
  intros Hi (Htf & Htt & Hfields & Hlist & Hlen) _ _ _.
  split; [done|]. split; [intros k Hk; apply Htt; lia|].
  split; [|done].
  intros nm fn Hnm. destruct (Hfields _ _ Hnm) as (k & Hk & ?). exists k. split; [lia|done].
Qed.

Lemma names_inv_lay i col h form j code l disp h1 :
  0 ≤ i < top → names_inv K0 n i col h →
  Keys h !! Nth "TFORM" (i + 1) = Some (VString form) →
  IndexAny form type_codes = Some j →
  0 < binRepeat form j →
  bytes form !! j = Some code →
  binLayout code (binRepeat form j) = Ok (l, disp) →
  register h i (FnBin code (binRepeat form j) col) disp = Ok h1 →
  names_inv K0 n (i + 1) (wrap64 (col + wrap64 (l * binRepeat form j))) h1.
Proof.
  intros Hi (Htf & Htt & Hfields & Hlist & Hlen) Hform Hj Hrep Hcode _ Hreg.
  rewrite Htf in Hform.
  destruct (binForm_of_form _ _ _ _ Hform Hj) as (code' & Hcode' & Hbf).
  assert (Hlaid : laid_out K0 i) by (exists code', (binRepeat form j); done).
  destruct (register_spec _ _ _ _ _ Hreg) as (Hl1 & _ & _ & Hkeys & Hf1).
  split; [|split; [|split; [|split]]].
  - intros k. rewrite Hkeys; [apply Htf|..].
    + intros s. apply TFORM_not_hash.
    + apply TFORM_not_TTYPE.
    + apply TFORM_not_TDISP.
  - intros k Hk. rewrite Hkeys; [apply Htt; lia|..].
    + intros s. apply TTYPE_not_hash.
    + intros E%Nth_inj. lia.
    + apply TTYPE_not_TDISP.
  - intros nm fn Hnm. destruct Hf1 as [(name & Hname & Hf)|[_ Hf]]; rewrite Hf in Hnm.
    + destruct (decide (nm = name)) as [->|Hne].
      * exists i. split; [lia|]. split; [|done]. rewrite <- Htt by lia. done.
      * rewrite lookup_insert_ne in Hnm by done.
        destruct (Hfields _ _ Hnm) as (k & Hk & ?). exists k. split; [lia|done].
    + destruct (Hfields _ _ Hnm) as (k & Hk & ?). exists k. split; [lia|done].
  - intros k fn Hk. rewrite Hl1 in Hk.
    destruct (decide (k = Z.to_nat i)) as [->|Hne].
    + right. by rewrite Z2Nat.id by lia.
    + rewrite list_lookup_insert_ne in Hk by done. eauto.
  - by rewrite Hl1, length_insert.
Qed.

Lemma names_inv_end count h h' err :
  Z.of_nat count = top →
  Keys h = K0 → fields h = ∅ → flist h = replicate n FnNil →
  loadTable_loop true count 0 0 h = Ok (h', err) →
  ∃ i col, i ≤ top ∧ names_inv K0 n i col h'.
Proof.
  intros Hcount HK Hf Hl Hrun.
  destruct (loadTable_loop_bin_ind (names_inv K0 n) top names_inv_skip names_inv_lay
              count 0 0 h h' err ltac:(lia) ltac:(lia)) as (i' & col' & ? & Hinv & _);
    [|done|].
  - split; [by rewrite HK|]. split; [by rewrite HK|]. split; [|split].
    + intros nm fn. by rewrite Hf, lookup_empty.
    + intros k fn. rewrite Hl. intros [-> _]%lookup_replicate. by left.
    + by rewrite Hl, length_replicate.
  - exists i', col'. split; [lia|done].
Qed.

End Names.

(** C10, amended.  When the TFORM of a field of a binary table has the
    repeat count 0, the loader leaves the entry of the field in the list
    nil, and does not enter its TTYPE name in the map for it: provided
    no other declared field of the same name has a positive repeat
    count, [Field] with the name returns the accessor that yields nil on
    every row, and [Field] with the index returns the nil entry. *)
Theorem repeat_zero_column_vanishes pf h b h' b' err tfields i form j name :
  loadTable h b true = Ok (h', b', err) →
  Keys h !! "TFIELDS"%string = Some (VInt tfields) →
  0 ≤ i < tfields →
  Keys h !! Nth "TFORM" (i + 1) = Some (VString form) →
  IndexAny form type_codes = Some j →
  binRepeat form j = 0 →
  Keys h !! Nth "TTYPE" (i + 1) = Some (VString name) →
  (∀ k code r, 0 ≤ k < tfields → k ≠ i →
        Keys h !! Nth "TTYPE" (k + 1) = Some (VString name) →
        binForm (Keys h) k = Some (code, r) → r ≤ 0) →
  fields h' !! name = None ∧
  Field h' (ColString name) = FnNull ∧
  (∀ row, call pf h' (Field h' (ColString name)) row = Ok VNil) ∧
  flist h' !! Z.to_nat i = Some FnNil ∧
  Field h' (ColInt i) = FnNil.
Proof.
  intros Hload Htf Hi Hform Hj Hrep Hname Huniq.
  destruct (loadTable_start _ _ _ _ _ _ Hload) as (n & data & Hn & Hn0 & Hloop).
  assert (n = tfields) as -> by congruence.
  destruct (names_inv_end (Keys h) tfields (Z.to_nat tfields) (Z.to_nat tfields)
              (set_table h (DByte data) (replicate (Z.to_nat tfields) FnNil) ∅ (Keys h))
              h' err ltac:(lia) eq_refl eq_refl eq_refl Hloop)
    as (i' & col' & Hi' & (_ & _ & Hfields & Hlist & Hlen)).
  destruct (binForm_of_form _ _ _ _ Hform Hj) as (code & _ & Hbf).
  assert (Hnot : ¬ laid_out (Keys h) i).
  { intros (cd & r & Hbf' & Hr). rewrite Hbf in Hbf'. injection Hbf' as _ <-. lia. }
  assert (Hnone : fields h' !! name = None).
  { destruct (fields h' !! name) as [fn|] eqn:E; [|done].
    destruct (Hfields _ _ E) as (k & Hk & Hkname & Hlaid).
    destruct (decide (k = i)) as [->|Hne]; [done|].
    destruct Hlaid as (cd & r & Hbf' & Hr).
    pose proof (Huniq k cd r ltac:(lia) Hne Hkname Hbf'). lia. }
  assert (Hnil : flist h' !! Z.to_nat i = Some FnNil).
  { destruct (lookup_lt_is_Some_2 (flist h') (Z.to_nat i) ltac:(lia)) as [fn Hfn].
    destruct (Hlist _ _ Hfn) as [->|Hlaid]; [done|].
    rewrite Z2Nat.id in Hlaid by lia. done. }
  assert (HField : Field h' (ColString name) = FnNull).
  { unfold Field. by rewrite Hnone. }
  split; [done|]. split; [done|]. split; [by rewrite HField|]. split; [done|].
  unfold Field. rewrite Hnil, Hlen.
  destruct ((0 <=? i) && (i <? Z.of_nat (Z.to_nat tfields))) eqn:E; [done|].
  apply andb_false_iff in E as [E%Z.leb_gt|E%Z.ltb_ge]; lia.
Qed.

Lemma repeat_zero_column_vanishes_witness :
  ∃ h' b',
    loadTable (header_of vanishing_src).2 (header_of vanishing_src).1 true
      = Ok (h', b', None) ∧
    fields h' !! "GONE"%string = None ∧
    Field h' (ColString "GONE") = FnNull ∧
    (∀ row, call ParseFloat_unused h' (Field h' (ColString "GONE")) row = Ok VNil) ∧
    flist h' !! Z.to_nat 1 = Some FnNil ∧
    Field h' (ColInt 1) = FnNil.
Proof.
  do 2 eexists. split; [vm_compute; reflexivity|].
  eapply (repeat_zero_column_vanishes ParseFloat_unused
            (header_of vanishing_src).2 (header_of vanishing_src).1 _ _ _ 3 1 "0B" 1 "GONE").
  - vm_compute; reflexivity.
  - vm_compute; reflexivity.
  - lia.
  - vm_compute; reflexivity.
  - vm_compute; reflexivity.
  - vm_compute; reflexivity.
  - vm_compute; reflexivity.
  - intros k code r Hk Hne. assert (k = 0 ∨ k = 2) as [-> | ->] by lia;
      vm_compute; discriminate.
Defined.

(** C10 as stated fails when a second field carries the name: the field
    [0B] named X is followed by the field [1J] named X, whose accessor
    is entered under the name, so that [Field] with the name of the
    vanished column returns an accessor that yields 256 on the row. *)
Lemma twin_name_finds_an_accessor :
  ∃ u1 u2,
    Open ParseFloat_unused Sscanf_complex_unused stream_twin = Ok ([u1; u2], None) ∧
    Keys u2 !! "TFORM1"%string = Some (VString "0B") ∧
    Keys u2 !! "TTYPE1"%string = Some (VString "X") ∧
    flist u2 = [FnNil; FnBin "J" 1 0] ∧
    fields u2 !! "X"%string = Some (FnBin "J" 1 0) ∧
    Field u2 (ColString "X") = FnBin "J" 1 0 ∧
    call ParseFloat_unused u2 (Field u2 (ColString "X")) 0 = Ok (VInt32 256) ∧
    Field u2 (ColInt 0) = FnNil.
Proof.
  exists (unit_of stream_twin 0), (unit_of stream_twin 1).
  vm_compute. repeat split.
Qed.

(** ** The recursion budgets are enough

    [Read], [NewHeader] and [Open] give their loops as many turns as the
    source has bytes left (one more for [Open]); a turn that goes on has
    taken at least one byte from the source, so the budget is never the
    reason a loop ends. *)

Lemma returns_bind {A B} (r : Res A) (k : A → Res B) (Q : A → Prop) (R : B → Prop) :
  returns r Q → (∀ a, Q a → returns (k a) R) → returns (r ≫= k) R.
Proof. destruct r; cbn; auto. Qed.

Lemma returns_weaken {A} (r : Res A) (Q R : A → Prop) :
  returns r Q → (∀ a, Q a → R a) → returns r R.
Proof. destruct r; cbn; auto. Qed.

Lemma after_refl b : paged b → after b b.
Proof. by split. Qed.

Lemma after_trans b b1 b2 : after b b1 → after b1 b2 → after b b2.
Proof. intros [? ?] [? ?]. split; [done|lia]. Qed.

Lemma after_same b b1 :
  paged b → length (buf b1) = length (buf b) → (remaining b1 ≤ remaining b)%nat →
  after b b1.
Proof. unfold after, paged. intros ? -> ?. done. Qed.

Lemma src_Read_length src p :
  length (src_Read src p).1.1.2 = length p ∧
  (length (src_Read src p).1.1.1 ≤ length src)%nat ∧
  ((src_Read src p).2 = None → (0 < length p)%nat →
   (length (src_Read src p).1.1.1 < length src)%nat).
Proof.
  destruct src as [|c src]; cbn [src_Read fst snd]; [split; [done|split; [done|done]]|].
  rewrite length_app, length_take, length_drop, length_drop. cbn [length].
  split; [lia|]. split; lia.
Qed.

Lemma Read_loop_returns fuel b p n :
  paged b → (remaining b ≤ fuel)%nat →
  returns (Read_loop fuel b p n) (λ r, after b r.1).
Proof.
  revert b p n. induction fuel as [|fuel IH]; intros b p n Hp Hf;
    cbn [Read_loop]; (destruct (_ || _); [done|]);
    (destruct (_ =? _)%nat; [by apply after_same|]);
    cbn [reader buf elem eof set_left];
    unfold remaining in Hf; destruct (reader b) as [src|] eqn:Hsrc; try done;
    pose proof (src_Read_length src (buf b)) as (Hlen & Hle & Hlt);
    destruct (src_Read src (buf b)) as [[[src' buf'] r] err]; cbn [fst snd] in *.
  - destruct err; [|specialize (Hlt eq_refl Hp); lia].
    apply after_same; [done|done|]. unfold remaining. rewrite Hsrc. cbn. lia.
  - destruct err.
    + apply after_same; [done|done|]. unfold remaining. rewrite Hsrc. cbn. lia.
    + specialize (Hlt eq_refl Hp). eapply returns_weaken.
      * apply IH; [unfold paged in *; cbn; lia|unfold remaining; cbn; lia].
      * intros [b1 p1] [Hp1 Hr1]. cbn in *. split; [done|].
        unfold remaining in *. rewrite Hsrc. cbn in Hr1. lia.
Qed.

Lemma Read_returns b p : paged b → returns (Read b p) (λ r, after b r.1).
Proof. intros Hp. by apply Read_loop_returns. Qed.

Lemma ReadElem_returns b n : paged b → returns (ReadElem b n) (λ r, after b r.1).
Proof.
  intros Hp. unfold ReadElem. eapply returns_bind; [by apply Read_returns|].
  intros [b1 p] Hb1. cbn. exact Hb1.
Qed.

Lemma steady_elem {T} n (f : list ascii → T) :
  steady (λ b, '(b1, p) ← ReadElem b n; mret (b1, f p)).
Proof.
  intros b Hp. eapply returns_bind; [by apply ReadElem_returns|].
  intros [b1 p] Hb1. cbn. exact Hb1.
Qed.

Lemma steady_ReadByte : steady ReadByte.
Proof. apply (steady_elem 1). Qed.
Lemma steady_ReadBool : steady ReadBool.
Proof. apply (steady_elem 1). Qed.
Lemma steady_ReadInt16 : steady ReadInt16.
Proof. apply (steady_elem 2). Qed.
Lemma steady_ReadInt32 : steady ReadInt32.
Proof. apply (steady_elem 4). Qed.
Lemma steady_ReadInt64 : steady ReadInt64.
Proof. apply (steady_elem 8). Qed.
Lemma steady_ReadFloat32 : steady ReadFloat32.
Proof. apply (steady_elem 4). Qed.
Lemma steady_ReadFloat64 : steady ReadFloat64.
Proof. apply (steady_elem 8). Qed.

Lemma read_n_returns {T} (rd : Reader → Res (Reader * T)) n b :
  steady rd → paged b → returns (read_n rd n b) (λ r, after b r.1).
Proof.
  intros Hrd. revert b. induction n as [|n IH]; intros b Hp; cbn [read_n].
  - by apply after_refl.
  - eapply returns_bind; [by apply Hrd|]. intros [b1 x] Hb1.
    eapply returns_bind; [apply IH, Hb1|]. intros [b2 xs] Hb2. cbn in *.
    by eapply after_trans.
Qed.

Lemma read_pixels_returns {T} (rd : Reader → Res (Reader * T)) prod b :
  steady rd → paged b → returns (read_pixels rd prod b) (λ r, after b r.1).
Proof.
  intros Hrd Hp. unfold read_pixels. destruct (prod <? 0); [done|].
  by apply read_n_returns.
Qed.

Lemma assert_int_returns v : returns (assert_int v) (λ _, True).
Proof. by destruct v as [[]|]. Qed.

Lemma assert_string_returns v : returns (assert_string v) (λ _, True).
Proof. by destruct v as [[]|]. Qed.

Lemma loadData_returns h b :
  paged b → returns (loadData h b) (λ r, after b r.1.2).
Proof.
  intros Hp. unfold loadData. destruct (Naxis h); [by apply after_refl|].
  eapply returns_bind; [apply assert_int_returns|]. intros bitpix _.
  eapply returns_bind with (Q := λ r, after b r.2).
  - destruct bitpix as [|q|q]; [by apply after_refl| |];
      repeat (destruct q as [q|q|]; try by apply after_refl);
      (eapply returns_bind; [apply read_pixels_returns; [|done]|]);
      first [apply steady_ReadByte | apply steady_ReadInt16 | apply steady_ReadInt32
            | apply steady_ReadInt64 | apply steady_ReadFloat32 | apply steady_ReadFloat64
            | idtac];
      try (intros [b1 d] Hb1; exact Hb1).
  - intros [h1 b1] Hb1. cbn [snd] in Hb1.
    destruct (_ && _).
    + eapply returns_bind; [apply assert_int_returns|]. intros bl _. exact Hb1.
    + destruct (_ <? _); exact Hb1.
Qed.

Lemma binLayout_returns code repeat : returns (binLayout code repeat) (λ _, True).
Proof. by destruct code as [[] [] [] [] [] [] [] []]. Qed.

Lemma accessorBin_returns h code repeat col :
  returns (accessorBin h code repeat col) (λ _, True).
Proof.
  unfold accessorBin, fieldReader. destruct (Data h); try done. res_unfold.
  pose proof (binLayout_returns code repeat).
  by destruct (binLayout code repeat) as [[]| |].
Qed.

Lemma accessorText_returns h code repeat col :
  returns (accessorText h code repeat col) (λ _, True).
Proof.
  unfold accessorText, fieldReader. destruct (Data h); try done. res_unfold.
  by destruct code as [[] [] [] [] [] [] [] []].
Qed.

Lemma register_returns h i fn disp : returns (register h i fn disp) (λ _, True).
Proof.
  unfold register. destruct (Keys h !! Nth "TTYPE" (i + 1)) as [[]|]; try done.
Qed.

Lemma elem_at_returns {A} (l : list A) i : returns (elem_at l i) (λ _, True).
Proof. unfold elem_at. destruct (i <? 0); [done|]. by destruct (l !! Z.to_nat i). Qed.

Lemma loadTable_loop_returns binary count i col h :
  returns (loadTable_loop binary count i col h) (λ _, True).
Proof.
  revert i col h. induction count as [|count IH]; intros i col h; [done|].
  cbn [loadTable_loop].
  eapply returns_bind; [apply assert_string_returns|]. intros form _.
  destruct binary.
  - destruct (IndexAny _ _) as [j|]; [|done].
    destruct (0 <? _); [|apply IH].
    eapply returns_bind; [apply elem_at_returns|]. intros code _.
    eapply returns_bind; [apply accessorBin_returns|]. intros [[fn disp] col1] _.
    eapply returns_bind; [apply register_returns|]. intros h1 _. apply IH.
  - destruct (_ <? 1)%nat; [done|].
    eapply returns_bind; [apply assert_int_returns|]. intros col1 _.
    eapply returns_bind; [apply elem_at_returns|]. intros code _.
    eapply returns_bind; [apply accessorText_returns|]. intros [fn disp] _.
    eapply returns_bind; [apply register_returns|]. intros h1 _. apply IH.
Qed.

Lemma loadTable_returns h b binary :
  paged b → returns (loadTable h b binary) (λ r, after b r.1.2).
Proof.
  intros Hp. unfold loadTable.
  eapply returns_bind; [apply assert_int_returns|]. intros tfields _.
  destruct (tfields <? 0); [done|].
  destruct (Naxis h) as [|width [|rows ?]]; try done.
  destruct (_ <? 0); [done|].
  eapply returns_bind; [by apply Read_returns|]. intros [b1 data] Hb1.
  eapply returns_bind; [apply loadTable_loop_returns|]. intros [h2 err] _.
  exact Hb1.
Qed.

Section Budget.

Variable pf : string → float64.
Variable sc : string → float64 * float64.

Lemma collect_naxis_returns K i count : returns (collect_naxis K i count) (λ _, True).
Proof.
  revert i. induction count as [|count IH]; intros i; [done|]. cbn [collect_naxis].
  eapply returns_bind; [apply assert_int_returns|]. intros x _.
  eapply returns_bind; [apply IH|]. done.
Qed.

Lemma header_end_returns K : returns (header_end K) (λ _, True).
Proof.
  unfold header_end. destruct (K !! "NAXIS"%string); [|done].
  eapply returns_bind; [apply assert_int_returns|]. intros n _.
  destruct (n <? 0); [done|].
  eapply returns_bind; [apply collect_naxis_returns|]. done.
Qed.

(** [NewHeader] has taken a block from the source when it returns a
    header. *)
Lemma NewHeader_loop_returns fuel b K :
  paged b → (remaining b ≤ fuel)%nat →
  returns (NewHeader_loop pf sc fuel b K)
          (λ r, after b r.1.1 ∧ (r.2 = None → (remaining r.1.1 < remaining b)%nat)).
Proof.
  revert b K. induction fuel as [|fuel IH]; intros b K Hp Hf;
    cbn [NewHeader_loop]; unfold NextPage, remaining in *;
    destruct (reader b) as [src|] eqn:Hsrc; try done;
    pose proof (src_Read_length src (buf b)) as (Hlen & Hle & Hlt);
    destruct (src_Read src (buf b)) as [[[src' buf'] r] err]; cbn [fst snd] in *;
    res_unfold.
  - destruct err; [|specialize (Hlt eq_refl Hp); lia].
    cbn. split; [|done]. apply after_same; [done|done|].
    unfold remaining. rewrite Hsrc. cbn. lia.
  - destruct err.
    + cbn. split; [|done]. apply after_same; [done|done|].
      unfold remaining. rewrite Hsrc. cbn. lia.
    + specialize (Hlt eq_refl Hp).
      destruct (_ <? 2880)%nat; [done|].
      destruct (_ !! "END"%string).
      * pose proof (header_end_returns (foldl (processCard pf sc) K (cards buf'))) as Hh.
        destruct (header_end _); try done. cbn. split; [|cbn; lia].
        apply after_same; [done|done|]. unfold remaining. rewrite Hsrc. cbn. lia.
      * eapply returns_weaken.
        -- apply IH; [unfold paged in *; cbn; lia|cbn; lia].
        -- intros [[b1 h] e] [[Hp1 Hr1] Hlt1]. cbn in *.
           split; [split; [done|unfold remaining in *; rewrite Hsrc; lia]|].
           intros He. specialize (Hlt1 He). lia.
Qed.

Lemma NewHeader_returns b :
  paged b →
  returns (NewHeader pf sc b)
          (λ r, after b r.1.1 ∧ (r.2 = None → (remaining r.1.1 < remaining b)%nat)).
Proof. intros Hp. by apply NewHeader_loop_returns. Qed.

Lemma Open_loop_returns fuel b fits :
  paged b → (remaining b < fuel)%nat →
  returns (Open_loop pf sc fuel b fits) (λ _, True).
Proof.
  revert b fits. induction fuel as [|fuel IH]; intros b fits Hp Hf; [lia|].
  cbn [Open_loop]. destruct (IsEOF b); [done|].
  eapply returns_bind; [by apply NewHeader_returns|].
  intros [[b1 h] err] [[Hp1 Hr1] Hlt]. cbn [fst snd] in *.
  destruct err; [done|]. specialize (Hlt eq_refl).
  assert (Hnext : ∀ b2 l, after b1 b2 → returns (Open_loop pf sc fuel b2 l) (λ _, True)).
  { intros b2 l [Hp2 Hr2]. apply IH; [done|lia]. }
  destruct (Keys h !! "SIMPLE"%string).
  - destruct (verifyPrimary h); [done|].
    destruct (Naxis (set_class h "SIMPLE")); [by apply Hnext, after_refl|].
    destruct (_ =? 0); [done|].
    eapply returns_bind; [by apply loadData_returns|].
    intros [[h2 b2] e] Hb2. destruct e; [done|]. by apply Hnext.
  - destruct (Keys h !! "XTENSION"%string) as [[]|]; try done.
    destruct (verifyExtension h); [done|].
    destruct (String.eqb _ "IMAGE").
    { destruct (Naxis _); [by apply Hnext, after_refl|].
      eapply returns_bind; [by apply loadData_returns|].
      intros [[h2 b2] e] Hb2. by apply Hnext. }
    destruct (String.eqb _ "TABLE").
    { eapply returns_bind; [by apply loadTable_returns|].
      intros [[h2 b2] e] Hb2. by apply Hnext. }
    destruct (String.eqb _ "BINTABLE").
    { eapply returns_bind; [by apply loadTable_returns|].
      intros [[h2 b2] e] Hb2. by apply Hnext. }
    by apply Hnext, after_refl.
Qed.

(** X2.  [Open] returns or panics on every stream: its result is never the
    end of a budget, and its error is nil. *)
Lemma Open_total src :
  returns (Open pf sc src) (λ r, r.2 = None).
Proof.
  unfold Open. eapply returns_bind.
  - apply Open_loop_returns; [unfold paged; cbn; lia|cbn; lia].
  - intros fits _. reflexivity.
Qed.

End Budget.

(** * The reader, the header, the loaders and [Open]

    Properties of the block reader, of [NewHeader] and the two
    verifiers, of [loadData] and the pixel accessors, of the field loop
    on both kinds of table and the cells, of the Units that [Open]
    returns, and of the demo. *)

(** ** Runs of the loaders on the example streams *)

Lemma NewReader_ready (src : list ascii) : ready (NewReader src).
Proof.
  unfold ready, NewReader. cbn [left right buf reader]. unfold zeros.
  rewrite length_replicate. split; [lia|]. split; [lia|]. split; [lia|eauto].
Qed.

Lemma loadData_image_3x2 :
  ∃ b' , loadData (header_of stream_image_3x2).2 (header_of stream_image_3x2).1
         = Ok (loaded_of stream_image_3x2, b', None).
Proof. eexists. vm_compute. reflexivity. Qed.

Lemma loadTable_table_src :
  ∃ b', loadTable (header_of table_src).2 (header_of table_src).1 true
        = Ok (table_of table_src true, b', None).
Proof. eexists. vm_compute. reflexivity. Qed.

Lemma loadTable_text_src :
  ∃ b', loadTable (header_of text_src).2 (header_of text_src).1 false
        = Ok (table_of text_src false, b', None).
Proof. eexists. vm_compute. reflexivity. Qed.

(** ** [Read]: the bytes of the stream, in order *)

Lemma slice_length {A} (l : list A) (a b : nat) :
  (a ≤ b ≤ length l)%nat → length (slice l a b) = (b - a)%nat.
Proof. intros H. unfold slice. rewrite length_take, length_drop. lia. Qed.

Lemma slice_shift {A} (l : list A) (a b k : nat) :
  (a + k ≤ b)%nat → slice l (a + k) b = drop k (slice l a b).
Proof.
  intros H. unfold slice.
  replace (b - a)%nat with (k + (b - (a + k)))%nat by lia.
  rewrite <- take_drop_commute, drop_drop. reflexivity.
Qed.

Lemma slice_0_take {A} (l l' : list A) (k : nat) :
  (k ≤ length l)%nat → slice (take k l ++ l') 0 k = take k l.
Proof.
  intros H. unfold slice. rewrite drop_0, Nat.sub_0_r.
  rewrite take_app_le by (rewrite length_take; lia).
  rewrite take_take. f_equal. lia.
Qed.

(** The loop of [Read] when the bytes still to come suffice: it fills
    the rest of [p] with the next bytes and leaves the others to come. *)
Lemma Read_loop_enough (fuel : nat) :
  ∀ (b : Reader) (p : list ascii) (n : nat),
    ready b → (remaining b ≤ fuel)%nat → (n ≤ length p)%nat →
    (length p - n ≤ length (pending b))%nat →
    ∃ b1,
      Read_loop fuel b p n = Ok (b1, take n p ++ take (length p - n) (pending b)) ∧
      ready b1 ∧ pending b1 = drop (length p - n) (pending b) ∧
      eof b1 = eof b ∧ elem b1 = elem b ∧ length (buf b1) = length (buf b).
Proof.
  induction fuel as [|fuel IH]; intros b p n Hrd Hfuel Hn Hen.
  all: destruct Hrd as (Hl & Hr & Hbuf & [src Hsrc]).
  all: unfold pending in Hen |- *; rewrite Hsrc in Hen |- *; cbn [default from_option id] in *.
  all: set (avail := slice (buf b) (Z.to_nat (left b)) (Z.to_nat (right b))) in *.
  all: assert (length avail = Z.to_nat (right b - left b)) as Hav
         by (unfold avail; rewrite slice_length; lia).
  all: cbn [Read_loop].
  all: replace ((left b <? 0) || (right b <? left b) || (Z.of_nat (length (buf b)) <? right b))
         with false by (symmetry; rewrite !orb_false_iff, !Z.ltb_ge; lia).
  all: fold avail.
  all: destruct (Nat.eqb_spec (n + Nat.min (length p - n) (length avail)) (length p)) as [Heq|Hne].
  1,3: (exists (set_left b (left b + Z.of_nat (Nat.min (length p - n) (length avail))));
        assert (Nat.min (length p - n) (length avail) = length p - n)%nat as -> by lia;
        assert (length p - n ≤ length avail)%nat as Hle by lia;
        split; [|split; [|split; [|auto]]];
        [ do 2 f_equal; rewrite drop_ge, app_nil_r by lia;
          rewrite take_app_le by lia; reflexivity
        | unfold ready; cbn [set_left left right buf reader]; rewrite Hsrc;
          split; [lia | split; [lia | split; [lia | eauto]]]
        | unfold pending; cbn [set_left left right buf reader]; rewrite Hsrc;
          cbn [default]; rewrite drop_app_le by lia; f_equal;
          replace (Z.to_nat (left b + Z.of_nat (length p - n)))
            with (Z.to_nat (left b) + (length p - n))%nat by lia;
          apply slice_shift; lia ]).
  all: assert (Nat.min (length p - n) (length avail) = length avail) as Hk by lia.
  all: rewrite Hk in *.
  all: cbn [set_left reader buf elem eof]; rewrite Hsrc.
  all: rewrite length_app in Hen.
  all: destruct src as [|c src']; [cbn in Hen; lia|].
  - unfold remaining in Hfuel. rewrite Hsrc in Hfuel. cbn in Hfuel. lia.
  - set (src := c :: src') in *.
    assert (0 < length src)%nat as Hpos by (unfold src; cbn; lia).
    unfold src_Read. fold src. unfold src at 1.
    set (k := Nat.min (length (buf b)) (length src)).
    assert (1 ≤ k ≤ length src ∧ k ≤ length (buf b))%nat as Hkb by (unfold k; lia).
    set (b2 := {| buf := take k src ++ drop k (buf b); elem := elem b; left := 0;
                  right := Z.of_nat k; reader := Some (drop k src); eof := eof b |}).
    assert (pending b2 = src) as Hp2.
    { unfold pending, b2. cbn [buf left right reader default].
      rewrite Nat2Z.id. change (Z.to_nat 0) with 0%nat.
      rewrite slice_0_take by lia. apply take_drop. }
    assert (length (buf b2) = length (buf b)) as Hlen2.
    { unfold b2. cbn [buf]. rewrite length_app, length_take, length_drop. lia. }
    set (p1 := take n p ++ take (length avail) avail ++ drop (n + length avail) p).
    assert (length p1 = length p) as Hp1.
    { unfold p1. rewrite !length_app, !length_take, length_drop. lia. }
    destruct (IH b2 p1 (n + length avail)%nat) as (b1 & Hrun & Hrd1 & Hpend & Heof & Helem & Hbl).
    + unfold ready. rewrite Hlen2. unfold b2. cbn [left right reader].
      split; [lia|]. split; [lia|]. split; [lia|eauto].
    + unfold remaining, b2. cbn [reader]. rewrite length_drop.
      unfold remaining in Hfuel. rewrite Hsrc in Hfuel. fold src in Hfuel.
      lia.
    + lia.
    + rewrite Hp2, Hp1. lia.
    + exists b1. rewrite Hrun, Hp2, Hp1.
      split; [|split; [exact Hrd1|split; [|split; [exact Heof|split; [exact Helem|lia]]]]].
      * do 2 f_equal. unfold p1.
        rewrite firstn_all.
        rewrite app_assoc, take_app_length'
          by (rewrite length_app, length_take; lia).
        rewrite <- app_assoc. f_equal.
        rewrite take_app_ge by lia. f_equal. f_equal. lia.
      * fold (pending b1). rewrite Hpend, Hp2, Hp1. rewrite drop_app_ge by lia. f_equal. lia.
Qed.

(** The loop of [Read] when the bytes still to come do not suffice: it
    stores them all, leaves the end of [p] as it was and ends on the
    end of the source. *)
Lemma Read_loop_short (fuel : nat) :
  ∀ (b : Reader) (p : list ascii) (n : nat),
    ready b → (remaining b ≤ fuel)%nat → (n ≤ length p)%nat →
    (length (pending b) < length p - n)%nat →
    ∃ b1,
      Read_loop fuel b p n =
        Ok (b1, take n p ++ pending b ++ drop (n + length (pending b)) p) ∧
      ready b1 ∧ pending b1 = [] ∧ eof b1 = true ∧ elem b1 = elem b ∧
      length (buf b1) = length (buf b).
Proof.
  induction fuel as [|fuel IH]; intros b p n Hrd Hfuel Hn Hen.
  all: destruct Hrd as (Hl & Hr & Hbuf & [src Hsrc]).
  all: unfold pending in Hen |- *; rewrite Hsrc in Hen |- *; cbn [default from_option id] in *.
  all: set (avail := slice (buf b) (Z.to_nat (left b)) (Z.to_nat (right b))) in *.
  all: assert (length avail = Z.to_nat (right b - left b)) as Hav
         by (unfold avail; rewrite slice_length; lia).
  all: cbn [Read_loop].
  all: replace ((left b <? 0) || (right b <? left b) || (Z.of_nat (length (buf b)) <? right b))
         with false by (symmetry; rewrite !orb_false_iff, !Z.ltb_ge; lia).
  all: fold avail.
  all: rewrite length_app in Hen.
  all: assert (Nat.min (length p - n) (length avail) = length avail) as Hk by lia.
  all: rewrite Hk.
  all: destruct (Nat.eqb_spec (n + length avail) (length p)) as [Heq|Hne]; [lia|].
  all: cbn [set_left reader buf elem eof]; rewrite Hsrc.
  all: destruct src as [|c src'].
  1,3: (cbn [src_Read];
        rewrite firstn_all, app_nil_r;
        eexists; split; [reflexivity|];
        unfold ready, pending; cbn [buf left right reader eof elem default from_option id];
        split; [split; [lia|split; [lia|split; [lia|eauto]]] | auto]).
  - unfold remaining in Hfuel. rewrite Hsrc in Hfuel. cbn in Hfuel. lia.
  - set (src := c :: src') in *.
    assert (0 < length src)%nat as Hpos by (unfold src; cbn; lia).
    unfold src_Read. fold src. unfold src at 1.
    set (k := Nat.min (length (buf b)) (length src)).
    assert (1 ≤ k ≤ length src ∧ k ≤ length (buf b))%nat as Hkb by (unfold k; lia).
    set (b2 := {| buf := take k src ++ drop k (buf b); elem := elem b; left := 0;
                  right := Z.of_nat k; reader := Some (drop k src); eof := eof b |}).
    assert (pending b2 = src) as Hp2.
    { unfold pending, b2. cbn [buf left right reader default from_option id].
      rewrite Nat2Z.id. change (Z.to_nat 0) with 0%nat.
      rewrite slice_0_take by lia. apply take_drop. }
    assert (length (buf b2) = length (buf b)) as Hlen2.
    { unfold b2. cbn [buf]. rewrite length_app, length_take, length_drop. lia. }
    set (p1 := take n p ++ take (length avail) avail ++ drop (n + length avail) p).
    assert (length p1 = length p) as Hp1.
    { unfold p1. rewrite !length_app, !length_take, length_drop. lia. }
    destruct (IH b2 p1 (n + length avail)%nat) as (b1 & Hrun & Hrd1 & Hpend & Heof & Helem & Hbl).
    + unfold ready. rewrite Hlen2. unfold b2. cbn [left right reader].
      split; [lia|]. split; [lia|]. split; [lia|eauto].
    + unfold remaining, b2. cbn [reader]. rewrite length_drop.
      unfold remaining in Hfuel. rewrite Hsrc in Hfuel. fold src in Hfuel.
      lia.
    + lia.
    + rewrite Hp2, Hp1. lia.
    + exists b1. rewrite Hrun, Hp2.
      split; [|split; [exact Hrd1|split; [exact Hpend|split; [exact Heof|split; [exact Helem|lia]]]]].
      assert (p1 = (take n p ++ avail) ++ drop (n + length avail) p) as Hp1'.
      { unfold p1. rewrite firstn_all, app_assoc. reflexivity. }
      assert (length (take n p ++ avail) = n + length avail)%nat as Hl1.
      { rewrite length_app, length_take. lia. }
      do 2 f_equal. rewrite Hp1'.
      rewrite take_app_length' by (symmetry; exact Hl1).
      rewrite drop_app_ge by (rewrite Hl1; lia).
      rewrite Hl1, drop_drop, length_app, <- !app_assoc.
      do 3 f_equal. f_equal. lia.
Qed.

(** X3.  On a reader with an underlying source, Read of a slice no longer
    than the bytes still to come (the unread rest of the current block,
    then the source) fills the slice with exactly the next bytes in
    order, across block boundaries, leaves the rest still to come, and
    leaves the end-of-file flag as it was. *)
Theorem Read_delivers_the_stream (b : Reader) (p : list ascii) :
  ready b → (length p ≤ length (pending b))%nat →
  ∃ b1,
    Read b p = Ok (b1, take (length p) (pending b)) ∧
    pending b1 = drop (length p) (pending b) ∧
    ready b1 ∧ eof b1 = eof b.
Proof.
  intros Hrd Hen.
  destruct (Read_loop_enough (remaining b) b p 0) as (b1 & Hrun & Hrd1 & Hp & He & _);
    [exact Hrd | lia | lia | lia |].
  rewrite Nat.sub_0_r in Hrun, Hp. exists b1. unfold Read. rewrite Hrun. auto.
Qed.

Lemma Read_delivers_the_stream_witness :
  ∃ b1, Read (NewReader (bytes "FITS")) (zeros 2) = Ok (b1, bytes "FI") ∧
        pending b1 = bytes "TS".
Proof.
  destruct (Read_delivers_the_stream (NewReader (bytes "FITS")) (zeros 2))
    as (b1 & H1 & H2 & _).
  - apply NewReader_ready.
  - vm_compute. lia.
  - exists b1. split; [exact H1|exact H2].
Defined.

(** X4.  When fewer bytes are left than the slice asks for, Read stores the
    bytes that are left at the start of the slice, leaves the rest of
    the slice as it was, and sets the end-of-file flag; nothing is left
    to come. *)
Theorem Read_past_the_end (b : Reader) (p : list ascii) :
  ready b → (length (pending b) < length p)%nat →
  ∃ b1,
    Read b p = Ok (b1, pending b ++ drop (length (pending b)) p) ∧
    pending b1 = [] ∧ eof b1 = true.
Proof.
  intros Hrd Hen.
  destruct (Read_loop_short (remaining b) b p 0) as (b1 & Hrun & Hrd1 & Hp & He & _);
    [exact Hrd | lia | lia | lia |].
  exists b1. unfold Read. rewrite Hrun. auto.
Qed.

Lemma Read_past_the_end_witness :
  ∃ b1, Read (NewReader (bytes "FI")) (zeros 3) = Ok (b1, bytes "FI" ++ zeros 1) ∧
        eof b1 = true.
Proof.
  destruct (Read_past_the_end (NewReader (bytes "FI")) (zeros 3)) as (b1 & H1 & _ & H2).
  - apply NewReader_ready.
  - vm_compute. lia.
  - exists b1. split; [exact H1|exact H2].
Defined.
Lemma byte_val_byte_of (z : Z) : byte_val (byte_of z) = z mod 256.
Proof.
  unfold byte_val, byte_of.
  assert (0 ≤ z mod 256 < 256) as H by (apply Z.mod_pos_bound; lia).
  rewrite N_ascii_embedding by lia. lia.
Qed.

Lemma be_uint_snoc (l : list ascii) (c : ascii) :
  be_uint (l ++ [c]) = be_uint l * 256 + byte_val c.
Proof. unfold be_uint. rewrite fold_left_app. reflexivity. Qed.

Lemma be_bytes_length (w : nat) : ∀ z, length (be_bytes w z) = w.
Proof.
  induction w as [|w IH]; intros z; cbn [be_bytes]; [reflexivity|].
  rewrite length_app, IH. cbn. lia.
Qed.

Lemma be_uint_be_bytes (w : nat) :
  ∀ z, be_uint (be_bytes w z) = z mod 2 ^ (8 * Z.of_nat w).
Proof.
  induction w as [|w IH]; intros z.
  - cbn. rewrite Z.mod_1_r. reflexivity.
  - cbn [be_bytes]. rewrite be_uint_snoc, IH, byte_val_byte_of.
    replace (8 * Z.of_nat (S w)) with (8 + 8 * Z.of_nat w) by lia.
    rewrite Z.pow_add_r by lia. change (2 ^ 8) with 256.
    assert (0 < 2 ^ (8 * Z.of_nat w)) by (apply Z.pow_pos_nonneg; lia).
    rewrite Z.rem_mul_r by lia. lia.
Qed.

Lemma to_signed_mod (w z : Z) :
  0 < w → - 2 ^ (w - 1) ≤ z < 2 ^ (w - 1) → to_signed w (z mod 2 ^ w) = z.
Proof.
  intros Hw Hz. unfold to_signed.
  assert (2 ^ w = 2 * 2 ^ (w - 1)) as Hp.
  { replace w with (1 + (w - 1)) at 1 by lia. rewrite Z.pow_add_r by lia. reflexivity. }
  assert (0 < 2 ^ (w - 1)) by (apply Z.pow_pos_nonneg; lia).
  rewrite Z.mod_mod by lia.
  destruct (Z.ltb_spec (z mod 2 ^ w) (2 ^ (w - 1))) as [Hlt|Hge].
  - destruct (Z.lt_ge_cases z 0) as [Hneg|Hpos].
    + rewrite <- (Z.mod_add z 1) in Hlt by lia.
      rewrite Z.mod_small in Hlt by lia. lia.
    + apply Z.mod_small. lia.
  - destruct (Z.lt_ge_cases z 0) as [Hneg|Hpos].
    + rewrite <- (Z.mod_add z 1) by lia.
      rewrite Z.mod_small by lia. lia.
    + rewrite Z.mod_small in Hge by lia. lia.
Qed.

(** A read of [n] bytes into the element buffer. *)
Lemma ReadElem_enough (b : Reader) (n : nat) :
  ready b → (n ≤ length (elem b))%nat → (n ≤ length (pending b))%nat →
  ∃ b1,
    ReadElem b n = Ok (b1, take n (pending b)) ∧
    pending b1 = drop n (pending b) ∧ ready b1 ∧ eof b1 = eof b ∧
    length (elem b1) = length (elem b).
Proof.
  intros Hrd He Hp.
  assert (length (take n (elem b)) = n) as Hl by (rewrite length_take; lia).
  destruct (Read_loop_enough (remaining b) b (take n (elem b)) 0)
    as (b1 & Hrun & Hrd1 & Hpend & Heof & Helem & Hbuf); [exact Hrd|lia|lia|lia|].
  rewrite Nat.sub_0_r, Hl in Hrun, Hpend. rewrite take_0 in Hrun. cbn [app] in Hrun.
  unfold ReadElem, Read. rewrite Hrun. res_unfold.
  eexists. split; [reflexivity|].
  unfold ready, pending in *. cbn [set_elem buf left right reader eof elem].
  split; [exact Hpend|]. split; [exact Hrd1|]. split; [exact Heof|].
  unfold pending in Hp. rewrite length_app, length_take, length_drop, Helem.
  lia.
Qed.

(** ** The typed reads undo the big-endian encoding *)

Lemma byte_of_byte_val (c : ascii) : byte_of (byte_val c) = c.
Proof.
  unfold byte_of, byte_val.
  pose proof (N_ascii_bounded c) as Hb.
  rewrite Z.mod_small by lia. rewrite N2Z.id. apply ascii_N_embedding.
Qed.

Lemma ReadElem_decodes (b : Reader) (bs rest : list ascii) :
  ready b → length (elem b) = 8%nat → (length bs ≤ 8)%nat → pending b = bs ++ rest →
  ∃ b1, ReadElem b (length bs) = Ok (b1, bs) ∧ pending b1 = rest ∧ ready b1 ∧
        length (elem b1) = 8%nat ∧ eof b1 = eof b.
Proof.
  intros Hrd He Hw Hp.
  destruct (ReadElem_enough b (length bs)) as (b1 & Hrun & Hp1 & Hrd1 & Heof & Hel);
    [exact Hrd | lia | rewrite Hp, length_app; lia |].
  rewrite Hp in Hrun, Hp1.
  rewrite take_app_length in Hrun. rewrite drop_app_length in Hp1.
  exists b1. rewrite Hrun. split; [reflexivity|]. split; [exact Hp1|].
  split; [exact Hrd1|]. split; [lia|exact Heof].
Qed.

Lemma ReadInt_decodes (w : nat) rd :
  (w, rd) ∈ int_readers → decodes rd (be_bytes w) (fits_bytes w).
Proof.
  intros Hin b x rest Hrd He Hp Hx.
  assert (length (be_bytes w x) ≤ 8)%nat as Hw.
  { rewrite be_bytes_length. unfold int_readers in Hin.
    rewrite !elem_of_cons, elem_of_nil in Hin.
    destruct Hin as [H|[H|[H|[]]]]; inversion H; lia. }
  destruct (ReadElem_decodes b (be_bytes w x) rest Hrd He Hw Hp)
    as (b1 & Hrun & Hrest).
  rewrite be_bytes_length in Hrun.
  exists b1. split; [|exact Hrest].
  unfold int_readers in Hin. rewrite !elem_of_cons, elem_of_nil in Hin.
  unfold fits_bytes in Hx.
  destruct Hin as [H|[H|[H|[]]]]; inversion H; subst w rd.
  all: unfold ReadInt16, ReadInt32, ReadInt64; rewrite Hrun; res_unfold.
  all: rewrite be_uint_be_bytes; do 2 f_equal.
  all: apply to_signed_mod; [lia|exact Hx].
Qed.

Lemma ReadByte_decodes : decodes ReadByte (λ c, [c]) (λ _, True).
Proof.
  intros b x rest Hrd He Hp _.
  destruct (ReadElem_decodes b [x] rest Hrd He ltac:(cbn; lia) Hp) as (b1 & Hrun & Hrest).
  cbn [length] in Hrun. exists b1. split; [|exact Hrest].
  unfold ReadByte. rewrite Hrun. res_unfold. do 2 f_equal.
  unfold be_uint. cbn [fold_left]. rewrite Z.mul_0_l, Z.add_0_l.
  apply byte_of_byte_val.
Qed.

Lemma read_n_decodes {T} (rd : Reader -> Res (Reader * T)) enc good :
  decodes rd enc good →
  ∀ xs b rest, ready b → length (elem b) = 8%nat →
    pending b = flat_map enc xs ++ rest → Forall good xs →
    ∃ b1, read_n rd (length xs) b = Ok (b1, xs) ∧ pending b1 = rest ∧ ready b1 ∧
          length (elem b1) = 8%nat ∧ eof b1 = eof b.
Proof.
  intros Hdec xs. induction xs as [|x xs IH]; intros b rest Hrd He Hp Hgood.
  - exists b. cbn in *. auto.
  - inversion Hgood as [|? ? Hx Hxs]; subst.
    cbn [flat_map] in Hp. rewrite <- app_assoc in Hp.
    destruct (Hdec b x _ Hrd He Hp Hx) as (b1 & Hrun & Hp1 & Hrd1 & He1 & Heof1).
    destruct (IH b1 rest Hrd1 He1 Hp1 Hxs) as (b2 & Hrun2 & Hp2 & Hrd2 & He2 & Heof2).
    exists b2. cbn [length read_n]. rewrite Hrun. res_unfold. rewrite Hrun2.
    split; [reflexivity|]. split; [exact Hp2|]. split; [exact Hrd2|].
    split; [exact He2|congruence].
Qed.

Lemma read_n_length {T} (rd : Reader -> Res (Reader * T)) (n : nat) :
  ∀ b b1 xs, read_n rd n b = Ok (b1, xs) → length xs = n.
Proof.
  induction n as [|n IH]; intros b b1 xs H; cbn [read_n] in H.
  - inversion H. reflexivity.
  - res_unfold. destruct (rd b) as [[b2 x]| |]; try discriminate.
    destruct (read_n rd n b2) as [[b3 l]| |] eqn:E; try discriminate.
    inversion H; subst. cbn. f_equal. eapply IH, E.
Qed.

(** ** What [loadData] leaves behind *)

Lemma valid_bitpix_cases (n : Z) :
  valid_bitpix n = true → n = 8 ∨ n = 16 ∨ n = 32 ∨ n = 64 ∨ n = -32 ∨ n = -64.
Proof. unfold valid_bitpix. rewrite !orb_true_iff, !Z.eqb_eq. tauto. Qed.

Lemma read_pixels_length {T} (rd : Reader -> Res (Reader * T)) prod b b1 d :
  read_pixels rd prod b = Ok (b1, d) → Z.of_nat (length d) = prod.
Proof.
  unfold read_pixels. destruct (Z.ltb_spec prod 0) as [|Hp]; [discriminate|].
  intros Hr. apply read_n_length in Hr. lia.
Qed.

(** What [loadData] leaves behind on a Unit with axes and a valid
    BITPIX. *)
Lemma loadData_inv h b h' b' e bitpix :
  loadData h b = Ok (h', b', e) → Naxis h ≠ [] →
  Keys h !! "BITPIX"%string = Some (VInt bitpix) → valid_bitpix bitpix = true →
  e = None ∧ Keys h' = Keys h ∧ Naxis h' = Naxis h ∧ class h' = class h ∧
  pix h' = PixData ∧
  buffer_bitpix (Data h') = Some bitpix ∧
  Z.of_nat (buffer_len (Data h')) = prodNaxis (Naxis h) ∧
  pBlank h' = (if bitpix <? 0 then BlankNaN
               else if bool_decide (is_Some (Keys h !! "BLANK"%string)) then BlankEq
               else BlankFalse) ∧
  (0 < bitpix → ∀ v, Keys h !! "BLANK"%string = Some v → v = VInt (blank h')).
Proof.
  intros Hrun Hax Hbit Hvalid. unfold loadData in Hrun.
  destruct (Naxis h) as [|n0 naxis] eqn:Hn; [congruence|]. clear Hax.
  rewrite Hbit in Hrun. res_unfold. cbn [assert_int] in Hrun.
  destruct (valid_bitpix_cases _ Hvalid) as [ -> | [ -> | [ -> | [ -> | [ -> | -> ] ] ] ] ].
  all: cbn match in Hrun.
  all: match type of Hrun with
       | context [read_pixels ?rd ?p ?b] =>
           destruct (read_pixels rd p b) as [[b1 d]| |] eqn:E; try discriminate;
           apply read_pixels_length in E
       end.
  all: cbn [set_pixels Keys] in Hrun.
  all: destruct (Keys h !! "BLANK"%string) as [v|] eqn:Hbl.
  all: cbn [bool_decide decide_rel is_Some andb] in Hrun.
  all: try (destruct v; cbn in Hrun; try discriminate).
  all: cbn in Hrun; inversion Hrun; subst; cbn.
  all: rewrite ?Hn; repeat split; try assumption; try reflexivity; try lia.
  all: try (intros _ v Hv; congruence).
  all: try (intros ? v Hv; inversion Hv; reflexivity).
Qed.

(** ** [loadData] and the pixel accessors *)

Lemma fold_prod_no_wrap (naxis : list Z) :
  ∀ acc, 1 ≤ acc → Forall (λ n, 1 ≤ n) naxis → acc * product naxis ≤ MaxInt64 →
    fold_left (λ p x, wrap64 (p * x)) naxis acc = acc * product naxis.
Proof.
  induction naxis as [|n naxis IH]; intros acc Hacc Hpos Hfit; cbn.
  - lia.
  - inversion Hpos as [|? ? Hn Hrest]; subst.
    unfold product in Hfit. cbn [fold_right] in Hfit.
    fold (product naxis) in *.
    assert (1 ≤ product naxis) as Hp.
    { clear -Hrest. induction Hrest; cbn; [lia|]. fold (product l). nia. }
    rewrite wrap64_id by (unfold MinInt64, MaxInt64 in *; nia).
    rewrite IH; [ring | nia | exact Hrest | nia].
Qed.

Lemma prodNaxis_product (a naxis : list Z) :
  in_range a naxis → product naxis ≤ MaxInt64 → prodNaxis naxis = product naxis.
Proof.
  intros Hr Hfit. unfold prodNaxis.
  rewrite fold_prod_no_wrap; [lia | lia | | lia].
  clear Hfit. induction Hr; constructor; [lia|assumption].
Qed.

Lemma index_offset h a :
  in_range a (Naxis h) → product (Naxis h) ≤ MaxInt64 →
  index h a = Ok (pixel_offset a (Naxis h)).
Proof.
  intros Hr Hfit. unfold index.
  pose proof (index_loop_offset a (Naxis h) (length (Naxis h)) Hr Hfit (le_n _)) as H.
  rewrite (drop_all (Naxis h)) in H.
  rewrite drop_ge in H by (rewrite (Forall2_length _ _ _ Hr); lia).
  exact H.
Qed.

Lemma elem_at_in {A} (l : list A) (i : Z) :
  0 ≤ i < Z.of_nat (length l) → ∃ x, elem_at l i = Ok x ∧ l !! Z.to_nat i = Some x.
Proof.
  intros Hi. unfold elem_at.
  destruct (Z.ltb_spec i 0); [lia|].
  destruct (lookup_lt_is_Some_2 l (Z.to_nat i) ltac:(lia)) as [x Hx].
  rewrite Hx. eauto.
Qed.

(** X5.  On a Unit with at least one axis and a valid BITPIX, a loadData that
    returns reports no error, leaves Keys and Naxis as they were, binds
    the pixel accessors, and leaves in Data a buffer of the element type
    that BITPIX names with exactly one element per pixel (the product of
    Naxis as the code computes it). *)
Theorem loadData_fills_the_buffer h b h' b' e bitpix :
  loadData h b = Ok (h', b', e) → Naxis h ≠ [] →
  Keys h !! "BITPIX"%string = Some (VInt bitpix) → valid_bitpix bitpix = true →
  e = None ∧ Keys h' = Keys h ∧ Naxis h' = Naxis h ∧ pix h' = PixData ∧
  buffer_bitpix (Data h') = Some bitpix ∧
  Z.of_nat (buffer_len (Data h')) = prodNaxis (Naxis h).
Proof.
  intros Hrun Hax Hbit Hvalid.
  destruct (loadData_inv _ _ _ _ _ _ Hrun Hax Hbit Hvalid)
    as (He & HK & HN & _ & Hpix & Hkind & Hlen & _).
  auto 10.
Qed.

Lemma loadData_fills_the_buffer_witness :
  Naxis (loaded_of stream_image_3x2) = [3; 2] ∧
  buffer_bitpix (Data (loaded_of stream_image_3x2)) = Some 8 ∧
  buffer_len (Data (loaded_of stream_image_3x2)) = 6%nat.
Proof.
  destruct loadData_image_3x2 as [b' Hrun].
  destruct (loadData_fills_the_buffer _ _ _ _ _ 8 Hrun) as (_ & _ & HN & _ & Hk & Hl).
  - vm_compute. discriminate.
  - vm_compute. reflexivity.
  - reflexivity.
  - split; [rewrite HN; vm_compute; reflexivity|]. split; [exact Hk|].
    apply Nat2Z.inj. rewrite Hl. vm_compute. reflexivity.
Defined.

(** X6.  After loadData, for coordinates in range on an image whose element
    count fits an int, At, IntAt, FloatAt and Blank all return without a
    panic, and IntAt and FloatAt return the Go conversions int64(x) and
    float64(x) of the value that At returns. *)
Theorem pixel_accessors_agree h b h' b' e bitpix a :
  loadData h b = Ok (h', b', e) →
  Keys h !! "BITPIX"%string = Some (VInt bitpix) → valid_bitpix bitpix = true →
  in_range a (Naxis h) → a ≠ [] → product (Naxis h) ≤ MaxInt64 →
  ∃ v bl, At h' a = Ok v ∧ IntAt h' a = Ok (pixel_int v) ∧
          FloatAt h' a = Ok (pixel_float v) ∧ Blank h' a = Ok bl.
Proof.
  intros Hrun Hbit Hvalid Hr Ha Hfit.
  assert (Naxis h ≠ []) as Hax.
  { intros Hnil. rewrite Hnil in Hr. inversion Hr. congruence. }
  destruct (loadData_inv _ _ _ _ _ _ Hrun Hax Hbit Hvalid)
    as (_ & _ & HN & _ & Hpix & Hkind & Hlen & Hbl & _).
  rewrite (prodNaxis_product a) in Hlen by assumption.
  pose proof (pixel_offset_bounds _ _ Hr) as Hoff.
  rewrite <- HN in Hr, Hfit, Hoff.
  pose proof (index_offset h' a Hr Hfit) as Hidx.
  unfold Blank. unfold At, IntAt, FloatAt. rewrite Hbl, Hpix, Hidx. res_unfold.
  rewrite <- HN in Hlen.
  destruct (Data h') as [|d|d|d|d|d|d|d]; cbn in Hkind, Hlen; try discriminate.
  all: destruct (elem_at_in d (pixel_offset a (Naxis h')) ltac:(lia)) as (x & Hx & _).
  all: rewrite Hx.
  all: eexists; destruct (bitpix <? 0);
       [|destruct (bool_decide (is_Some (Keys h !! "BLANK"%string)))].
  all: eexists; repeat split; reflexivity.
Qed.

Lemma pixel_accessors_agree_witness :
  ∃ v bl, At (loaded_of stream_image_3x2) [2; 1] = Ok v ∧
          IntAt (loaded_of stream_image_3x2) [2; 1] = Ok (pixel_int v) ∧
          FloatAt (loaded_of stream_image_3x2) [2; 1] = Ok (pixel_float v) ∧
          Blank (loaded_of stream_image_3x2) [2; 1] = Ok bl.
Proof.
  destruct loadData_image_3x2 as [b' Hrun].
  apply (pixel_accessors_agree _ _ _ _ _ 8 [2; 1] Hrun).
  - vm_compute. reflexivity.
  - reflexivity.
  - replace (Naxis (header_of stream_image_3x2).2) with [3; 2] by (vm_compute; reflexivity).
    repeat constructor; lia.
  - discriminate.
  - vm_compute. discriminate.
Defined.

(** X7.  After loadData, Blank is the NaN test of FloatAt on a floating image
    whatever BLANK says, the comparison of IntAt with the BLANK key on
    an integer image that has an integer BLANK, and constantly false
    (for any coordinates, without a panic) on an integer image without
    BLANK. *)
Theorem Blank_after_loadData h b h' b' e bitpix a :
  loadData h b = Ok (h', b', e) → Naxis h ≠ [] →
  Keys h !! "BITPIX"%string = Some (VInt bitpix) → valid_bitpix bitpix = true →
  Blank h' a =
    if bitpix <? 0 then x ← FloatAt h' a; mret (IsNaN x)
    else match Keys h !! "BLANK"%string with
         | Some (VInt v) => x ← IntAt h' a; mret (x =? v)
         | _ => Ok false
         end.
Proof.
  intros Hrun Hax Hbit Hvalid.
  destruct (loadData_inv _ _ _ _ _ _ Hrun Hax Hbit Hvalid)
    as (_ & _ & _ & _ & _ & _ & _ & Hbl & Hv).
  unfold Blank. rewrite Hbl.
  destruct (Z.ltb_spec bitpix 0) as [Hneg|Hpos]; [reflexivity|].
  assert (0 < bitpix) as Hp.
  { destruct (valid_bitpix_cases _ Hvalid) as [ -> | [ -> | [ -> | [ -> | [ -> | -> ] ] ] ] ]; lia. }
  destruct (Keys h !! "BLANK"%string) as [v|] eqn:Hk; [|reflexivity].
  rewrite (Hv Hp v eq_refl). cbn. reflexivity.
Qed.

Lemma Blank_after_loadData_witness :
  Blank (loaded_of stream_image_3x2) [2; 1] = Ok false.
Proof.
  destruct loadData_image_3x2 as [b' Hrun].
  rewrite (Blank_after_loadData _ _ _ _ _ 8 [2; 1] Hrun).
  - vm_compute. reflexivity.
  - vm_compute. discriminate.
  - vm_compute. reflexivity.
  - reflexivity.
Defined.

Lemma encode_ints_Some w l bs :
  encode_ints w l = Some bs → bs = flat_map (be_bytes w) l ∧ Forall (fits_bytes w) l.
Proof.
  unfold encode_ints. destruct (forallb _ l) eqn:E; [|discriminate].
  intros H. inversion H. split; [reflexivity|].
  rewrite forallb_forall in E. apply List.Forall_forall. intros x Hx.
  apply E in Hx. unfold fits_bytes. lia.
Qed.

(** X8.  loadData inverts the FITS encoding of integer images: if the stream
    starts with the big-endian two's complement encoding of a buffer of
    8, 16, 32 or 64-bit integers with one element per pixel, and BLANK
    is absent or an integer, loadData returns that buffer as Data with
    no error and leaves the reader exactly after it. *)
Theorem loadData_decodes_the_encoding h b d bs rest bitpix :
  ready b → length (elem b) = 8%nat → Naxis h ≠ [] →
  Keys h !! "BITPIX"%string = Some (VInt bitpix) →
  (is_int (Keys h !! "BLANK"%string) || bool_decide (Keys h !! "BLANK"%string = None)) = true →
  buffer_bitpix d = Some bitpix → encode_pixels d = Some bs →
  Z.of_nat (buffer_len d) = prodNaxis (Naxis h) →
  pending b = bs ++ rest →
  ∃ h' b', loadData h b = Ok (h', b', None) ∧ Data h' = d ∧ pending b' = rest ∧
           eof b' = eof b.
Proof.
  intros Hrd He Hax Hbit Hblank Hkind Henc Hlen Hp.
  unfold loadData. destruct (Naxis h) as [|n0 naxis] eqn:Hn; [congruence|]. clear Hax.
  rewrite Hbit. res_unfold. cbn [assert_int].
  assert (∀ T (rd : Reader → Res (Reader * T)) enc good (l : list T),
            decodes rd enc good → Forall good l → bs = flat_map enc l →
            Z.of_nat (length l) = prodNaxis (n0 :: naxis) →
            ∃ b1, read_pixels rd (prodNaxis (n0 :: naxis)) b = Ok (b1, l) ∧
                  pending b1 = rest ∧ eof b1 = eof b) as Hread.
  { intros T rd enc good l Hdec Hgood Hbs Hl. unfold read_pixels.
    destruct (Z.ltb_spec (prodNaxis (n0 :: naxis)) 0); [lia|].
    rewrite <- Hl, Nat2Z.id. subst bs.
    destruct (read_n_decodes rd enc good Hdec l b rest Hrd He Hp Hgood)
      as (b1 & Hrun & Hp1 & _ & _ & Heof).
    eauto. }
  assert (∀ h1 : Unit * Reader, Keys h1.1 = Keys h → (0 <? bitpix) = true →
            ∃ bl f,
            (let blank_key := Keys h1.1 !! "BLANK"%string in
             if bool_decide (is_Some blank_key) && (0 <? bitpix)
             then match assert_int blank_key with
                  | Ok a => Ok (set_blank h1.1 a BlankEq, h1.2, None)
                  | Panic msg => Panic msg
                  | OutOfFuel => OutOfFuel
                  end
             else if bitpix <? 0 then Ok (set_blank h1.1 (blank h1.1) BlankNaN, h1.2, None)
             else Ok (set_blank h1.1 (blank h1.1) BlankFalse, h1.2, None))
            = Ok (set_blank h1.1 bl f, h1.2, @None error)) as Hfin.
  { intros [h1 b1] HK Hpos. cbn [fst snd] in *. rewrite HK, Hpos.
    destruct (Z.ltb_spec bitpix 0); [apply Z.ltb_lt in Hpos; lia|].
    destruct (Keys h !! "BLANK"%string) as [[]|]; cbn in Hblank; try discriminate;
      cbn; eauto. }
  destruct d as [|l|l|l|l|l|l|l];
    cbn [buffer_bitpix encode_pixels buffer_len] in Hkind, Henc, Hlen; try discriminate.
  2-4: apply encode_ints_Some in Henc; destruct Henc as [Hbs Hgood].
  all: inversion Hkind; subst bitpix; cbn match.
  - inversion Henc; subst bs.
    destruct (Hread _ ReadByte (λ c, [c]) (λ _, True) l ReadByte_decodes)
      as (b1 & Hrun & Hp1 & Heof); [by apply Forall_true | | exact Hlen |].
    { clear. induction l; cbn; congruence. }
    rewrite Hrun.
    destruct (Hfin (set_pixels h (DByte l) PixData, b1) eq_refl eq_refl) as (bl & f & Hf).
    cbn [fst snd] in Hf. rewrite Hf. eauto 10.
  - destruct (Hread _ ReadInt16 _ _ l (ReadInt_decodes 2 ReadInt16 ltac:(unfold int_readers; rewrite !elem_of_cons; auto)) Hgood Hbs Hlen)
      as (b1 & Hrun & Hp1 & Heof).
    rewrite Hrun.
    destruct (Hfin (set_pixels h (DInt16 l) PixData, b1) eq_refl eq_refl) as (bl & f & Hf).
    cbn [fst snd] in Hf. rewrite Hf. eauto 10.
  - destruct (Hread _ ReadInt32 _ _ l (ReadInt_decodes 4 ReadInt32 ltac:(unfold int_readers; rewrite !elem_of_cons; auto)) Hgood Hbs Hlen)
      as (b1 & Hrun & Hp1 & Heof).
    rewrite Hrun.
    destruct (Hfin (set_pixels h (DInt32 l) PixData, b1) eq_refl eq_refl) as (bl & f & Hf).
    cbn [fst snd] in Hf. rewrite Hf. eauto 10.
  - destruct (Hread _ ReadInt64 _ _ l (ReadInt_decodes 8 ReadInt64 ltac:(unfold int_readers; rewrite !elem_of_cons; auto)) Hgood Hbs Hlen)
      as (b1 & Hrun & Hp1 & Heof).
    rewrite Hrun.
    destruct (Hfin (set_pixels h (DInt64 l) PixData, b1) eq_refl eq_refl) as (bl & f & Hf).
    cbn [fst snd] in Hf. rewrite Hf. eauto 10.
Qed.

Lemma loadData_decodes_the_encoding_witness :
  ∃ h' b', loadData (header_of stream_image_3x2).2 (header_of stream_image_3x2).1
             = Ok (h', b', None) ∧
           Data h' = DByte (byte_of <$> [1; 2; 3; 4; 5; 6]) ∧ pending b' = [] ∧
           eof b' = false.
Proof.
  destruct (loadData_decodes_the_encoding (header_of stream_image_3x2).2
              (header_of stream_image_3x2).1 (DByte (byte_of <$> [1; 2; 3; 4; 5; 6]))
              (byte_of <$> [1; 2; 3; 4; 5; 6]) [] 8) as (h' & b' & H1 & H2 & H3 & H4).
  - unfold ready. vm_compute. split; [split; discriminate|]. split; [discriminate|].
    split; [lia|eauto].
  - vm_compute. reflexivity.
  - vm_compute. discriminate.
  - vm_compute. reflexivity.
  - vm_compute. reflexivity.
  - reflexivity.
  - reflexivity.
  - vm_compute. reflexivity.
  - vm_compute. reflexivity.
  - exists h', b'. split; [exact H1|]. split; [exact H2|]. split; [exact H3|].
    rewrite H4. vm_compute. reflexivity.
Defined.

(** ** [index] is one-to-one, and the planes of the demo *)

Lemma pixel_offset_inj (a a' naxis : list Z) :
  in_range a naxis → in_range a' naxis →
  pixel_offset a naxis = pixel_offset a' naxis → a = a'.
Proof.
  intros Hr. revert a'. induction Hr as [|c n a naxis Hc Hr IH]; intros a' Hr' Heq.
  - inversion Hr'. reflexivity.
  - inversion Hr' as [|c' ? a1 ? Hc' Hr1]; subst.
    cbn in Heq. fold (pixel_offset a naxis) in Heq. fold (pixel_offset a1 naxis) in Heq.
    assert (pixel_offset a naxis = pixel_offset a1 naxis ∧ c = c') as [Hq ->].
    { apply (Z.div_mod_unique n); lia. }
    f_equal. apply IH; assumption.
Qed.

(** X9.  On a Unit whose element count fits an int, two coordinate tuples in
    range that index maps to the same offset are the same tuple: no two
    pixels share a buffer element. *)
Theorem index_is_one_to_one h a a' :
  in_range a (Naxis h) → in_range a' (Naxis h) → product (Naxis h) ≤ MaxInt64 →
  index h a = index h a' → a = a'.
Proof.
  intros Hr Hr' Hfit Heq.
  rewrite (index_offset h a Hr Hfit), (index_offset h a' Hr' Hfit) in Heq.
  inversion Heq. eapply pixel_offset_inj; eassumption.
Qed.

Lemma index_is_one_to_one_witness :
  index (unit_of stream_image_3x2 0) [2; 1] = index (unit_of stream_image_3x2 0) [2; 1] ∧
  [2; 1] = [2; 1].
Proof.
  split; [reflexivity|].
  apply (index_is_one_to_one (unit_of stream_image_3x2 0) [2; 1] [2; 1]).
  - replace (Naxis (unit_of stream_image_3x2 0)) with [3; 2] by (vm_compute; reflexivity).
    repeat constructor; lia.
  - replace (Naxis (unit_of stream_image_3x2 0)) with [3; 2] by (vm_compute; reflexivity).
    repeat constructor; lia.
  - vm_compute. discriminate.
  - reflexivity.
Defined.

Lemma plane_coords_offset (naxis : list Z) :
  ∀ i, Forall (λ n, 0 < n) naxis → 0 ≤ i < product naxis → product naxis ≤ MaxInt64 →
    ∃ cs, plane_coords naxis i = Ok cs ∧ in_range cs naxis ∧ pixel_offset cs naxis = i.
Proof.
  induction naxis as [|n naxis IH]; intros i Hpos Hi Hfit.
  - exists []. cbn in *. split; [reflexivity|]. split; [constructor|lia].
  - inversion Hpos as [|? ? Hn Hrest]; subst.
    unfold product in Hi, Hfit. cbn [fold_right] in Hi, Hfit.
    fold (product naxis) in Hi, Hfit.
    assert (1 ≤ product naxis) as Hp.
    { clear -Hrest. induction Hrest; cbn; [lia|]. fold (product l). nia. }
    cbn [plane_coords]. destruct (Z.eqb_spec n 0); [lia|].
    rewrite Z.quot_div_nonneg, Z.rem_mod_nonneg by lia.
    assert (0 ≤ i `div` n < product naxis) as Hq.
    { split; [apply Z.div_pos; lia|]. apply Z.div_lt_upper_bound; lia. }
    rewrite wrap64_id by (unfold MinInt64, MaxInt64 in *; nia).
    destruct (IH (i `div` n) Hrest Hq ltac:(nia)) as (cs & Hrun & Hr & Hoff).
    rewrite Hrun. res_unfold. eexists. split; [reflexivity|].
    pose proof (Z.mod_pos_bound i n Hn) as Hm.
    split; [constructor; [lia|exact Hr]|].
    cbn. fold (pixel_offset cs naxis). rewrite Hoff.
    pose proof (Z.div_mod i n ltac:(lia)). lia.
Qed.

(** X10.  In the demo's writeImage, on a Unit whose extents on the axes 3
    and up are positive and whose number of elements (the product of
    all its extents) fits an int, the modulo/divide loop maps a plane
    number i, from 0 to the number of planes excluded, to coordinates on
    the axes 3 and up that are in range, and the pixel (x, y) of plane
    i, with x and y in range, is the buffer element x + NAXIS1*(y +
    NAXIS2*i): the planes are consecutive slabs of the data, in order. *)
Theorem writeImage_planes h n0 n1 hi i x y :
  Naxis h = n0 :: n1 :: hi → Forall (λ n, 0 < n) hi →
  0 ≤ i < product hi → 0 ≤ x < n0 → 0 ≤ y < n1 → product (Naxis h) ≤ MaxInt64 →
  ∃ cs, plane_coords hi i = Ok cs ∧ in_range (x :: y :: cs) (Naxis h) ∧
        index h (x :: y :: cs) = Ok (x + n0 * (y + n1 * i)).
Proof.
  intros HN Hpos Hi Hx Hy Hfit.
  assert (product hi ≤ MaxInt64) as Hfit'.
  { rewrite HN in Hfit. unfold product in Hfit. cbn [fold_right] in Hfit.
    fold (product hi) in Hfit.
    assert (product hi ≤ n1 * product hi) by nia.
    assert (n1 * product hi ≤ n0 * (n1 * product hi)) by nia. lia. }
  destruct (plane_coords_offset hi i Hpos Hi Hfit') as (cs & Hrun & Hr & Hoff).
  exists cs. split; [exact Hrun|].
  assert (in_range (x :: y :: cs) (Naxis h)) as Hr'.
  { rewrite HN. constructor; [lia|]. constructor; [lia|exact Hr]. }
  split; [exact Hr'|].
  rewrite (index_offset h _ Hr' Hfit), HN. f_equal.
  cbn. fold (pixel_offset cs hi). rewrite Hoff. ring.
Qed.

Lemma writeImage_planes_witness :
  plane_coords [2; 2] 3 = Ok [1; 1] ∧ index cube [2; 1; 1; 1] = Ok 23.
Proof.
  destruct (writeImage_planes cube 3 2 [2; 2] 3 2 1) as (cs & H1 & _ & H2).
  - reflexivity.
  - repeat constructor.
  - vm_compute. split; [discriminate|reflexivity].
  - lia.
  - lia.
  - vm_compute. discriminate.
  - split; [reflexivity|].
    assert (cs = [1; 1]) as -> by (vm_compute in H1; congruence).
    exact H2.
Defined.

(** ** [Stats]: the bounds of the pixels *)

Lemma SFltb_irrefl (x : spec_float) : SFltb x x = false.
Proof.
  unfold SFltb, SFcompare. destruct x as [ [] | [] | | [] m e ]; try reflexivity.
  all: rewrite Z.compare_refl; change (Pos.compare_cont Eq m m) with (Pos.compare m m).
  all: rewrite Pos.compare_refl; reflexivity.
Qed.

Lemma SFltb_trans (x y z : spec_float) :
  SFltb x y = true → SFltb y z = true → SFltb x z = true.
Proof.
  unfold SFltb, SFcompare.
  destruct x as [ [] | [] | | [] m1 e1 ], y as [ [] | [] | | [] m2 e2 ],
    z as [ [] | [] | | [] m3 e3 ];
    try discriminate; try reflexivity.
  all: change (Pos.compare_cont Eq m1 m2) with (Pos.compare m1 m2).
  all: change (Pos.compare_cont Eq m2 m3) with (Pos.compare m2 m3).
  all: change (Pos.compare_cont Eq m1 m3) with (Pos.compare m1 m3).
  all: destruct (Z.compare_spec e1 e2); try discriminate;
       destruct (Z.compare_spec e2 e3); try discriminate;
       destruct (Z.compare_spec e1 e3); try reflexivity; try lia.
  all: destruct (Pos.compare_spec m1 m2); try discriminate;
       destruct (Pos.compare_spec m2 m3); try discriminate;
       destruct (Pos.compare_spec m1 m3); try reflexivity; try lia; try discriminate.
Qed.

(** One turn of either loop of [Stats] on a value that counts. *)
Lemma bounds_step (mm : float64 * float64) (l : list float64) (x : float64) :
  bounds mm l →
  bounds (if SFltb x mm.1 then x else mm.1, if SFltb mm.2 x then x else mm.2) (l ++ [x]).
Proof.
  intros (Hall & Hmin & Hmax). unfold bounds. cbn [fst snd].
  split; [|split].
  - intros y [Hy|Hy%list_elem_of_singleton]%elem_of_app.
    + destruct (Hall y Hy) as [H1 H2]. split.
      * destruct (SFltb x mm.1) eqn:E; [|exact H1].
        destruct (SFltb y x) eqn:E2; [|reflexivity].
        by rewrite (SFltb_trans y x mm.1 E2 E) in H1.
      * destruct (SFltb mm.2 x) eqn:E; [|exact H2].
        destruct (SFltb x y) eqn:E2; [|reflexivity].
        by rewrite (SFltb_trans mm.2 x y E E2) in H2.
    + subst y. split.
      * destruct (SFltb x mm.1) eqn:E; [apply SFltb_irrefl|exact E].
      * destruct (SFltb mm.2 x) eqn:E; [apply SFltb_irrefl|exact E].
  - destruct (SFltb x mm.1); [right; apply elem_of_app; right; by apply list_elem_of_singleton|].
    destruct Hmin as [->|Hin]; [by left|right; apply elem_of_app; by left].
  - destruct (SFltb mm.2 x); [right; apply elem_of_app; right; by apply list_elem_of_singleton|].
    destruct Hmax as [->|Hin]; [by left|right; apply elem_of_app; by left].
Qed.

Lemma stats_int_bounds (bl : Z) (l : list Z) :
  ∀ mm done, bounds mm (counted_int bl done) →
    bounds (fold_left (stats_int bl) l mm) (counted_int bl (done ++ l)).
Proof.
  induction l as [|x l IH]; intros mm done Hb; cbn [fold_left].
  - by rewrite app_nil_r.
  - replace (done ++ x :: l) with ((done ++ [x]) ++ l) by (by rewrite <- app_assoc).
    apply IH. unfold counted_int. rewrite filter_app, fmap_app.
    destruct mm as [mn mx]. unfold stats_int.
    destruct (Z.eqb_spec x bl) as [->|Hne]; cbn [negb andb].
    + rewrite filter_cons_False by (intros H; by apply H).
      rewrite filter_nil. cbn [fmap list_fmap]. rewrite app_nil_r. exact Hb.
    + rewrite filter_cons_True by exact Hne. rewrite filter_nil. cbn [fmap list_fmap].
      apply (bounds_step (mn, mx)). exact Hb.
Qed.

Lemma stats_float_bounds (l : list float64) :
  ∀ mm done, bounds mm (counted_float done) →
    bounds (fold_left stats_float l mm) (counted_float (done ++ l)).
Proof.
  induction l as [|x l IH]; intros mm done Hb; cbn [fold_left].
  - by rewrite app_nil_r.
  - replace (done ++ x :: l) with ((done ++ [x]) ++ l) by (by rewrite <- app_assoc).
    apply IH. unfold counted_float. rewrite filter_app.
    destruct mm as [mn mx]. unfold stats_float.
    destruct (IsNaN x) eqn:Hnan; cbn [negb andb].
    + rewrite filter_cons_False by (rewrite Hnan; discriminate).
      rewrite filter_nil, app_nil_r. exact Hb.
    + rewrite filter_cons_True by exact Hnan. rewrite filter_nil.
      apply (bounds_step (mn, mx)). exact Hb.
Qed.

Lemma bounds_start : bounds (MaxFloat64, neg_MaxFloat64) [].
Proof.
  split; [|split; by left]. intros x Hx. by apply elem_of_nil in Hx.
Qed.

Lemma fold_left_fmap {A B C} (f : A → B) (g : C → B → C) (l : list A) :
  ∀ c, fold_left (λ c x, g c (f x)) l c = fold_left g (f <$> l) c.
Proof. induction l as [|x l IH]; intros c; cbn; [reflexivity|apply IH]. Qed.

(** X11.  On a Unit whose buffer has the type of BITPIX and one element per
    pixel (more than one pixel), the pair that Stats returns bounds the
    pixels it counts, which are the elements different from h.blank of
    an integer buffer and the elements that are not NaN of a floating
    buffer: no counted pixel is below min or above max, min is
    +MaxFloat64 or a counted pixel, and max is -MaxFloat64 or a counted
    pixel. *)
Theorem Stats_bounds_the_pixels (h : Unit) (bitpix : Z) mn mx :
  Stats h = Ok (mn, mx) → prodNaxis (Naxis h) ≠ 1 →
  Keys h !! "BITPIX"%string = Some (VInt bitpix) →
  buffer_bitpix (Data h) = Some bitpix →
  Z.of_nat (buffer_len (Data h)) = prodNaxis (Naxis h) →
  bounds (mn, mx) (counted (Data h) (blank h)).
Proof.
  unfold Stats, Bitpix. intros Hrun Hprod Hbit Hkind Hlen. revert Hrun.
  destruct (Z.eqb_spec (prodNaxis (Naxis h)) 1) as [|_]; [contradiction|].
  rewrite Hbit. res_unfold. cbn [assert_int].
  destruct (Data h) as [|l|l|l|l|l|l|l]; cbn [buffer_bitpix buffer_len counted] in *;
    try discriminate.
  all: injection Hkind as <-; cbn match; unfold for_prod.
  all: destruct (Z.ltb_spec (Z.of_nat (length l)) (prodNaxis (Naxis h))); [lia|].
  all: rewrite <- Hlen, Nat2Z.id, firstn_all.
  all: intros [= <-].
  - rewrite (fold_left_fmap byte_val (stats_int (blank h))).
    apply (stats_int_bounds _ _ _ []), bounds_start.
  - apply (stats_int_bounds _ _ _ []), bounds_start.
  - apply (stats_int_bounds _ _ _ []), bounds_start.
  - apply (stats_int_bounds _ _ _ []), bounds_start.
  - rewrite (fold_left_fmap float64_of_float32 stats_float).
    apply (stats_float_bounds _ _ []), bounds_start.
  - apply (stats_float_bounds _ _ []), bounds_start.
Qed.

Lemma Stats_bounds_the_pixels_witness :
  bounds (float64_of_int 5, float64_of_int 5)
    (counted (Data (unit_of stream_zero_pixel 0)) (blank (unit_of stream_zero_pixel 0))).
Proof.
  apply (Stats_bounds_the_pixels (unit_of stream_zero_pixel 0) 8).
  - vm_compute. reflexivity.
  - vm_compute. discriminate.
  - vm_compute. reflexivity.
  - vm_compute. reflexivity.
  - vm_compute. reflexivity.
Defined.

(** ** [NewHeader] *)

Section Header.
Variable pf : string → float64.
Variable sc : string → float64 * float64.

(** What a card does to the keys does not depend on the keys. *)
Lemma processCard_union (K : gmap string Value) (c : list ascii) :
  processCard pf sc K c = processCard pf sc ∅ c ∪ K.
Proof.
  unfold processCard.
  repeat match goal with
  | |- context [if ?x then _ else _] => destruct x
  | |- context [match ?x with _ => _ end] => destruct x
  end;
  first [ by rewrite (left_id_L ∅ (∪))
        | by rewrite <- insert_union_l, (left_id_L ∅ (∪)) ].
Qed.

Lemma processCards_union (cs : list (list ascii)) :
  ∀ K, foldl (processCard pf sc) K cs = foldl (processCard pf sc) ∅ cs ∪ K.
Proof.
  induction cs as [|c cs IH]; intros K; cbn [foldl].
  - by rewrite (left_id_L ∅ (∪)).
  - rewrite (IH (processCard _ _ K c)), (IH (processCard _ _ ∅ c)).
    rewrite (processCard_union K c), (assoc_L (∪)). reflexivity.
Qed.

(** X12.  What a header card does to the key table does not depend on the
    table, so in any sequence of cards the value of a key is the one
    written by the last card that writes it: later duplicates overwrite
    earlier ones. *)
Theorem last_card_of_a_key_wins (K : gmap string Value) cs1 c cs2 key v :
  processCard pf sc ∅ c !! key = Some v →
  (∀ c', c' ∈ cs2 → processCard pf sc ∅ c' !! key = None) →
  foldl (processCard pf sc) K (cs1 ++ c :: cs2) !! key = Some v.
Proof.
  intros Hc Hlater. rewrite foldl_app. cbn [foldl].
  generalize (foldl (processCard pf sc) K cs1). intros K1.
  assert (processCard pf sc K1 c !! key = Some v) as H1.
  { rewrite processCard_union. apply lookup_union_Some_l, Hc. }
  revert H1. generalize (processCard pf sc K1 c). clear Hc K1 K.
  induction cs2 as [|c2 cs2 IH]; intros K2 H2; cbn [foldl]; [exact H2|].
  apply IH.
  - intros c' Hin. apply Hlater. by right.
  - rewrite processCard_union, lookup_union_r; [exact H2|].
    apply Hlater. by left.
Qed.

Lemma NextPage_block (b : Reader) (src : list ascii) b1 block :
  reader b = Some src → length (buf b) = 2880%nat →
  NextPage b = Ok (b1, block, None) →
  reader b1 = Some (drop 2880 src) ∧ length (buf b1) = 2880%nat ∧ length block = 2880%nat ∧
  left b1 = right b1 ∧ 0 ≤ left b1 ≤ 2880 ∧ elem b1 = elem b ∧ eof b1 = eof b ∧
  (0 < length src)%nat ∧ take 2880 src = take (length src) block.
Proof.
  intros Hsrc Hbuf. unfold NextPage. rewrite Hsrc.
  destruct src as [|c src']; [cbn; discriminate|].
  set (src := c :: src') in *. unfold src_Read. unfold src at 1. fold src.
  rewrite Hbuf.
  assert (0 < length src)%nat as Hl by (unfold src; cbn [length]; lia).
  clearbody src. clear Hsrc.
  destruct (Nat.le_gt_cases 2880 (length src)) as [Hge|Hlt].
  - rewrite Nat.min_l by exact Hge.
    intros [= <- <-]. cbn [reader buf left right elem eof].
    rewrite length_app, length_take, length_drop, Hbuf.
    split; [reflexivity|]. split; [lia|]. split; [lia|]. split; [reflexivity|].
    split; [lia|]. split; [reflexivity|]. split; [reflexivity|]. split; [exact Hl|].
    rewrite drop_ge, app_nil_r by lia. rewrite take_take. f_equal. lia.
  - rewrite Nat.min_r by lia.
    intros [= <- <-]. cbn [reader buf left right elem eof].
    rewrite length_app, length_take, length_drop, Hbuf.
    split; [by rewrite !drop_ge by lia|]. split; [lia|]. split; [lia|].
    split; [reflexivity|]. split; [lia|]. split; [reflexivity|]. split; [reflexivity|].
    split; [exact Hl|].
    rewrite (take_ge src (length src)) by lia.
    rewrite take_app_length. apply take_ge. lia.
Qed.

(** A header that [NewHeader] returns without an error: whole blocks
    were taken from the source, the last of which brought the key END,
    and the Unit comes from the keys read so far. *)
Lemma NewHeader_loop_ok (fuel : nat) :
  ∀ b K src b1 h,
    reader b = Some src → length (buf b) = 2880%nat →
    NewHeader_loop pf sc fuel b K = Ok (b1, h, None) →
    ∃ (k : nat) K1,
      (1 ≤ k)%nat ∧ reader b1 = Some (drop (k * 2880) src) ∧
      length (buf b1) = 2880%nat ∧ left b1 = right b1 ∧ 0 ≤ left b1 ≤ 2880 ∧
      elem b1 = elem b ∧ eof b1 = eof b ∧
      is_Some (K1 !! "END"%string) ∧ header_end K1 = Ok h ∧
      ((k - 1) * 2880 < length src)%nat.
Proof.
  induction fuel as [|fuel IH]; intros b K src b1 h Hsrc Hbuf.
  all: cbn [NewHeader_loop]; res_unfold.
  all: destruct (NextPage b) as [[[b2 block] [e|]]| |] eqn:Hpage; try discriminate.
  all: destruct (NextPage_block b src b2 block Hsrc Hbuf Hpage)
         as (Hsrc2 & Hbuf2 & Hblock & Hlr & Hl & Hel & Heof & Hpos & _).
  all: destruct (Nat.ltb_spec (length (A:=ascii) block) 2880) as [Hlt|Hge];
         [exfalso; clear -Hlt Hblock; rewrite Hblock in Hlt; by apply Nat.lt_irrefl in Hlt|].
  all: destruct (foldl (processCard pf sc) K (cards block) !! "END"%string) as [v|] eqn:Hend;
         try discriminate.
  1,2: (destruct (header_end (foldl (processCard pf sc) K (cards block))) as [h1| |] eqn:Hh;
        try discriminate; intros Hrun;
        assert (b1 = b2 ∧ h = h1) as [-> ->] by (split; congruence);
        exists 1%nat; eexists; rewrite Hend;
        split; [lia|split; [rewrite Nat.mul_1_l; exact Hsrc2|
        split; [exact Hbuf2|split; [exact Hlr|split; [exact Hl|split; [exact Hel|
        split; [exact Heof|split; [eauto|split; [exact Hh|lia]]]]]]]]]).
  intros Hrun.
  destruct (IH _ _ _ _ _ Hsrc2 Hbuf2 Hrun)
    as (k & K1 & Hk & Hsrc1 & Hbuf1 & Hlr1 & Hl1 & Hel1 & Heof1 & HE & Hh & Hlt).
  exists (S k), K1. rewrite drop_drop in Hsrc1. rewrite length_drop in Hlt.
  split; [lia|]. split; [rewrite Hsrc1; do 2 f_equal; lia|].
  split; [exact Hbuf1|]. split; [exact Hlr1|]. split; [exact Hl1|].
  split; [congruence|]. split; [congruence|]. split; [exact HE|]. split; [exact Hh|].
  lia.
Qed.

Lemma header_end_Keys (K : gmap string Value) h : header_end K = Ok h → Keys h = K.
Proof.
  unfold header_end. destruct (K !! "NAXIS"%string) as [item|]; [|intros H; by inversion H].
  res_unfold. destruct (assert_int (Some item)) as [n| |]; try discriminate.
  destruct (n <? 0); [discriminate|].
  destruct (collect_naxis K 1 (Z.to_nat n)) as [l| |]; try discriminate.
  intros H. by inversion H.
Qed.

(** X13.  A NewHeader that returns without error has taken a whole number k >=
    1 of 2880-byte blocks from the source (the source is left k*2880
    bytes further on, or empty), has END among the keys, and leaves the
    block buffer fully consumed (left = right). *)
Theorem NewHeader_takes_whole_blocks (b : Reader) (src : list ascii) b1 h :
  reader b = Some src → length (buf b) = 2880%nat →
  NewHeader pf sc b = Ok (b1, h, None) →
  is_Some (Keys h !! "END"%string) ∧ left b1 = right b1 ∧
  ∃ k : nat, (1 ≤ k)%nat ∧ ((k - 1) * 2880 < length src)%nat ∧
             reader b1 = Some (drop (k * 2880) src).
Proof.
  intros Hsrc Hbuf Hrun.
  destruct (NewHeader_loop_ok _ _ _ _ _ _ Hsrc Hbuf Hrun)
    as (k & K1 & Hk & Hsrc1 & _ & Hlr & _ & _ & _ & HE & Hh & Hlt).
  rewrite (header_end_Keys _ _ Hh). eauto 10.
Qed.

(** The Unit that [NewHeader] returns holds the keys of the cards read
    so far, which have every property [P] that the cards keep. *)
Lemma NewHeader_loop_end (P : gmap string Value → Prop) (fuel : nat) :
  (∀ K c, P K → P (processCard pf sc K c)) →
  ∀ b K b1 h e,
    P K → NewHeader_loop pf sc fuel b K = Ok (b1, h, e) →
    ∃ K1, P K1 ∧
      match e with
      | None => is_Some (K1 !! "END"%string) ∧ header_end K1 = Ok h
      | Some _ => h = newUnit K1
      end.
Proof.
  intros Hcard. induction fuel as [|fuel IH]; intros b K b1 h e HP.
  all: cbn [NewHeader_loop]; res_unfold.
  all: destruct (NextPage b) as [[[b2 block] [e2|]]| |]; try discriminate.
  1,3: (intros [= <- <- <-]; exists K; split; [exact HP|reflexivity]).
  all: destruct (length block <? 2880)%nat; [discriminate|].
  all: assert (P (foldl (processCard pf sc) K (cards block))) as HP1
         by (clear -HP Hcard; revert K HP; induction (cards block) as [|c cs IHc];
             intros K HP; cbn [foldl]; [exact HP|apply IHc, Hcard, HP]).
  all: destruct (foldl (processCard pf sc) K (cards block) !! "END"%string) as [v|] eqn:Hend;
         try discriminate.
  1,2: (destruct (header_end (foldl (processCard pf sc) K (cards block))) as [h1| |] eqn:Hh;
        try discriminate; intros [= <- <- <-];
        eexists; split; [exact HP1|]; rewrite Hend; eauto).
  intros Hrun. exact (IH _ _ _ _ _ HP1 Hrun).
Qed.

Lemma collect_naxis_spec (K : gmap string Value) (count : nat) :
  ∀ i l, collect_naxis K i count = Ok l →
    length l = count ∧
    ∀ (j : nat) x, l !! j = Some x → K !! Nth "NAXIS" (i + Z.of_nat j) = Some (VInt x).
Proof.
  induction count as [|count IH]; intros i l; cbn [collect_naxis].
  - intros [= <-]. split; [reflexivity|]. intros j x Hj. by rewrite lookup_nil in Hj.
  - res_unfold.
    destruct (K !! Nth "NAXIS" i) as [[]|] eqn:Hk; cbn [assert_int]; try discriminate.
    destruct (collect_naxis K (i + 1) count) as [xs| |] eqn:Hxs; try discriminate.
    intros [= <-]. destruct (IH _ _ Hxs) as [Hlen Hall].
    split; [cbn; lia|]. intros [|j] x Hj; cbn in Hj.
    + inversion Hj; subst. rewrite Z.add_0_r. exact Hk.
    + replace (i + Z.of_nat (S j)) with (i + 1 + Z.of_nat j) by lia. by apply Hall.
Qed.

Lemma header_end_Naxis (K : gmap string Value) h :
  header_end K = Ok h →
  Keys h = K ∧
  match K !! "NAXIS"%string with
  | None => Naxis h = []
  | Some v =>
      ∃ n, v = VInt n ∧ Z.of_nat (length (Naxis h)) = n ∧
           ∀ (j : nat) x, Naxis h !! j = Some x →
                          K !! Nth "NAXIS" (Z.of_nat j + 1) = Some (VInt x)
  end.
Proof.
  unfold header_end.
  destruct (K !! "NAXIS"%string) as [item|]; [|intros [= <-]; by split].
  res_unfold. destruct item; cbn [assert_int]; try discriminate.
  destruct (Z.ltb_spec n 0); [discriminate|].
  destruct (collect_naxis K 1 (Z.to_nat n)) as [l| |] eqn:Hl; try discriminate.
  intros [= <-]. cbn [Keys Naxis set_Naxis newUnit]. split; [reflexivity|].
  destruct (collect_naxis_spec _ _ _ _ Hl) as [Hlen Hall].
  exists n. split; [reflexivity|]. split; [lia|].
  intros j x Hj. rewrite Z.add_comm. by apply Hall.
Qed.

(** X14.  In a header that NewHeader returns without error, Naxis is empty
    when there is no NAXIS key; otherwise NAXIS is an integer n, Naxis
    has n entries and entry j (from 0) is the integer value of the key
    NAXIS(j+1). *)
Theorem NewHeader_Naxis_mirrors_the_keys (b b1 : Reader) (h : Unit) :
  NewHeader pf sc b = Ok (b1, h, None) →
  match Keys h !! "NAXIS"%string with
  | None => Naxis h = []
  | Some v =>
      ∃ n, v = VInt n ∧ Z.of_nat (length (Naxis h)) = n ∧
           ∀ (j : nat) x, Naxis h !! j = Some x →
                          Keys h !! Nth "NAXIS" (Z.of_nat j + 1) = Some (VInt x)
  end.
Proof.
  intros Hrun.
  destruct (NewHeader_loop_end (λ _, True) _ (λ _ _ _, I) _ _ _ _ _ I Hrun)
    as (K1 & _ & _ & Hh).
  destruct (header_end_Naxis _ _ Hh) as [HK HN]. rewrite HK. exact HN.
Qed.

Lemma parseUint_range (M : Z) (l : list ascii) :
  ∀ n r, 0 ≤ n ≤ M → parseUint M l n = Some r → 0 ≤ r ≤ M.
Proof.
  induction l as [|c l IH]; intros n r Hn; cbn [parseUint].
  - intros [= <-]. exact Hn.
  - destruct (isDigit c) eqn:Hd; [|discriminate].
    unfold isDigit in Hd. apply andb_true_iff in Hd as [H1 H2].
    apply Z.leb_le in H1, H2.
    destruct (Z.ltb_spec M (n * 10 + (byte_val c - 48))).
    + intros [= <-]. lia.
    + apply IH. lia.
Qed.

Lemma ParseInt_range (s : string) (bits : Z) :
  1 ≤ bits → - 2 ^ (bits - 1) ≤ ParseInt s bits < 2 ^ (bits - 1).
Proof.
  intros Hb. unfold ParseInt, ParseInt_err.
  assert (0 < 2 ^ (bits - 1)) as Hc by (apply Z.pow_pos_nonneg; lia).
  assert (2 ^ bits = 2 * 2 ^ (bits - 1)) as Hp.
  { replace bits with (1 + (bits - 1)) at 1 by lia. rewrite Z.pow_add_r by lia. reflexivity. }
  destruct (bytes s) as [|c l]; [cbn; lia|].
  set (digits := if Ascii.eqb c "+" || Ascii.eqb c "-" then l else c :: l).
  destruct (ParseUint digits bits) as [un|] eqn:Hu; [|cbn; lia].
  assert (0 ≤ un) as Hun.
  { unfold ParseUint in Hu. destruct digits; [discriminate|].
    apply parseUint_range in Hu; lia. }
  destruct (Ascii.eqb c "-"); cbn [negb andb].
  - destruct (Z.ltb_spec (2 ^ (bits - 1)) un); cbn [fst]; lia.
  - destruct (Z.leb_spec (2 ^ (bits - 1)) un); cbn [fst]; lia.
Qed.

Lemma processCard_int32 (K : gmap string Value) (c : list ascii) :
  int32_keys K → int32_keys (processCard pf sc K c).
Proof.
  intros HK key n. rewrite processCard_union.
  intros [Hc|[_ Hk]]%lookup_union_Some_raw; [|exact (HK _ _ Hk)].
  revert Hc. unfold processCard.
  repeat match goal with
  | |- context [if ?x then _ else _] => destruct x
  | |- context [match ?x with _ => _ end] => destruct x
  end;
  rewrite ?lookup_insert_Some, ?lookup_empty; try (intros [[_ [=]]|[_ [=]]]); try discriminate.
  all: subst n; apply (ParseInt_range _ 32); lia.
Qed.

(** X15.  Every integer value in the keys of a header that NewHeader returns,
    and so every entry of Naxis, lies in the 32-bit range (integer
    literals are parsed with bit size 32). *)
Theorem header_integers_are_int32 (b b1 : Reader) (h : Unit) (e : option error) :
  NewHeader pf sc b = Ok (b1, h, e) →
  int32_keys (Keys h) ∧ Forall int32 (Naxis h).
Proof.
  intros Hrun.
  destruct (NewHeader_loop_end int32_keys _ processCard_int32 _ _ _ _ _
              ltac:(intros k n; by rewrite lookup_empty) Hrun) as (K1 & HK1 & He).
  destruct e as [e|].
  - subst h. cbn. split; [exact HK1|constructor].
  - destruct He as [_ Hh]. destruct (header_end_Naxis _ _ Hh) as [HK HN]. rewrite HK.
    split; [exact HK1|].
    destruct (K1 !! "NAXIS"%string) as [v|]; [|rewrite HN; constructor].
    destruct HN as (n & _ & _ & Hall).
    apply Forall_lookup. intros j x Hj. exact (HK1 _ _ (Hall j x Hj)).
Qed.

End Header.

Lemma last_card_of_a_key_wins_witness :
  foldl (processCard ParseFloat_unused Sscanf_complex_unused) ∅
    ([card "OBJECT  = 'M31' /"] ++ card "OBJECT  = 'M32' /" :: [card "BITPIX  = 8"])
    !! "OBJECT"%string = Some (VString "M32").
Proof.
  apply (last_card_of_a_key_wins ParseFloat_unused Sscanf_complex_unused).
  - vm_compute. reflexivity.
  - intros c' Hc. apply list_elem_of_singleton in Hc. subst c'. vm_compute. reflexivity.
Defined.

Lemma NewHeader_takes_whole_blocks_witness :
  left (header_of stream_image_3x2).1 = right (header_of stream_image_3x2).1 ∧
  reader (header_of stream_image_3x2).1 = Some (byte_of <$> [1; 2; 3; 4; 5; 6]).
Proof.
  destruct (NewHeader_takes_whole_blocks ParseFloat_unused Sscanf_complex_unused
              (NewReader stream_image_3x2) stream_image_3x2
              (header_of stream_image_3x2).1 (header_of stream_image_3x2).2)
    as (_ & Hlr & _).
  - reflexivity.
  - vm_compute. reflexivity.
  - vm_compute. reflexivity.
  - split; [exact Hlr|]. vm_compute. reflexivity.
Defined.

Lemma NewHeader_Naxis_mirrors_the_keys_witness :
  Keys (header_of stream_image_3x2).2 !! "NAXIS"%string = Some (VInt 2) ∧
  length (Naxis (header_of stream_image_3x2).2) = 2%nat.
Proof.
  assert (Keys (header_of stream_image_3x2).2 !! "NAXIS"%string = Some (VInt 2)) as Hk
    by (vm_compute; reflexivity).
  split; [exact Hk|].
  pose proof (NewHeader_Naxis_mirrors_the_keys ParseFloat_unused Sscanf_complex_unused
                (NewReader stream_image_3x2)
                (header_of stream_image_3x2).1 (header_of stream_image_3x2).2) as H.
  rewrite Hk in H. destruct H as (n & Hn & Hlen & _); [vm_compute; reflexivity|].
  inversion Hn; subst n. lia.
Defined.

Lemma header_integers_are_int32_witness :
  Forall int32 (Naxis (header_of stream_image_3x2).2).
Proof.
  apply (header_integers_are_int32 ParseFloat_unused Sscanf_complex_unused
           (NewReader stream_image_3x2)
           (header_of stream_image_3x2).1 (header_of stream_image_3x2).2 None).
  vm_compute. reflexivity.
Defined.

(** ** [verifyPrimary] and [verifyExtension] *)

Lemma missing_naxis_None (K : gmap string Value) (count : nat) :
  ∀ i, missing_naxis K i count = None ↔
       ∀ j, i ≤ j < i + Z.of_nat count → is_int (K !! Nth "NAXIS" j) = true.
Proof.
  induction count as [|count IH]; intros i; cbn [missing_naxis].
  - split; [intros _ j Hj; lia|reflexivity].
  - destruct (is_int (K !! Nth "NAXIS" i)) eqn:Hi.
    + rewrite IH. split; intros H j Hj.
      * destruct (Z.eq_dec j i) as [->|Hne]; [exact Hi|apply H; lia].
      * apply H. lia.
    + split; [discriminate|]. intros H. rewrite H in Hi by lia. discriminate.
Qed.

Lemma verifyPrimary_None (h : Unit) :
  verifyPrimary h = None →
  is_Some (Keys h !! "SIMPLE"%string) ∧ ∃ bitpix naxis, mandatory (Keys h) bitpix naxis.
Proof.
  unfold verifyPrimary, mandatory.
  destruct (Keys h !! "SIMPLE"%string) as [v|]; [|discriminate].
  destruct (Keys h !! "BITPIX"%string) as [[]|]; try discriminate.
  destruct (valid_bitpix n) eqn:Hv; [|discriminate]. cbn [negb].
  destruct (Keys h !! "NAXIS"%string) as [[]|]; try discriminate.
  destruct (missing_naxis (Keys h) 1 (Z.to_nat n0)) eqn:Hm; [discriminate|].
  intros _. split; [eauto|]. exists n, n0. repeat split; try assumption.
  intros i Hi. rewrite missing_naxis_None in Hm. apply Hm. lia.
Qed.

Lemma verifyExtension_None (h : Unit) :
  verifyExtension h = None →
  ∃ xten bitpix naxis pcount,
    Keys h !! "XTENSION"%string = Some (VString xten) ∧
    mandatory (Keys h) bitpix naxis ∧
    Keys h !! "PCOUNT"%string = Some (VInt pcount) ∧
    is_int (Keys h !! "GCOUNT"%string) = true ∧
    (xten = "IMAGE"%string → pcount = 0) ∧
    (xten = "TABLE"%string ∨ xten = "BINTABLE"%string → bitpix = 8 ∧ naxis = 2).
Proof.
  unfold verifyExtension, mandatory.
  destruct (Keys h !! "XTENSION"%string) as [[]|]; try discriminate.
  destruct (Keys h !! "BITPIX"%string) as [[]|]; try discriminate.
  destruct (valid_bitpix n) eqn:Hv; [|discriminate]. cbn [negb].
  destruct (Keys h !! "NAXIS"%string) as [[]|]; try discriminate.
  destruct (missing_naxis (Keys h) 1 (Z.to_nat n0)) eqn:Hm; [discriminate|].
  destruct (Keys h !! "PCOUNT"%string) as [[]|]; try discriminate.
  destruct (is_int (Keys h !! "GCOUNT"%string)) eqn:Hg; [|discriminate]. cbn [negb].
  intros Hrest. exists s, n, n0, n1.
  split; [reflexivity|]. split.
  { repeat split; try assumption. intros i Hi.
    rewrite missing_naxis_None in Hm. apply Hm. lia. }
  split; [reflexivity|]. split; [reflexivity|].
  destruct (String.eqb_spec s "IMAGE") as [->|Hi].
  { destruct (Z.eqb_spec n1 0); [|discriminate]. split; [auto|]. intros [?|?]; discriminate. }
  split; [congruence|].
  destruct (String.eqb_spec s "TABLE") as [->|Ht];
    [|destruct (String.eqb_spec s "BINTABLE") as [->|Hb]]; cbn [orb] in Hrest.
  + destruct (Z.eqb_spec n 8); [|discriminate].
    destruct (Z.eqb_spec n0 2); [|discriminate]. auto.
  + destruct (Z.eqb_spec n 8); [|discriminate].
    destruct (Z.eqb_spec n0 2); [|discriminate]. auto.
  + intros [?|?]; congruence.
Qed.

(** X16.  verifyPrimary returns nil exactly when SIMPLE is present, BITPIX is
    an integer among 8, 16, 32, 64, -32, -64, NAXIS is an integer n, and
    each key NAXIS1..NAXISn is an integer. *)
Theorem verifyPrimary_accepts_iff (h : Unit) :
  verifyPrimary h = None ↔
  is_Some (Keys h !! "SIMPLE"%string) ∧ ∃ bitpix naxis, mandatory (Keys h) bitpix naxis.
Proof.
  split; [apply verifyPrimary_None|].
  unfold verifyPrimary, mandatory.
  intros [[v ->] (bitpix & naxis & -> & -> & -> & Hall)]. cbn [negb].
  replace (missing_naxis (Keys h) 1 (Z.to_nat naxis)) with (@None string); [reflexivity|].
  symmetry. apply missing_naxis_None. intros j Hj. apply Hall. lia.
Qed.

(** X17.  verifyExtension returns nil exactly when XTENSION is a string,
    BITPIX, NAXIS and NAXIS1..NAXISn are as for a primary header, PCOUNT
    and GCOUNT are integers, PCOUNT is 0 for IMAGE, and BITPIX is 8 and
    NAXIS is 2 for TABLE and BINTABLE. *)
Theorem verifyExtension_accepts_iff (h : Unit) :
  verifyExtension h = None ↔
  ∃ xten bitpix naxis pcount,
    Keys h !! "XTENSION"%string = Some (VString xten) ∧
    mandatory (Keys h) bitpix naxis ∧
    Keys h !! "PCOUNT"%string = Some (VInt pcount) ∧
    is_int (Keys h !! "GCOUNT"%string) = true ∧
    (xten = "IMAGE"%string → pcount = 0) ∧
    (xten = "TABLE"%string ∨ xten = "BINTABLE"%string → bitpix = 8 ∧ naxis = 2).
Proof.
  split; [apply verifyExtension_None|].
  unfold verifyExtension, mandatory.
  intros (xten & bitpix & naxis & pcount & -> & (-> & -> & -> & Hall) & -> & -> & Himg & Htab).
  cbn [negb].
  replace (missing_naxis (Keys h) 1 (Z.to_nat naxis)) with (@None string).
  2: { symmetry. apply missing_naxis_None. intros j Hj. apply Hall. lia. }
  destruct (String.eqb_spec xten "IMAGE") as [->|Hi].
  { rewrite (Himg eq_refl). reflexivity. }
  destruct (String.eqb_spec xten "TABLE") as [->|Ht];
    [|destruct (String.eqb_spec xten "BINTABLE") as [->|Hb]]; cbn [orb].
  + destruct Htab as [-> ->]; [by left|reflexivity].
  + destruct Htab as [-> ->]; [by right|reflexivity].
  + reflexivity.
Qed.

(** ** [loadTable]: the shape of a table and the names of its fields *)

Lemma Read_loop_length (fuel : nat) :
  ∀ b p n b1 p1, (n ≤ length p)%nat →
    Read_loop fuel b p n = Ok (b1, p1) → length p1 = length p.
Proof.
  induction fuel as [|fuel IH]; intros b p n b1 p1 Hn; cbn [Read_loop].
  all: destruct ((left b <? 0) || (right b <? left b)
                 || (Z.of_nat (length (buf b)) <? right b)); [discriminate|].
  all: set (avail := slice (buf b) (Z.to_nat (left b)) (Z.to_nat (right b))).
  all: set (k := Nat.min (length p - n) (length avail)).
  all: assert (length (take n p ++ take k avail ++ drop (n + k) p) = length p) as Hlen
         by (rewrite !length_app, !length_take, length_drop; unfold k; lia).
  all: destruct (n + k =? length p)%nat; [intros [= <- <-]; exact Hlen|].
  all: cbn [set_left reader buf elem eof].
  all: destruct (reader b) as [src|]; [|discriminate].
  all: destruct (src_Read src (buf b)) as [[[src' buf'] r] [e|]];
         [intros [= <- <-]; exact Hlen|].
  { discriminate. }
  intros Hrun. apply IH in Hrun; [lia|]. rewrite Hlen. unfold k. lia.
Qed.

Lemma Read_length (b : Reader) (p : list ascii) b1 p1 :
  Read b p = Ok (b1, p1) → length p1 = length p.
Proof. unfold Read. apply Read_loop_length. lia. Qed.

Lemma TDISP_not_hash k s : Nth "TDISP" k ≠ "#" +:+ s.
Proof. cbv [Nth String.append]; congruence. Qed.

Lemma with_tdisp_lookup_ne K n disp key :
  key ≠ Nth "TDISP" n → with_tdisp K n disp !! key = K !! key.
Proof.
  intros Hne. unfold with_tdisp. destruct (K !! Nth "TDISP" n); [reflexivity|].
  rewrite lookup_insert_ne; [reflexivity|]. by apply not_eq_sym.
Qed.

(** The Unit that [register] returns. *)
Lemma register_cases h i fn disp h1 :
  register h i fn disp = Ok h1 →
  ∃ f K, h1 = set_table h (Data h) (<[Z.to_nat i := fn]> (flist h)) f
                (with_tdisp K (i + 1) disp) ∧
    ((∃ name, Keys h !! Nth "TTYPE" (i + 1) = Some (VString name) ∧
              f = <[name := fn]> (fields h) ∧
              K = <["#" +:+ name := VInt (i + 1)]> (Keys h))
     ∨ (Keys h !! Nth "TTYPE" (i + 1) = None ∧ f = fields h ∧
        K = <[Nth "TTYPE" (i + 1) := VString (Nth "COL" (i + 1))]> (Keys h))).
Proof.
  unfold register.
  destruct (Keys h !! Nth "TTYPE" (i + 1)) as [v|] eqn:Ht.
  - destruct v; try discriminate. res_unfold. cbn [assert_string].
    intros [= <-]. do 2 eexists. split; [reflexivity|]. left. eauto.
  - res_unfold. intros [= <-]. do 2 eexists. split; [reflexivity|]. right. eauto.
Qed.

(** An induction principle for the field loop of both kinds of table: a
    property of the field number and the Unit that holds at the start
    and is kept by a turn that skips the field and by a turn that
    registers an accessor, holds at the end; and the loop ends at the
    last field unless it returns an error. *)
Lemma loadTable_loop_ind (P : Z → Unit → Prop) (top : Z) :
  (∀ i h, 0 ≤ i < top → P i h → P (i + 1) h) →
  (∀ i h fn disp h1,
      0 ≤ i < top → P i h → fn ≠ FnNil → (∃ d, Data h = DByte d) →
      register h i fn disp = Ok h1 → P (i + 1) h1) →
  ∀ binary count i col h h' err,
    0 ≤ i → i + Z.of_nat count = top → P i h →
    loadTable_loop binary count i col h = Ok (h', err) →
    ∃ i', i ≤ i' ≤ top ∧ P i' h' ∧ (err = None → i' = top).
Proof.
  intros Hskip Hreg binary.
  induction count as [|count IH]; intros i col h h' err Hi Htop HP; cbn [loadTable_loop].
  - intros H; inversion H; subst. exists i. split; [lia|]. split; [exact HP|]. intros _. lia.
  - destruct (Keys h !! Nth "TFORM" (i + 1)) as [[]|] eqn:Hform; try discriminate.
    res_unfold. cbn [assert_string]. fold type_codes. destruct binary.
    + destruct (IndexAny s type_codes) as [j|] eqn:Hj.
      * destruct (0 <? binRepeat s j) eqn:Hrep.
        -- rewrite elem_at_nat.
           destruct (bytes s !! j) as [code|] eqn:Hcode; [|discriminate].
           unfold accessorBin, fieldReader. res_unfold.
           destruct (Data h) as [| |d| | | | |] eqn:Hd; try discriminate.
           destruct (binLayout code (binRepeat s j)) as [[l disp]| |] eqn:Hlayout;
             try discriminate.
           destruct (register h i _ disp) as [h1| |] eqn:Hr; try discriminate.
           intros Hrun.
           destruct (IH (i + 1) _ _ _ _ ltac:(lia) ltac:(lia)
                       (Hreg i h (FnBin code (binRepeat s j) col) disp h1 ltac:(lia) HP
                          ltac:(discriminate) ltac:(eauto) Hr) Hrun)
             as (i' & Hi' & HP' & He).
           exists i'. split; [lia|]. split; [exact HP'|exact He].
        -- intros Hrun.
           destruct (IH (i + 1) _ _ _ _ ltac:(lia) ltac:(lia)
                       (Hskip i h ltac:(lia) HP) Hrun) as (i' & Hi' & HP' & He).
           exists i'. split; [lia|]. split; [exact HP'|exact He].
      * intros H; inversion H; subst. exists i. split; [lia|]. split; [exact HP|discriminate].
    + destruct (_ <? 1)%nat; [discriminate|].
      destruct (Keys h !! Nth "TBCOL" (i + 1)) as [[]|]; cbn [assert_int]; try discriminate.
      destruct (elem_at (bytes s) 0) as [code| |]; try discriminate.
      unfold accessorText, fieldReader. res_unfold.
      destruct (Data h) as [| |d| | | | |] eqn:Hd; try discriminate.
      match goal with
      | |- context [match ?x with Ok _ => _ | Panic _ => _ | OutOfFuel => _ end] =>
          destruct x as [[fn disp]| |] eqn:Hacc; try discriminate
      end.
      assert (fn ≠ FnNil) as Hfn.
      { clear -Hacc. destruct code as [[] [] [] [] [] [] [] []]; cbn in Hacc;
          try discriminate; inversion Hacc; discriminate. }
      destruct (register h i fn disp) as [h1| |] eqn:Hr; try discriminate.
      intros Hrun.
      destruct (IH (i + 1) _ _ _ _ ltac:(lia) ltac:(lia)
                  (Hreg i h fn disp h1 ltac:(lia) HP Hfn ltac:(eauto) Hr) Hrun)
        as (i' & Hi' & HP' & He).
      exists i'. split; [lia|]. split; [exact HP'|exact He].
Qed.

(** [loadTable] up to its loop. *)
Lemma loadTable_unfold h b binary h' b' err :
  loadTable h b binary = Ok (h', b', err) →
  ∃ tfields width rows rest data,
    Keys h !! "TFIELDS"%string = Some (VInt tfields) ∧ 0 ≤ tfields ∧
    Naxis h = width :: rows :: rest ∧ 0 ≤ wrap64 (width * rows) ∧
    Read b (zeros (Z.to_nat (wrap64 (width * rows)))) = Ok (b', data) ∧
    loadTable_loop binary (Z.to_nat tfields) 0 0
      (set_table h (DByte data) (replicate (Z.to_nat tfields) FnNil) ∅ (Keys h))
      = Ok (h', err).
Proof.
  unfold loadTable.
  destruct (Keys h !! "TFIELDS"%string) as [[]|] eqn:Hn; try discriminate.
  res_unfold. cbn [assert_int].
  destruct (Z.ltb_spec n 0) as [|Hneg]; [discriminate|].
  destruct (Naxis h) as [|width [|rows rest]]; try discriminate.
  destruct (Z.ltb_spec (wrap64 (width * rows)) 0) as [|Hsize]; [discriminate|].
  destruct (Read b _) as [[b1 data]| |] eqn:Hread; try discriminate.
  destruct (loadTable_loop _ _ _ _ _) as [[h2 e]| |] eqn:Hloop; try discriminate.
  intros H. inversion H; subst. exists n, width, rows, rest, data. auto 10.
Qed.

Lemma shape_inv_register h0 h i fn disp h1 :
  shape_inv h0 h → register h i fn disp = Ok h1 → shape_inv h0 h1.
Proof.
  intros (HD & HN & Hc & Hl & Hp & Hb) Hr.
  destruct (register_cases _ _ _ _ _ Hr) as (f & K & -> & _).
  unfold shape_inv. cbn. rewrite length_insert. auto 10.
Qed.

Lemma agree_inv_skip K0 top i h : agree_inv K0 top i h → agree_inv K0 top (i + 1) h.
Proof.
  intros (Hl & Ht & Hn). split; [exact Hl|]. split.
  - intros k Hk. apply Ht. lia.
  - intros nm fn Hf. destruct (Hn nm fn Hf) as (k & Hk & Hrest).
    exists k. split; [lia|exact Hrest].
Qed.

Lemma agree_inv_register K0 top i h fn disp h1 :
  0 ≤ i < top → agree_inv K0 top i h → fn ≠ FnNil →
  register h i fn disp = Ok h1 → agree_inv K0 top (i + 1) h1.
Proof.
  intros Hi (Hl & Ht & Hn) Hfn Hr.
  destruct (register_cases _ _ _ _ _ Hr) as (f & K & -> & Hcase).
  unfold agree_inv. cbn [flist Keys fields set_table].
  rewrite length_insert. split; [exact Hl|].
  assert (∀ k, 0 ≤ k < i → <[Z.to_nat i := fn]> (flist h) !! Z.to_nat k
                            = flist h !! Z.to_nat k) as Hold.
  { intros k Hk. apply list_lookup_insert_ne. lia. }
  assert (<[Z.to_nat i := fn]> (flist h) !! Z.to_nat i = Some fn) as Hnew.
  { apply list_lookup_insert_eq. lia. }
  destruct Hcase as [(name & Hty & -> & ->)|(Hty & -> & ->)].
  - split.
    + intros k Hk. rewrite with_tdisp_lookup_ne by apply TTYPE_not_TDISP.
      rewrite lookup_insert_ne by (apply not_eq_sym, TTYPE_not_hash).
      apply Ht. lia.
    + intros nm fn' Hf.
      rewrite with_tdisp_lookup_ne by (apply not_eq_sym, TDISP_not_hash).
      destruct (String.eqb_spec name nm) as [->|Hne].
      * rewrite lookup_insert_eq in Hf. inversion Hf; subst fn'.
        exists i. rewrite lookup_insert_eq. rewrite <- (Ht i) by lia.
        split; [lia|]. auto.
      * rewrite lookup_insert_ne in Hf by exact Hne.
        destruct (Hn nm fn' Hf) as (k & Hk & H0 & Hh & Hfl & Hnil).
        exists k. rewrite lookup_insert_ne by (intros E; apply append_inj_r in E; congruence).
        rewrite Hold by lia. split; [lia|]. auto.
  - split.
    + intros k Hk. rewrite with_tdisp_lookup_ne by apply TTYPE_not_TDISP.
      rewrite lookup_insert_ne by (intros E; apply Nth_inj in E; lia).
      apply Ht. lia.
    + intros nm fn' Hf.
      rewrite with_tdisp_lookup_ne by (apply not_eq_sym, TDISP_not_hash).
      rewrite lookup_insert_ne by apply TTYPE_not_hash.
      destruct (Hn nm fn' Hf) as (k & Hk & H0 & Hh & Hfl & Hnil).
      exists k. rewrite Hold by lia. split; [lia|]. auto.
Qed.

(** What [loadTable] returns: the table's bytes, the header as it was
    but for the keys that the loop writes, and names that agree with
    the list of accessors. *)
Lemma loadTable_inv h b binary h' b' err :
  loadTable h b binary = Ok (h', b', err) →
  ∃ tfields width rows rest data,
    Keys h !! "TFIELDS"%string = Some (VInt tfields) ∧
    Naxis h = width :: rows :: rest ∧
    Data h' = DByte data ∧ Z.of_nat (length data) = wrap64 (width * rows) ∧
    Naxis h' = Naxis h ∧ class h' = class h ∧ pix h' = pix h ∧ pBlank h' = pBlank h ∧
    agree_inv (Keys h) tfields tfields h'.
Proof.
  intros Hrun.
  destruct (loadTable_unfold _ _ _ _ _ _ Hrun)
    as (tfields & width & rows & rest & data & Htf & Hpos & HN & Hsize & Hread & Hloop).
  apply Read_length in Hread. unfold zeros in Hread. rewrite length_replicate in Hread.
  set (h1 := set_table h (DByte data) (replicate (Z.to_nat tfields) FnNil) ∅ (Keys h)) in *.
  destruct (loadTable_loop_ind
              (λ i u, shape_inv h1 u ∧ agree_inv (Keys h) tfields i u) tfields)
    with (binary := binary) (count := Z.to_nat tfields) (i := 0) (col := 0)
         (h := h1) (h' := h') (err := err)
    as (i' & Hi' & [(HD & HNx & Hc & Hl & Hp & Hb) Hagree] & _).
  - intros i u Hi [Hs Ha]. split; [exact Hs|by apply agree_inv_skip].
  - intros i u fn disp u1 Hi [Hs Ha] Hfn _ Hr.
    split; [by eapply shape_inv_register|by eapply agree_inv_register].
  - lia.
  - lia.
  - split; [unfold shape_inv; auto 10|].
    unfold agree_inv, h1. cbn [flist Keys fields set_table].
    rewrite length_replicate. split; [lia|]. split; [reflexivity|].
    intros nm fn Hf. by rewrite lookup_empty in Hf.
  - exact Hloop.
  - exists tfields, width, rows, rest, data.
    split; [exact Htf|]. split; [exact HN|]. split; [exact HD|]. split; [lia|].
    split; [exact HNx|]. split; [exact Hc|]. split; [exact Hp|]. split; [exact Hb|].
    destruct Hagree as (Hl1 & Ht & Hn). split; [exact Hl1|]. split.
    + intros k Hk. apply Ht. lia.
    + intros nm fn Hf. destruct (Hn nm fn Hf) as (k & Hk & Hrest).
      exists k. split; [lia|exact Hrest].
Qed.

Lemma Read_zeros (b : Reader) (n : nat) :
  ready b →
  ∃ b1, Read b (zeros n) = Ok (b1, take n (pending b ++ zeros n)) ∧
        pending b1 = drop n (pending b) ∧
        eof b1 = eof b || bool_decide (length (pending b) < n)%nat.
Proof.
  intros Hrd. unfold Read.
  assert (length (zeros n) = n) as Hz by apply length_replicate.
  destruct (Nat.le_gt_cases n (length (pending b))) as [Hle|Hgt].
  - destruct (Read_loop_enough (remaining b) b (zeros n) 0 Hrd ltac:(lia) ltac:(lia)
                ltac:(lia)) as (b1 & Hrun & _ & Hp & He & _).
    rewrite Hz, Nat.sub_0_r in Hrun, Hp. rewrite take_0 in Hrun. cbn [app] in Hrun.
    exists b1. rewrite Hrun, take_app_le by lia. split; [reflexivity|].
    split; [exact Hp|]. rewrite He, bool_decide_eq_false_2 by lia. by rewrite orb_false_r.
  - destruct (Read_loop_short (remaining b) b (zeros n) 0 Hrd ltac:(lia) ltac:(lia)
                ltac:(lia)) as (b1 & Hrun & _ & Hp & He & _).
    rewrite take_0 in Hrun. cbn [app plus] in Hrun.
    exists b1. rewrite Hrun. split.
    + do 2 f_equal. rewrite take_app_ge by lia. f_equal.
      unfold zeros. rewrite drop_replicate, take_replicate. f_equal. lia.
    + rewrite Hp, He, drop_ge by lia. rewrite bool_decide_eq_true_2 by lia.
      by rewrite orb_true_r.
Qed.

(** X18.  A loadTable that returns has read NAXIS1*NAXIS2 bytes (as an int)
    into Data as a byte slice: the next bytes of the stream, padded with
    zero bytes when the stream is shorter; the reader is left after
    them, Naxis and the class are unchanged, and the accessor list has
    TFIELDS entries. *)
Theorem loadTable_reads_the_rows h b binary h' b' err :
  loadTable h b binary = Ok (h', b', err) → ready b →
  ∃ tfields width rows rest,
    Keys h !! "TFIELDS"%string = Some (VInt tfields) ∧
    Naxis h = width :: rows :: rest ∧
    let size := Z.to_nat (wrap64 (width * rows)) in
    Data h' = DByte (take size (pending b ++ zeros size)) ∧
    pending b' = drop size (pending b) ∧
    Naxis h' = Naxis h ∧ class h' = class h ∧
    Z.of_nat (length (flist h')) = tfields.
Proof.
  intros Hrun Hrd.
  destruct (loadTable_inv _ _ _ _ _ _ Hrun)
    as (tfields & width & rows & rest & data & Htf & HN & HD & Hlen & HNx & Hc & _ & _ & Hl & _).
  destruct (loadTable_unfold _ _ _ _ _ _ Hrun)
    as (tfields' & width' & rows' & rest' & data' & Htf' & _ & HN' & _ & Hread & Hloop).
  rewrite HN in HN'. inversion HN'; subst width' rows' rest'.
  destruct (Read_zeros b (Z.to_nat (wrap64 (width * rows))) Hrd) as (b1 & Hread1 & Hp & _).
  rewrite Hread in Hread1. inversion Hread1; subst b1 data'.
  exists tfields, width, rows, rest. cbn zeta.
  split; [exact Htf|]. split; [exact HN|]. split; [|auto].
  destruct (loadTable_loop_ind (λ _ u, Data u = DByte (take (Z.to_nat (wrap64 (width * rows)))
              (pending b ++ zeros (Z.to_nat (wrap64 (width * rows)))))) tfields')
    with (binary := binary) (count := Z.to_nat tfields') (i := 0) (col := 0)
         (h := set_table h (DByte (take (Z.to_nat (wrap64 (width * rows)))
              (pending b ++ zeros (Z.to_nat (wrap64 (width * rows))))))
              (replicate (Z.to_nat tfields') FnNil) ∅ (Keys h)) (h' := h') (err := err)
    as (i' & _ & HD' & _); try assumption; try reflexivity; try lia.
  - auto.
  - intros i u fn disp u1 _ Hu _ _ Hr.
    destruct (register_cases _ _ _ _ _ Hr) as (f & K & -> & _). exact Hu.
  - rewrite Htf in Htf'. inversion Htf'; subst. lia.
Qed.

Lemma loadTable_reads_the_rows_witness :
  Data (table_of table_src true) = DByte (byte_of <$> [0; 1; 0; 2; 255; 255; 0; 0; 1; 0]) ∧
  length (flist (table_of table_src true)) = 2%nat.
Proof.
  destruct loadTable_table_src as [b' Hrun].
  destruct (loadTable_reads_the_rows _ _ _ _ _ _ Hrun)
    as (tfields & width & rows & rest & Htf & HN & HD & _ & _ & _ & Hl).
  - unfold ready. vm_compute. split; [split; discriminate|]. split; [discriminate|].
    split; [lia|eauto].
  - assert (Naxis (header_of table_src).2 = [10; 1]) as HN' by (vm_compute; reflexivity).
    assert (Keys (header_of table_src).2 !! "TFIELDS"%string = Some (VInt 2)) as Htf'
      by (vm_compute; reflexivity).
    assert (width = 10 ∧ rows = 1 ∧ tfields = 2) as (-> & -> & ->).
    { rewrite HN' in HN. rewrite Htf' in Htf. inversion HN. inversion Htf. auto. }
    split; [rewrite HD; vm_compute; reflexivity|]. lia.
Defined.

(** X19.  After loadTable, a name that Field knows is the TTYPE of some field
    k of the header, Field by that name and Field by the index k return
    the same accessor, and Format by name and by the index k give the
    same result on every row. *)
Theorem Field_by_name_is_by_index pf so h b binary h' b' err nm fn :
  loadTable h b binary = Ok (h', b', err) → fields h' !! nm = Some fn →
  ∃ k, 0 ≤ k ∧ Keys h !! Nth "TTYPE" (k + 1) = Some (VString nm) ∧
       Field h' (ColString nm) = fn ∧ Field h' (ColInt k) = fn ∧
       ∀ row, Format pf so h' (ColString nm) row = Format pf so h' (ColInt k) row.
Proof.
  intros Hrun Hf.
  destruct (loadTable_inv _ _ _ _ _ _ Hrun)
    as (tfields & _ & _ & _ & _ & _ & _ & _ & _ & _ & _ & _ & _ & Hl & _ & Hn).
  destruct (Hn nm fn Hf) as (k & Hk & HT & Hh & Hfl & Hnil).
  exists k. split; [lia|]. split; [exact HT|].
  assert ((0 <=? k) && (k <? Z.of_nat (length (flist h'))) = true) as Hin.
  { apply andb_true_iff. split; [apply Z.leb_le|apply Z.ltb_lt]; lia. }
  split; [|split].
  - unfold Field. by rewrite Hf.
  - unfold Field. by rewrite Hin, Hfl.
  - intros row. unfold Format, column. rewrite Hin, Hh, Hf, Hfl. res_unfold.
    cbn [assert_int default from_option id]. reflexivity.
Qed.

Lemma Field_by_name_is_by_index_witness :
  Field (table_of table_src true) (ColString "ID") = FnBin "J" 1 6 ∧
  Field (table_of table_src true) (ColInt 1) = FnBin "J" 1 6.
Proof.
  destruct loadTable_table_src as [b' Hrun].
  destruct (Field_by_name_is_by_index ParseFloat_unused Sprintf_unused _ _ _ _ _ _
              "ID" (FnBin "J" 1 6) Hrun) as (k & Hk & Hty & Hn & Hi & _).
  - vm_compute. reflexivity.
  - split; [exact Hn|]. vm_compute. reflexivity.
Defined.

(** X20.  After loadTable, a name that is not the TTYPE value of any field in
    the header gets the null accessor from Field, which returns nil on
    every row; so a default name COLn that the loop wrote into Keys for
    a field without TTYPE is not known to Field, unless the header uses
    it as a TTYPE. *)
Theorem Field_knows_header_names_only pf h b binary h' b' err tfields nm :
  loadTable h b binary = Ok (h', b', err) →
  Keys h !! "TFIELDS"%string = Some (VInt tfields) →
  (∀ k, 0 ≤ k < tfields → Keys h !! Nth "TTYPE" (k + 1) ≠ Some (VString nm)) →
  Field h' (ColString nm) = FnNull ∧
  ∀ row, call pf h' (Field h' (ColString nm)) row = Ok VNil.
Proof.
  intros Hrun Htf Hno.
  destruct (loadTable_inv _ _ _ _ _ _ Hrun)
    as (tfields' & _ & _ & _ & _ & Htf' & _ & _ & _ & _ & _ & _ & _ & Hl & _ & Hn).
  assert (tfields' = tfields) as -> by congruence. clear Hl.
  assert (Field h' (ColString nm) = FnNull) as HF.
  { unfold Field. destruct (fields h' !! nm) as [fn|] eqn:Hf; [|reflexivity].
    destruct (Hn nm fn Hf) as (k & Hk & HT & _). by destruct (Hno k Hk). }
  split; [exact HF|]. intros row. rewrite HF. reflexivity.
Qed.

Lemma Field_knows_header_names_only_witness :
  Field (table_of text_src false) (ColString "COL2") = FnNull ∧
  Keys (table_of text_src false) !! "TTYPE2"%string = Some (VString "COL2").
Proof.
  destruct loadTable_text_src as [b' Hrun].
  split; [|vm_compute; reflexivity].
  apply (Field_knows_header_names_only ParseFloat_unused _ _ _ _ _ _ 2 "COL2" Hrun).
  - vm_compute. reflexivity.
  - intros k Hk. assert (k = 0 ∨ k = 1) as [->| ->] by lia; vm_compute; discriminate.
Defined.

(** X21.  After loadTable, calling any accessor that Field returns (other than
    the nil function of a field that was not laid out) on a row below 0
    or not below NAXIS2 returns nil, without a panic. *)
Theorem rows_out_of_range_give_nil pf h b binary h' b' err rows col row :
  loadTable h b binary = Ok (h', b', err) → Naxis h !! 1%nat = Some rows →
  row < 0 ∨ rows ≤ row → Field h' col ≠ FnNil →
  call pf h' (Field h' col) row = Ok VNil.
Proof.
  intros Hrun Hrows Hrow Hfn.
  destruct (loadTable_inv _ _ _ _ _ _ Hrun)
    as (tfields & width & rows' & rest & data & _ & HN & _ & _ & HNx & _).
  rewrite HN in Hrows. cbn in Hrows. inversion Hrows; subst rows'.
  destruct (Field h' col) as [| |code r c|code r c]; [congruence|reflexivity| |].
  all: unfold call, call_row; rewrite HNx, HN; cbn [lookup list_lookup].
  all: destruct (Z.ltb_spec row 0); [reflexivity|].
  all: destruct (Z.leb_spec rows row); [reflexivity|lia].
Qed.

Lemma rows_out_of_range_give_nil_witness :
  call ParseFloat_unused (table_of table_src true)
    (Field (table_of table_src true) (ColString "ID")) 1 = Ok VNil.
Proof.
  destruct loadTable_table_src as [b' Hrun].
  apply (rows_out_of_range_give_nil ParseFloat_unused _ _ _ _ _ _ 1 (ColString "ID") 1 Hrun).
  - vm_compute. reflexivity.
  - right. lia.
  - vm_compute. discriminate.
Defined.

(** ** The cells of a table *)

(** A read that the buffer can serve takes the bytes at [left]. *)
Lemma Read_loop_buffered (fuel : nat) (b : Reader) (p : list ascii) :
  0 ≤ left b → left b + Z.of_nat (length p) ≤ right b →
  right b ≤ Z.of_nat (length (buf b)) →
  Read_loop fuel b p 0
    = Ok (set_left b (left b + Z.of_nat (length p)),
          slice (buf b) (Z.to_nat (left b)) (Z.to_nat (left b) + length p)).
Proof.
  intros Hl Hr Hb.
  assert (length (slice (buf b) (Z.to_nat (left b)) (Z.to_nat (right b)))
          = Z.to_nat (right b - left b)) as Hav by (rewrite slice_length; lia).
  destruct fuel; cbn [Read_loop].
  all: replace ((left b <? 0) || (right b <? left b) || (Z.of_nat (length (buf b)) <? right b))
         with false by (symmetry; rewrite !orb_false_iff, !Z.ltb_ge; lia).
  all: rewrite Hav, Nat.sub_0_r.
  all: replace (Nat.min (length p) (Z.to_nat (right b - left b))) with (length p) by lia.
  all: cbn [plus]; rewrite Nat.eqb_refl.
  all: rewrite take_0, drop_all, app_nil_r; cbn [app].
  all: do 2 f_equal; unfold slice; rewrite take_take; f_equal; lia.
Qed.

(** A read that the buffer cannot serve, on a reader over the bytes
    of a table: there is no underlying reader to turn to. *)
Lemma Read_loop_nil_reader (fuel : nat) (b : Reader) (p : list ascii) :
  reader b = None → 0 ≤ left b ≤ right b → right b ≤ Z.of_nat (length (buf b)) →
  right b < left b + Z.of_nat (length p) →
  Read_loop fuel b p 0 = Panic "nil pointer dereference".
Proof.
  intros Hnil Hl Hb Hshort.
  assert (length (slice (buf b) (Z.to_nat (left b)) (Z.to_nat (right b)))
          = Z.to_nat (right b - left b)) as Hav by (rewrite slice_length; lia).
  destruct fuel; cbn [Read_loop].
  all: replace ((left b <? 0) || (right b <? left b) || (Z.of_nat (length (buf b)) <? right b))
         with false by (symmetry; rewrite !orb_false_iff, !Z.ltb_ge; lia).
  all: rewrite Hav, Nat.sub_0_r.
  all: replace (Nat.min (length p) (Z.to_nat (right b - left b)))
         with (Z.to_nat (right b - left b)) by lia.
  all: cbn [plus]; destruct (Nat.eqb_spec (Z.to_nat (right b - left b)) (length p)); [lia|].
  all: cbn [set_left reader]; rewrite Hnil; reflexivity.
Qed.

(** The reader that a field accessor sets on its cell. *)
Lemma call_row_cell pf h data width rows rest row c code r :
  Data h = DByte data → Naxis h = width :: rows :: rest →
  0 ≤ row < rows → 0 ≤ width → 0 ≤ c →
  row * width + c ≤ Z.of_nat (length data) ≤ MaxInt64 →
  call pf h (FnBin code r c) row =
    binField code r {| buf := data; elem := zeros 8; left := row * width + c;
                       right := Z.of_nat (length data); reader := None; eof := false |}.
Proof.
  intros HD HN Hrow Hw Hc Hfit. unfold call, call_row, fieldReader.
  rewrite HN, HD. cbn [lookup list_lookup]. res_unfold.
  destruct (Z.ltb_spec row 0); [lia|]. destruct (Z.leb_spec rows row); [lia|].
  assert (0 ≤ row * width) by nia.
  rewrite (wrap64_id (row * width)) by (unfold MinInt64, MaxInt64 in *; lia).
  rewrite wrap64_id by (unfold MinInt64, MaxInt64 in *; lia).
  reflexivity.
Qed.

(** X22.  Calling the accessor of a scalar I, J or K field built at byte
    offset c on row r returns the integer whose big-endian two's
    complement encoding is stored at byte r*NAXIS1 + c of the table data
    (no check is made against the row width). *)
Theorem binary_cell_round_trip pf h pre post width rows rest row c code w mk x :
  (code, w, mk) ∈ int_codes → fits_bytes w x →
  Data h = DByte (pre ++ be_bytes w x ++ post) → Naxis h = width :: rows :: rest →
  0 ≤ row < rows → 0 ≤ width → 0 ≤ c →
  Z.of_nat (length pre) = row * width + c →
  Z.of_nat (length (pre ++ be_bytes w x ++ post)) ≤ MaxInt64 →
  call pf h (FnBin code 1 c) row = Ok (mk x).
Proof.
  intros Hin Hx HD HN Hrow Hw Hc Hoff Hfit.
  assert (w ≤ 8)%nat as Hw8.
  { unfold int_codes in Hin. rewrite !elem_of_cons, elem_of_nil in Hin.
    destruct Hin as [H|[H|[H|[]]]]; inversion H; lia. }
  rewrite (call_row_cell pf h _ width rows rest row c code 1 HD HN Hrow Hw Hc)
    by (rewrite !length_app in *; lia).
  set (b := {| buf := pre ++ be_bytes w x ++ post; elem := zeros 8;
               left := row * width + c;
               right := Z.of_nat (length (pre ++ be_bytes w x ++ post));
               reader := None; eof := false |}).
  assert (ReadElem b w = Ok (set_elem (set_left b (left b + Z.of_nat w))
                               (be_bytes w x ++ drop w (zeros 8)), be_bytes w x)) as Hread.
  { unfold ReadElem, Read.
    assert (length (take w (elem b)) = w) as Hl.
    { rewrite length_take. unfold b, zeros. cbn [elem]. rewrite length_replicate. lia. }
    rewrite Read_loop_buffered.
    - rewrite Hl. res_unfold. cbn [set_left elem b buf left].
      replace (slice (pre ++ be_bytes w x ++ post) (Z.to_nat (row * width + c))
                 (Z.to_nat (row * width + c) + w)) with (be_bytes w x); [reflexivity|].
      unfold slice. rewrite <- Hoff, Nat2Z.id, drop_app_length.
      rewrite take_app_length'; [reflexivity|]. rewrite be_bytes_length. lia.
    - unfold b. cbn [left]. lia.
    - rewrite Hl. unfold b. cbn [left right].
      rewrite !length_app, be_bytes_length. lia.
    - unfold b. cbn [right buf]. lia. }
  unfold int_codes in Hin. rewrite !elem_of_cons, elem_of_nil in Hin. unfold fits_bytes in Hx.
  destruct Hin as [H|[H|[H|[]]]]; inversion H; subst code w mk.
  all: unfold binField; cbn [Z.eqb Pos.eqb].
  all: unfold ReadInt16, ReadInt32, ReadInt64; rewrite Hread; res_unfold.
  all: rewrite be_uint_be_bytes; do 2 f_equal.
  all: apply to_signed_mod; [lia|exact Hx].
Qed.

Lemma binary_cell_round_trip_witness :
  call ParseFloat_unused (table_of table_src true) (FnBin "J" 1 6) 0 = Ok (VInt32 256).
Proof.
  apply (binary_cell_round_trip ParseFloat_unused (table_of table_src true)
           (byte_of <$> [0; 1; 0; 2; 255; 255]) [] 10 1 [] 0 6 "J"%char 4%nat VInt32 256).
  - unfold int_codes. rewrite !elem_of_cons. auto.
  - unfold fits_bytes. vm_compute. split; [discriminate|reflexivity].
  - vm_compute. reflexivity.
  - vm_compute. reflexivity.
  - lia.
  - lia.
  - lia.
  - reflexivity.
  - vm_compute. discriminate.
Defined.

(** X23.  Calling the accessor of a scalar I, J or K field whose bytes start
    inside the table data but run past its end panics with a nil pointer
    dereference (the field reader has no underlying reader) instead of
    returning an error or nil. *)
Theorem binary_cell_past_the_end_panics pf h data width rows rest row c code w mk :
  (code, w, mk) ∈ int_codes →
  Data h = DByte data → Naxis h = width :: rows :: rest →
  0 ≤ row < rows → 0 ≤ width → 0 ≤ c →
  row * width + c ≤ Z.of_nat (length data) ≤ MaxInt64 →
  Z.of_nat (length data) < row * width + c + Z.of_nat w →
  call pf h (FnBin code 1 c) row = Panic "nil pointer dereference".
Proof.
  intros Hin HD HN Hrow Hw Hc Hfit Hshort.
  assert (w ≤ 8)%nat as Hw8.
  { unfold int_codes in Hin. rewrite !elem_of_cons, elem_of_nil in Hin.
    destruct Hin as [H|[H|[H|[]]]]; inversion H; lia. }
  rewrite (call_row_cell pf h _ width rows rest row c code 1 HD HN Hrow Hw Hc Hfit).
  set (b := {| buf := data; elem := zeros 8; left := row * width + c;
               right := Z.of_nat (length data); reader := None; eof := false |}).
  assert (ReadElem b w = Panic "nil pointer dereference") as Hread.
  { unfold ReadElem, Read.
    rewrite Read_loop_nil_reader; [reflexivity|reflexivity| | |].
    - unfold b. cbn [left right]. lia.
    - unfold b. cbn [right buf]. lia.
    - rewrite length_take. unfold b, zeros. cbn [elem left right].
      rewrite length_replicate. lia. }
  unfold int_codes in Hin. rewrite !elem_of_cons, elem_of_nil in Hin.
  destruct Hin as [H|[H|[H|[]]]]; inversion H; subst code w mk.
  all: unfold binField; cbn [Z.eqb Pos.eqb].
  all: unfold ReadInt16, ReadInt32, ReadInt64; rewrite Hread; reflexivity.
Qed.

Lemma binary_cell_past_the_end_panics_witness :
  call ParseFloat_unused short_table (FnBin "J" 1 0) 0 = Panic "nil pointer dereference".
Proof.
  apply (binary_cell_past_the_end_panics ParseFloat_unused short_table (bytes "abc")
           4 1 [] 0 0 "J"%char 4%nat VInt32).
  - unfold int_codes. rewrite !elem_of_cons. auto.
  - reflexivity.
  - reflexivity.
  - lia.
  - lia.
  - lia.
  - vm_compute. split; discriminate.
  - vm_compute. reflexivity.
Defined.

(** ** ASCII tables *)

Lemma TBCOL_not_hash k s : Nth "TBCOL" k ≠ "#" +:+ s.
Proof. cbv [Nth String.append]; congruence. Qed.

Lemma TBCOL_not_TTYPE k j : Nth "TBCOL" k ≠ Nth "TTYPE" j.
Proof. cbv [Nth String.append]; congruence. Qed.

Lemma TBCOL_not_TDISP k j : Nth "TBCOL" k ≠ Nth "TDISP" j.
Proof. cbv [Nth String.append]; congruence. Qed.

(** The keys that [register] leaves as they are. *)
Lemma register_keeps_key h i fn disp h1 key :
  register h i fn disp = Ok h1 →
  (∀ s, key ≠ "#" +:+ s) → (∀ j, key ≠ Nth "TTYPE" j) → (∀ j, key ≠ Nth "TDISP" j) →
  Keys h1 !! key = Keys h !! key.
Proof.
  intros Hr Hh Ht Hd.
  destruct (register_cases _ _ _ _ _ Hr) as (f & K & -> & Hcase).
  cbn [Keys set_table]. rewrite with_tdisp_lookup_ne by apply Hd.
  destruct Hcase as [(name & _ & _ & ->)|(_ & _ & ->)];
    rewrite lookup_insert_ne; auto using not_eq_sym.
Qed.

Lemma text_inv_step K0 top i h form col1 code disp h1 :
  0 ≤ i < top → Z.of_nat (length (flist h)) = top → text_inv K0 i h →
  Keys h !! Nth "TFORM" (i + 1) = Some (VString form) →
  Keys h !! Nth "TBCOL" (i + 1) = Some (VInt col1) →
  bytes form !! 0%nat = Some code →
  memb code "AIDEF" = true →
  register h i
    (FnText code
       (ParseInt (str (slice (bytes form) 1
          match Index_byte form "." with Some j => j | None => String.length form end)) 32)
       (wrap64 (col1 - 1))) disp = Ok h1 →
  text_inv K0 (i + 1) h1.
Proof.
  intros Hi Hlen (Hf & Hc & Hall & Hnamed) Hform Hcol Hcode Hok Hr.
  split; [|split; [|split]].
  - intros k. rewrite (register_keeps_key _ _ _ _ _ _ Hr);
      auto using TFORM_not_hash, TFORM_not_TTYPE, TFORM_not_TDISP.
  - intros k. rewrite (register_keeps_key _ _ _ _ _ _ Hr);
      auto using TBCOL_not_hash, TBCOL_not_TTYPE, TBCOL_not_TDISP.
  - destruct (register_cases _ _ _ _ _ Hr) as (f & K & -> & _). cbn [flist set_table].
    intros k Hk. destruct (Z.eq_dec k i) as [->|Hne].
    + do 3 eexists. split; [|split; [exact Hok|apply list_lookup_insert_eq; lia]].
      unfold textForm. rewrite <- Hf, <- Hc, Hform, Hcol.
      destruct (bytes form) as [|c0 l]; [discriminate|]. inversion Hcode; subst. reflexivity.
    + destruct (Hall k ltac:(lia)) as (code' & r' & col' & Ht & Hv & Hl).
      exists code', r', col'. split; [exact Ht|]. split; [exact Hv|].
      rewrite list_lookup_insert_ne by lia. exact Hl.
  - destruct (register_cases _ _ _ _ _ Hr) as (f & K & -> & Hcase). cbn [Keys set_table].
    intros k Hk. destruct (Z.eq_dec k i) as [->|Hne].
    + split.
      * rewrite with_tdisp_lookup_ne by apply TTYPE_not_TDISP.
        destruct Hcase as [(name & Hty & _ & ->)|(_ & _ & ->)].
        -- exists name. rewrite lookup_insert_ne by (apply not_eq_sym, TTYPE_not_hash).
           exact Hty.
        -- eexists. apply lookup_insert_eq.
      * unfold with_tdisp. destruct (K !! Nth "TDISP" (i + 1)) as [v|] eqn:Hd; [by rewrite Hd|].
        rewrite lookup_insert_eq. eauto.
    + destruct (Hnamed k ltac:(lia)) as [[name Hty] Hd].
      assert (Nth "TTYPE" (k + 1) ≠ Nth "TTYPE" (i + 1)) as Hne1
        by (intros E; apply Nth_inj in E; lia).
      assert (Nth "TDISP" (k + 1) ≠ Nth "TDISP" (i + 1)) as Hne2
        by (intros E; apply Nth_inj in E; lia).
      rewrite !with_tdisp_lookup_ne by (exact Hne2 || apply TTYPE_not_TDISP).
      destruct Hcase as [(nm & _ & _ & ->)|(_ & _ & ->)].
      * rewrite lookup_insert_ne by (apply not_eq_sym, TTYPE_not_hash).
        rewrite lookup_insert_ne by (apply not_eq_sym, TDISP_not_hash). eauto.
      * rewrite lookup_insert_ne by (by apply not_eq_sym).
        rewrite lookup_insert_ne by (apply TTYPE_not_TDISP). eauto.
Qed.

(** The loop on an ASCII table ends at the last field with no error. *)
Lemma loadTable_loop_text K0 top :
  ∀ count i col h h' err,
    0 ≤ i → i + Z.of_nat count = top → Z.of_nat (length (flist h)) = top →
    text_inv K0 i h →
    loadTable_loop false count i col h = Ok (h', err) →
    text_inv K0 top h' ∧ err = None.
Proof.
  induction count as [|count IH]; intros i col h h' err Hi Htop Hlen HP; cbn [loadTable_loop].
  - intros H; inversion H; subst. replace (i + Z.of_nat 0) with i by lia. auto.
  - destruct (Keys h !! Nth "TFORM" (i + 1)) as [[]|] eqn:Hform; try discriminate.
    res_unfold. cbn [assert_string].
    destruct (_ <? 1)%nat; [discriminate|].
    destruct (Keys h !! Nth "TBCOL" (i + 1)) as [[]|] eqn:Hcol; cbn [assert_int];
      try discriminate.
    change 0 with (Z.of_nat 0). rewrite elem_at_nat.
    destruct (bytes s !! 0%nat) as [code|] eqn:Hcode; [|discriminate].
    unfold accessorText, fieldReader. res_unfold.
    destruct (Data h) as [| |d| | | | |] eqn:Hd; try discriminate.
    match goal with
    | |- context [match ?x with Ok _ => _ | Panic _ => _ | OutOfFuel => _ end] =>
        destruct x as [[fn disp]| |] eqn:Hacc; try discriminate
    end.
    assert (fn = FnText code
                   (ParseInt (str (slice (bytes s) 1
                      match Index_byte s "." with
                      | Some j => j | None => String.length s end)) 32)
                   (wrap64 (n - 1)) ∧
            memb code "AIDEF" = true) as [-> Hok].
    { clear -Hacc. destruct code as [[] [] [] [] [] [] [] []]; cbn in Hacc;
        try discriminate; inversion Hacc; split; reflexivity. }
    destruct (register h i _ disp) as [h1| |] eqn:Hr; try discriminate.
    intros Hrun.
    apply (IH (i + 1) n h1 h' err); [lia|lia| | |exact Hrun].
    + destruct (register_cases _ _ _ _ _ Hr) as (f & K & -> & _). cbn [flist set_table].
      rewrite length_insert. exact Hlen.
    + eapply text_inv_step; eauto. lia.
Qed.

(** X24.  On an ASCII table a loadTable that returns reports no error and has
    registered, for every field k below TFIELDS, a text accessor whose
    code is the first byte of TFORMk (one of A, I, D, E, F), whose width
    is the number that follows it, and whose byte offset is TBCOLk - 1. *)
Theorem text_table_fields_start_at_TBCOL h b h' b' err tfields k :
  loadTable h b false = Ok (h', b', err) →
  Keys h !! "TFIELDS"%string = Some (VInt tfields) → 0 ≤ k < tfields →
  err = None ∧
  ∃ code r col, textForm (Keys h) k = Some (code, r, col) ∧ memb code "AIDEF" = true ∧
                Field h' (ColInt k) = FnText code r (wrap64 (col - 1)).
Proof.
  intros Hrun Htf Hk.
  destruct (loadTable_unfold _ _ _ _ _ _ Hrun)
    as (tfields' & width & rows & rest & data & Htf' & Hpos & HN & Hsize & Hread & Hloop).
  assert (tfields' = tfields) as -> by congruence.
  destruct (loadTable_inv _ _ _ _ _ _ Hrun)
    as (tf & _ & _ & _ & _ & Htf2 & _ & _ & _ & _ & _ & _ & _ & Hl & _ & _).
  assert (tf = tfields) as -> by congruence.
  assert (text_inv (Keys h) tfields h' ∧ err = None) as [(_ & _ & Hall & _) He].
  { eapply (loadTable_loop_text (Keys h) tfields); [| | | |exact Hloop].
    - lia.
    - lia.
    - cbn [flist set_table]. rewrite length_replicate. lia.
    - split; [reflexivity|]. split; [reflexivity|].
      split; intros k0 Hk0; exfalso; lia. }
  split; [exact He|].
  destruct (Hall k Hk) as (code & r & col & Ht & Hm & Hfl).
  exists code, r, col. split; [exact Ht|]. split; [exact Hm|].
  unfold Field.
  replace ((0 <=? k) && (k <? Z.of_nat (length (flist h')))) with true
    by (symmetry; apply andb_true_iff; split; [apply Z.leb_le|apply Z.ltb_lt]; lia).
  by rewrite Hfl.
Qed.

Lemma text_table_fields_start_at_TBCOL_witness :
  Field (table_of text_src false) (ColInt 1) = FnText "A" 5 3.
Proof.
  destruct loadTable_text_src as [b' Hrun].
  destruct (text_table_fields_start_at_TBCOL _ _ _ _ _ 2 1 Hrun)
    as (_ & code & r & col & Ht & _ & Hf).
  - vm_compute. reflexivity.
  - lia.
  - rewrite Hf. vm_compute in Ht. inversion Ht; subst. vm_compute. reflexivity.
Defined.

(** X25.  Calling a text accessor of width w at offset c on row r returns the
    value of the w bytes at r*NAXIS1 + c of the table data: the string
    itself for A, the 32-bit integer of the trimmed text for I, and the
    float of the trimmed text with the first D replaced by E for D, E
    and F. *)
Theorem text_cell_value pf h data width rows rest row c code r v :
  Data h = DByte data → Naxis h = width :: rows :: rest →
  0 ≤ row < rows → 0 ≤ width → 0 ≤ c → 0 ≤ r →
  row * width + c + r ≤ Z.of_nat (length data) ≤ MaxInt64 →
  text_value pf code
    (str (slice data (Z.to_nat (row * width + c)) (Z.to_nat (row * width + c + r)))) = Some v →
  call pf h (FnText code r c) row = Ok v.
Proof.
  intros HD HN Hrow Hw Hc Hr Hfit Hv. unfold call, call_row, fieldReader.
  rewrite HN, HD. cbn [lookup list_lookup]. res_unfold.
  destruct (Z.ltb_spec row 0); [lia|]. destruct (Z.leb_spec rows row); [lia|].
  assert (0 ≤ row * width) by nia.
  rewrite (wrap64_id (row * width)) by (unfold MinInt64, MaxInt64 in *; lia).
  rewrite wrap64_id by (unfold MinInt64, MaxInt64 in *; lia).
  unfold textField, ReadString, Read. destruct (Z.ltb_spec r 0); [lia|].
  rewrite Read_loop_buffered; cbn [set_left left right buf];
    unfold zeros; rewrite ?length_replicate; try lia.
  res_unfold.
  replace (Z.to_nat (row * width + c) + Z.to_nat r)%nat
    with (Z.to_nat (row * width + c + r)) by lia.
  revert Hv. unfold text_value.
  destruct code as [[] [] [] [] [] [] [] []]; try discriminate; by intros [= ->].
Qed.

Lemma text_cell_value_witness :
  call ParseFloat_unused (table_of text_src false) (FnText "I" 3 0) 0 = Ok (VInt 42).
Proof.
  apply (text_cell_value ParseFloat_unused (table_of text_src false) (bytes " 42hello")
           8 1 [] 0 0 "I"%char 3 (VInt 42)).
  - vm_compute. reflexivity.
  - vm_compute. reflexivity.
  - lia.
  - lia.
  - lia.
  - lia.
  - vm_compute. split; discriminate.
  - vm_compute. reflexivity.
Defined.

(** X26.  After loadTable on an ASCII table every field below TFIELDS has a
    string under its key TTYPEn (the header's, or the default COLn) and
    a value under its key TDISPn; this is what the demo's writeTable
    asserts of every column. *)
Theorem text_table_columns_are_named h b h' b' err tfields k :
  loadTable h b false = Ok (h', b', err) →
  Keys h !! "TFIELDS"%string = Some (VInt tfields) → 0 ≤ k < tfields →
  (∃ name, Keys h' !! Nth "TTYPE" (k + 1) = Some (VString name)) ∧
  is_Some (Keys h' !! Nth "TDISP" (k + 1)).
Proof.
  intros Hrun Htf Hk.
  destruct (loadTable_unfold _ _ _ _ _ _ Hrun)
    as (tfields' & width & rows & rest & data & Htf' & Hpos & HN & Hsize & Hread & Hloop).
  assert (tfields' = tfields) as -> by congruence.
  assert (text_inv (Keys h) tfields h' ∧ err = None) as [(_ & _ & _ & Hnamed) _].
  { eapply (loadTable_loop_text (Keys h) tfields); [| | | |exact Hloop].
    - lia.
    - lia.
    - cbn [flist set_table]. rewrite length_replicate. lia.
    - split; [reflexivity|]. split; [reflexivity|].
      split; intros k0 Hk0; exfalso; lia. }
  exact (Hnamed k Hk).
Qed.

Lemma text_table_columns_are_named_witness :
  Keys (table_of text_src false) !! "TTYPE2"%string = Some (VString "COL2") ∧
  Keys (table_of text_src false) !! "TDISP2"%string = Some (VString "A5").
Proof.
  destruct loadTable_text_src as [b' Hrun].
  destruct (text_table_columns_are_named _ _ _ _ _ 2 1 Hrun) as [[name Hn] [d Hd]].
  - vm_compute. reflexivity.
  - lia.
  - split; vm_compute; reflexivity.
Defined.

(** ** [Open]: the Units of the result *)

Section OpenUnits.
Variable pf : string → float64.
Variable sc : string → float64 * float64.

(** X27.  The loop of Open started with a list of Units already decoded
    returns that list unchanged, followed by what the loop returns when
    started with the empty list: later turns never alter, reorder or
    drop earlier Units. *)
Theorem Open_loop_keeps_earlier_units (fuel : nat) :
  ∀ b fits,
    Open_loop pf sc fuel b fits = (l ← Open_loop pf sc fuel b []; mret (fits ++ l)).
Proof.
  induction fuel as [|fuel IH]; intros b fits; cbn [Open_loop]; res_unfold.
  all: destruct (IsEOF b); [by rewrite app_nil_r|]; try reflexivity.
  destruct (NewHeader pf sc b) as [[[b1 h] [e|]]| |]; try reflexivity;
    [by rewrite app_nil_r|].
  assert (∀ b2 u, Open_loop pf sc fuel b2 (fits ++ [u])
                  = match Open_loop pf sc fuel b2 ([] ++ [u]) with
                    | Ok a => Ok (fits ++ a)
                    | Panic msg => Panic msg
                    | OutOfFuel => OutOfFuel
                    end) as Hnext.
  { intros b2 u. rewrite (IH b2 (fits ++ [u])), (IH b2 ([] ++ [u])).
    destruct (Open_loop pf sc fuel b2 []) as [l| |]; try reflexivity.
    cbn [app]. by rewrite <- app_assoc. }
  repeat match goal with
  | |- context [Open_loop pf sc fuel ?b2 (fits ++ [?u])] => rewrite (Hnext b2 u)
  | |- ?x = ?x => reflexivity
  | |- context [match ?x with _ => _ end] => destruct x
  | |- context [if ?x then _ else _] => destruct x
  end.
  all: reflexivity.
Qed.

(** Every Unit of the result was there before or comes from a turn. *)
Lemma Open_loop_units (fuel : nat) :
  ∀ b fits l u,
    Open_loop pf sc fuel b fits = Ok l → u ∈ l →
    u ∈ fits ∨ ∃ b0 b1 h, NewHeader pf sc b0 = Ok (b1, h, None) ∧ turn h b1 u.
Proof.
  induction fuel as [|fuel IH]; intros b fits l u; cbn [Open_loop]; res_unfold.
  all: destruct (IsEOF b); [intros [= <-]; auto|]; try discriminate.
  destruct (NewHeader pf sc b) as [[[b1 h] [e|]]| |] eqn:Hh; try discriminate;
    [intros [= <-]; auto|].
  assert (∀ u', turn h b1 u' → ∀ l', l' = fits ++ [u'] → u ∈ l' →
            u ∈ fits ∨ ∃ b0 b1 h, NewHeader pf sc b0 = Ok (b1, h, None) ∧ turn h b1 u)
    as Hstop.
  { intros u' Ht l' -> [Hin|Hin%list_elem_of_singleton]%elem_of_app; [auto|].
    subst u'. right. eauto. }
  assert (∀ u' b2, turn h b1 u' → Open_loop pf sc fuel b2 (fits ++ [u']) = Ok l → u ∈ l →
            u ∈ fits ∨ ∃ b0 b1 h, NewHeader pf sc b0 = Ok (b1, h, None) ∧ turn h b1 u)
    as Hgo.
  { intros u' b2 Ht Hrun Hin. destruct (IH _ _ _ _ Hrun Hin) as [Hold|Hnew]; [|auto].
    eapply Hstop; eauto. }
  destruct (Keys h !! "SIMPLE"%string) as [v|] eqn:Hs.
  - destruct (verifyPrimary h) as [e|] eqn:Hv.
    { intros [= <-]. eapply Hstop; eauto. constructor. }
    cbn [Naxis set_class]. destruct (Naxis h) as [|n0 rest] eqn:HN.
    { apply Hgo. apply turn_primary_bare; eauto. }
    destruct (Z.eqb_spec n0 0) as [->|Hn0].
    { intros [= <-]. eapply Hstop; eauto. apply turn_primary_bare; eauto. }
    destruct (loadData (set_class h "SIMPLE") b1) as [[[h2 b2] e]| |] eqn:Hl; try discriminate.
    assert (turn h b1 h2) as Ht by (eapply turn_primary_image; eauto).
    destruct e; [intros [= <-]; eapply Hstop; eauto|by apply Hgo].
  - destruct (Keys h !! "XTENSION"%string) as [[]|] eqn:Hx;
      try (intros [= <-]; eapply Hstop; eauto; constructor).
    destruct (verifyExtension h) as [e|] eqn:Hv.
    { intros [= <-]. eapply Hstop; eauto. constructor. }
    destruct (String.eqb_spec s "IMAGE") as [->|Hi].
    { cbn [Naxis set_class]. destruct (Naxis h) as [|n0 rest] eqn:HN.
      - apply Hgo. apply turn_extension_bare; auto; discriminate.
      - destruct (loadData (set_class h "IMAGE") b1) as [[[h2 b2] e]| |] eqn:Hl;
          try discriminate.
        apply Hgo. eapply turn_extension_image; eauto. congruence. }
    destruct (String.eqb_spec s "TABLE") as [->|Ht].
    { destruct (loadTable (set_class h "TABLE") b1 false) as [[[h2 b2] e]| |] eqn:Hl;
        try discriminate.
      apply Hgo. eapply (turn_table h b1 false); eauto. }
    destruct (String.eqb_spec s "BINTABLE") as [->|Hb].
    { destruct (loadTable (set_class h "BINTABLE") b1 true) as [[[h2 b2] e]| |] eqn:Hl;
        try discriminate.
      apply Hgo. eapply (turn_table h b1 true); eauto. }
    apply Hgo. apply turn_extension_bare; auto. congruence.
Qed.

End OpenUnits.

(** The product that [loadData] computes is the product of the extents
    reduced to an [int]. *)
Lemma wrap64_mod a b : a mod 2 ^ 64 = b mod 2 ^ 64 → wrap64 a = wrap64 b.
Proof. unfold wrap64, to_signed. by intros ->. Qed.

Lemma wrap64_mod_eq a : wrap64 a mod 2 ^ 64 = a mod 2 ^ 64.
Proof.
  unfold wrap64, to_signed. cbv zeta.
  destruct (a mod 2 ^ 64 <? 2 ^ (64 - 1)).
  - apply Z.mod_mod. lia.
  - replace (a mod 2 ^ 64 - 2 ^ 64) with (a mod 2 ^ 64 + (-1) * 2 ^ 64) by lia.
    rewrite Z_mod_plus_full. apply Z.mod_mod. lia.
Qed.

Lemma wrap64_mul_l a b : wrap64 (wrap64 a * b) = wrap64 (a * b).
Proof.
  apply wrap64_mod.
  rewrite Z.mul_mod, wrap64_mod_eq, <- Z.mul_mod by lia. reflexivity.
Qed.

Lemma fold_prod_wrap (naxis : list Z) :
  ∀ acc, fold_left (λ p x, wrap64 (p * x)) naxis (wrap64 acc)
         = wrap64 (acc * product naxis).
Proof.
  induction naxis as [|n naxis IH]; intros acc; cbn [fold_left].
  - unfold product. cbn. by rewrite Z.mul_1_r.
  - rewrite wrap64_mul_l, IH. f_equal. unfold product. cbn [fold_right]. ring.
Qed.

Lemma prodNaxis_wrap (naxis : list Z) : prodNaxis naxis = wrap64 (product naxis).
Proof.
  unfold prodNaxis. change 1 with (wrap64 1) at 1.
  rewrite fold_prod_wrap. f_equal. lia.
Qed.

Section OpenResults.
Variable pf : string → float64.
Variable sc : string → float64 * float64.

Lemma NewHeader_fresh (b b1 : Reader) (h : Unit) :
  NewHeader pf sc b = Ok (b1, h, None) → fresh h.
Proof.
  intros Hrun.
  destruct (NewHeader_loop_end pf sc int32_keys _ (processCard_int32 pf sc) _ _ _ _ _
              ltac:(intros k n; by rewrite lookup_empty) Hrun) as (K1 & HK1 & _ & Hh).
  destruct (header_end_Naxis _ _ Hh) as [HK HN]. unfold fresh. rewrite HK.
  assert (class h = ""%string ∧ Data h = DNil ∧ pix h = PixNil ∧ flist h = []) as Hz.
  { clear -Hh. unfold header_end in Hh.
    destruct (K1 !! "NAXIS"%string) as [item|]; [|by inversion Hh].
    res_unfold. destruct (assert_int (Some item)) as [n| |]; try discriminate.
    destruct (n <? 0); [discriminate|].
    destruct (collect_naxis K1 1 (Z.to_nat n)) as [l| |]; try discriminate.
    by inversion Hh. }
  destruct Hz as (Hc & Hd & Hp & Hf).
  split; [exact Hc|]. split; [exact Hd|]. split; [exact Hp|]. split; [exact Hf|].
  split; [exact HK1|].
  destruct (K1 !! "NAXIS"%string) as [v|].
  - destruct HN as (n & -> & Hlen & Hall). split.
    + apply Forall_lookup. intros j x Hj. exact (HK1 _ _ (Hall j x Hj)).
    + intros n' [= <-]. exact Hlen.
  - rewrite HN. split; [constructor|discriminate].
Qed.

Lemma Open_images_buffer (src : list ascii) units err u :
  Open pf sc src = Ok (units, err) → u ∈ units → HasImage u = true →
  is_Some (Keys u !! "SIMPLE"%string) ∨ class u = "IMAGE"%string →
  pix u = PixData ∧
  ∃ bitpix, Keys u !! "BITPIX"%string = Some (VInt bitpix) ∧
            buffer_bitpix (Data u) = Some bitpix ∧
            Z.of_nat (buffer_len (Data u)) = prodNaxis (Naxis u).
Proof.
  unfold Open. res_unfold.
  destruct (Open_loop pf sc (S (length src)) (NewReader src) []) as [l| |] eqn:Hrun;
    try discriminate.
  intros [= <- _] Hin Himg Hkind.
  destruct (Open_loop_units pf sc _ _ _ _ _ Hrun Hin) as [Hnil|(b0 & b1 & h & Hh & Ht)].
  { by apply elem_of_nil in Hnil. }
  apply NewHeader_fresh in Hh. destruct Hh as (Hc & _).
  unfold HasImage in Himg. apply andb_true_iff in Himg as [Hclass Hax].
  assert (∀ c b2 e, loadData (set_class h c) b1 = Ok (u, b2, e) →
            (∃ bitpix naxis, mandatory (Keys h) bitpix naxis) → Naxis h ≠ [] →
            pix u = PixData ∧
            ∃ bitpix, Keys u !! "BITPIX"%string = Some (VInt bitpix) ∧
                      buffer_bitpix (Data u) = Some bitpix ∧
                      Z.of_nat (buffer_len (Data u)) = prodNaxis (Naxis u))
    as Hload.
  { intros c b2 e Hl (bitpix & naxis & Hb & Hv & _) HN.
    destruct (loadData_inv _ _ _ _ _ bitpix Hl HN Hb Hv)
      as (_ & HK & HNx & _ & Hpix & Hkd & Hlen & _).
    split; [exact Hpix|]. exists bitpix. rewrite HK, HNx. auto. }
  destruct Ht as [|Hs Hv Hn|n0 rest u b2 e Hs Hv Hn Hn0 Hl
                  |xten Hs Hx Hv Hn Ht Hb|u b2 e Hs Hx Hv Hn Hl|binary u b2 e Hs Hx Hv Hl].
  - rewrite Hc in Hclass. discriminate.
  - cbn [Naxis set_class] in Hax.
    destruct Hn as [Hn|[rest Hn]]; rewrite Hn in Hax; discriminate.
  - eapply Hload; [exact Hl| |cbn; congruence].
    by destruct (verifyPrimary_None _ Hv).
  - cbn [Keys class set_class Naxis] in *.
    destruct Hkind as [[v Hv']|Hk]; [congruence|]. rewrite (Hn Hk) in Hax.
    discriminate.
  - eapply Hload; [exact Hl| |exact Hn].
    destruct (verifyExtension_None _ Hv) as (x & bitpix & naxis & p & _ & Hm & _). eauto.
  - destruct (loadTable_inv _ _ _ _ _ _ Hl)
      as (tf & w & r & rest & data & _ & _ & _ & _ & _ & Hcl & _).
    rewrite Hcl in Hclass. cbn [class set_class] in Hclass. destruct binary; discriminate.
Qed.

(** X28.  Every Unit returned by Open for which HasImage is true, that is a
    primary HDU or an IMAGE extension and whose number of pixels (the
    product of its extents) fits an int has its pixel accessors bound
    and a data buffer of the BITPIX type with one element per pixel. *)
Theorem Open_images_are_loaded (src : list ascii) units err u :
  Open pf sc src = Ok (units, err) → u ∈ units → HasImage u = true →
  is_Some (Keys u !! "SIMPLE"%string) ∨ class u = "IMAGE"%string →
  MinInt64 ≤ product (Naxis u) ≤ MaxInt64 →
  loaded u.
Proof.
  intros Hopen Hin Himg Hkind Hfit.
  destruct (Open_images_buffer src units err u Hopen Hin Himg Hkind)
    as (Hpix & bitpix & Hb & Hk & Hlen).
  split; [exact Hpix|]. exists bitpix. split; [exact Hb|]. split; [exact Hk|].
  rewrite Hlen, prodNaxis_wrap. by apply wrap64_id.
Qed.

(** X29.  Every Unit returned by Open for which HasTable is true has exactly
    two axes, BITPIX 8 and a byte buffer of exactly NAXIS1*NAXIS2 bytes
    (the product cannot overflow, the axes being 32-bit); so the demo's
    main always sends it to writeTable and never to writeArray. *)
Theorem Open_tables_have_their_rows (src : list ascii) units err u :
  Open pf sc src = Ok (units, err) → u ∈ units → HasTable u = true →
  ∃ width rows data,
    Naxis u = [width; rows] ∧ Data u = DByte data ∧
    Z.of_nat (length data) = width * rows ∧
    Keys u !! "BITPIX"%string = Some (VInt 8) ∧
    extract u = OutTable.
Proof.
  unfold Open. res_unfold.
  destruct (Open_loop pf sc (S (length src)) (NewReader src) []) as [l| |] eqn:Hrun;
    try discriminate.
  intros [= <- _] Hin Htab.
  destruct (Open_loop_units pf sc _ _ _ _ _ Hrun Hin) as [Hnil|(b0 & b1 & h & Hh & Ht)].
  { by apply elem_of_nil in Hnil. }
  apply NewHeader_fresh in Hh. destruct Hh as (Hc & _ & _ & _ & H32 & HN32 & Hlen).
  unfold extract, HasImage. unfold HasTable in Htab |- *.
  destruct Ht as [|Hs Hv Hn|n0 rest u b2 e Hs Hv Hn Hn0 Hl
                  |xten Hs Hx Hv Hn Ht Hb|u b2 e Hs Hx Hv Hn Hl|binary u b2 e Hs Hx Hv Hl].
  - rewrite Hc in Htab. discriminate.
  - discriminate.
  - destruct (verifyPrimary_None _ Hv) as [_ (bitpix & naxis & Hb & Hvb & _)].
    destruct (loadData_inv _ _ _ _ _ bitpix Hl ltac:(cbn; congruence) Hb Hvb)
      as (_ & _ & _ & Hcl & _).
    rewrite Hcl in Htab. discriminate.
  - cbn [class set_class] in Htab.
    destruct (String.eqb_spec xten "TABLE"); [congruence|].
    destruct (String.eqb_spec xten "BINTABLE"); [congruence|]. discriminate.
  - destruct (verifyExtension_None _ Hv) as (x & bitpix & naxis & p & _ & (Hb & Hvb & _) & _).
    destruct (loadData_inv _ _ _ _ _ bitpix Hl Hn Hb Hvb) as (_ & _ & _ & Hcl & _).
    rewrite Hcl in Htab. discriminate.
  - destruct (verifyExtension_None _ Hv)
      as (x & bitpix & naxis & p & Hx' & (Hb & _ & Hna & _) & _ & _ & _ & Htb).
    assert (bitpix = 8 ∧ naxis = 2) as [-> ->].
    { apply Htb. rewrite Hx in Hx'. inversion Hx'. destruct binary; auto. }
    destruct (loadTable_inv _ _ _ _ _ _ Hl)
      as (tf & w & r & rest & data & _ & HN & HD & Hsz & HNx & Hcl & _).
    cbn [Naxis Keys class set_class] in *.
    specialize (Hlen 2 Hna). rewrite HN in Hlen, HN32.
    destruct rest; [|cbn in Hlen; lia].
    inversion HN32 as [|? ? Hw Hr']; subst. inversion Hr' as [|? ? Hr _]; subst.
    unfold int32 in Hw, Hr.
    rewrite wrap64_id in Hsz by (unfold MinInt64, MaxInt64; nia).
    exists w, r, data. rewrite HNx, HN, Hcl.
    split; [reflexivity|]. split; [exact HD|]. split; [exact Hsz|]. split.
    + assert (Keys u !! "BITPIX"%string = Keys h !! "BITPIX"%string) as ->; [|exact Hb].
      clear -Hl. apply loadTable_unfold in Hl.
      destruct Hl as (tf & w & r & rest & data & _ & Hpos & _ & _ & _ & Hloop).
      destruct (loadTable_loop_ind
                  (λ _ v, Keys v !! "BITPIX"%string = Keys h !! "BITPIX"%string) tf)
        with (binary := binary) (count := Z.to_nat tf) (i := 0) (col := 0)
             (h := set_table (set_class h (if binary then "BINTABLE" else "TABLE"))
                     (DByte data) (replicate (Z.to_nat tf) FnNil) ∅ (Keys h))
             (h' := u) (err := e) as (i' & _ & HK & _);
        try assumption; try reflexivity; try lia.
      * auto.
      * intros i v fn disp v1 _ Hv _ _ Hr. rewrite <- Hv.
        apply (register_keeps_key _ _ _ _ _ _ Hr); intros; cbv [Nth String.append]; congruence.
    + destruct binary; reflexivity.
Qed.

End OpenResults.

Lemma Open_images_are_loaded_witness :
  loaded (unit_of stream_image_3x2 0).
Proof.
  eapply (Open_images_are_loaded ParseFloat_unused Sscanf_complex_unused stream_image_3x2
            _ _ (unit_of stream_image_3x2 0)).
  - vm_compute. reflexivity.
  - vm_compute. apply list_elem_of_here.
  - vm_compute. reflexivity.
  - left. vm_compute. eauto.
  - vm_compute. split; discriminate.
Defined.

Lemma Open_tables_have_their_rows_witness :
  ∃ data, Naxis (unit_of stream_table 1) = [10; 1] ∧
          Data (unit_of stream_table 1) = DByte data ∧ length data = 10%nat.
Proof.
  destruct (Open_tables_have_their_rows ParseFloat_unused Sscanf_complex_unused stream_table
              [unit_of stream_table 0; unit_of stream_table 1] None (unit_of stream_table 1))
    as (width & rows & data & HN & HD & Hl & _).
  - vm_compute. reflexivity.
  - apply list_elem_of_further, list_elem_of_here.
  - vm_compute. reflexivity.
  - assert (Naxis (unit_of stream_table 1) = [10; 1]) as HN' by (vm_compute; reflexivity).
    rewrite HN' in HN. inversion HN; subst width rows.
    exists data. split; [exact HN'|]. split; [exact HD|]. lia.
Defined.
